(** * Customer-Agent: the response-generation and escalation core

    A shallow embedding of the decision logic of the customer-support
    agent: [AIResponseService] (intent analysis, template composer,
    confidence scorer, validator, provider-failure fallback),
    [ShopifyOrdersService.extractOrderNumber] and
    [CustomerSupportService.processEmail]; and of the code around it: the
    batch loop over the unread messages, the outgoing message, the table
    of historical responses, the similarity search and the dashboard
    queries.

    Modelling conventions.
    - A JavaScript string is a list of code units; only code units below
      256 are represented ([ascii]), so [length] is [String.length] and
      case mapping is the Latin-1 one.
    - JavaScript numbers used as scores are exact rationals ([Q]); every
      threshold of the source (0.6, 0.7, ...) is a decimal literal.
    - Regular expressions are terms of a small syntax run by a
      backtracking matcher that lists its results in the priority order
      of the JavaScript engine.
    - Collaborators (generation provider, order lookup, similarity search,
      mailbox, clock, formatting) are fields of an explicit record of
      services; the database is an in-memory store threaded through a
      state-and-exception monad. *)

From Stdlib Require Import Ascii String.
From Stdlib Require Import List Bool Arith PeanoNat Lia Permutation.
From Stdlib Require Import ZArith QArith Qminmax DecimalString.
Import ListNotations.

Close Scope Q_scope.
Close Scope Z_scope.
Close Scope string_scope.
Local Open Scope nat_scope.
Local Open Scope list_scope.
Local Open Scope bool_scope.

(** ** JavaScript strings *)

Definition text := list ascii.

(** A string literal of the source. *)
Definition T (s : string) : text := list_ascii_of_string s.

(** The double-quote character and the line feed, written by code. *)
Definition dquote : text := [ascii_of_nat 34].
Definition nl : text := [ascii_of_nat 10].

Definition code (c : ascii) : nat := nat_of_ascii c.

Definition inRange (lo hi : nat) (c : ascii) : bool :=
  (lo <=? code c) && (code c <=? hi).

Definition isUpperAZ (c : ascii) : bool := inRange 65 90 c.
Definition isLowerAZ (c : ascii) : bool := inRange 97 122 c.
Definition isDigit (c : ascii) : bool := inRange 48 57 c.

(** [\w] *)
Definition isWordChar (c : ascii) : bool :=
  isUpperAZ c || isLowerAZ c || isDigit c || (code c =? 95).

(** [\s] on code units below 256: tab, line feed, vertical tab, form feed,
    carriage return, space and the no-break space. *)
Definition isSpace (c : ascii) : bool :=
  inRange 9 13 c || (code c =? 32) || (code c =? 160).

(** [.] (no [s] flag): anything but a line terminator. *)
Definition isDot (c : ascii) : bool :=
  negb ((code c =? 10) || (code c =? 13)).

(** [String.prototype.toLowerCase] on one code unit below 256. *)
Definition lowerChar (c : ascii) : ascii :=
  if isUpperAZ c then ascii_of_nat (code c + 32)
  else if inRange 192 222 c && negb (code c =? 215) then ascii_of_nat (code c + 32)
  else c.

Definition toLowerCase (s : text) : text := map lowerChar s.

(** Case folding of the [i] flag restricted to the letters A-Z: a code unit
    above 127 never folds onto an ASCII one. *)
Definition foldAZ (c : ascii) : ascii :=
  if isUpperAZ c then ascii_of_nat (code c + 32) else c.

Definition eqChar (a b : ascii) : bool := code a =? code b.

Definition eqCharCI (a b : ascii) : bool := eqChar (foldAZ a) (foldAZ b).

Fixpoint startsWith (p s : text) : bool :=
  match p, s with
  | [], _ => true
  | _ :: _, [] => false
  | a :: p', b :: s' => eqChar a b && startsWith p' s'
  end.

(** [a === b] on strings *)
Fixpoint eqText (a b : text) : bool :=
  match a, b with
  | [], [] => true
  | x :: a', y :: b' => eqChar x y && eqText a' b'
  | _, _ => false
  end.

(** [String.prototype.includes] *)
Fixpoint includes (s p : text) : bool :=
  startsWith p s ||
  match s with
  | [] => false
  | _ :: s' => includes s' p
  end.

(** [s.substring(0, n)] *)
Definition substring0 (s : text) (n : nat) : text := firstn n s.

(** [Array.prototype.join] *)
Fixpoint join (sep : text) (xs : list text) : text :=
  match xs with
  | [] => []
  | [x] => x
  | x :: rest => x ++ sep ++ join sep rest
  end.

(** JavaScript truthiness of an optional string. *)
Definition truthy (o : option text) : bool :=
  match o with
  | Some (_ :: _) => true
  | _ => false
  end.

(** ** Regular expressions *)

Inductive regex : Type :=
| Eps : regex
| Chr : (ascii -> bool) -> regex          (* one code unit of a class *)
| Seq : regex -> regex -> regex
| Alt : regex -> regex -> regex           (* r1|r2, r1 tried first *)
| Star : (ascii -> bool) -> regex         (* greedy c* over a class *)
| WordB : regex                           (* \b *)
| Cap : regex -> regex.                   (* the capture group *)

(** A literal, case-sensitive or under the [i] flag. *)
Fixpoint lit (ci : bool) (w : text) : regex :=
  match w with
  | [] => Eps
  | c :: w' => Seq (Chr (if ci then eqCharCI c else eqChar c)) (lit ci w')
  end.

Definition Plus (p : ascii -> bool) : regex := Seq (Chr p) (Star p).
Definition Opt (r : regex) : regex := Alt r Eps.

Fixpoint alts (rs : list regex) : regex :=
  match rs with
  | [] => Chr (fun _ => false)
  | [r] => r
  | r :: rs' => Alt r (alts rs')
  end.

(** A position of the matcher: the code unit just before it, the input
    that remains, and the text captured so far. *)
Record mstate : Type := MState {
  before : option ascii;
  rest : text;
  captured : option text
}.

Definition isWordOpt (o : option ascii) : bool :=
  match o with
  | Some c => isWordChar c
  | None => false
  end.

Definition atBoundary (b : option ascii) (s : text) : bool :=
  xorb (isWordOpt b) (isWordOpt (hd_error s)).

(** Greedy star: the longest run first, then every shorter one. *)
Fixpoint runStar (p : ascii -> bool) (b : option ascii) (s : text)
    (cp : option text) : list mstate :=
  match s with
  | c :: s' =>
      if p c then runStar p (Some c) s' cp ++ [MState b s cp]
      else [MState b s cp]
  | [] => [MState b s cp]
  end.

(** All the ways [r] matches at a position, best first. *)
Fixpoint run (r : regex) (st : mstate) : list mstate :=
  match r with
  | Eps => [st]
  | Chr p =>
      match rest st with
      | c :: s' => if p c then [MState (Some c) s' (captured st)] else []
      | [] => []
      end
  | Seq r1 r2 => flat_map (run r2) (run r1 st)
  | Alt r1 r2 => run r1 st ++ run r2 st
  | Star p => runStar p (before st) (rest st) (captured st)
  | WordB => if atBoundary (before st) (rest st) then [st] else []
  | Cap r1 =>
      map (fun st' =>
             MState (before st') (rest st')
               (Some (firstn (length (rest st) - length (rest st')) (rest st))))
          (run r1 st)
  end.

(** The leftmost match: [RegExp.prototype.exec] without the [g] flag. *)
Fixpoint execFrom (r : regex) (b : option ascii) (s : text) : option mstate :=
  match run r (MState b s None) with
  | st' :: _ => Some st'
  | [] =>
      match s with
      | [] => None
      | c :: s' => execFrom r (Some c) s'
      end
  end.

Definition exec (r : regex) (s : text) : option mstate := execFrom r None s.

(** [s.match(r)] used as a condition. *)
Definition test (r : regex) (s : text) : bool :=
  match exec r s with
  | Some _ => true
  | None => false
  end.

(** [s.match(r)[1]] *)
Definition group1 (r : regex) (s : text) : option text :=
  match exec r s with
  | Some st => captured st
  | None => None
  end.

(** [\d{n,}] and friends: at least [n] code units of a class. *)
Fixpoint AtLeast (n : nat) (p : ascii -> bool) : regex :=
  match n with
  | 0 => Star p
  | S n' => Seq (Chr p) (AtLeast n' p)
  end.

(** [\b(w1|w2|...)\b], case-sensitive. *)
Definition wordAlt (ws : list text) : regex :=
  Seq WordB (Seq (Cap (alts (map (lit false) ws))) WordB).

(** [String.prototype.trim] *)
Fixpoint trimStart (s : text) : text :=
  match s with
  | c :: s' => if isSpace c then trimStart s' else s
  | [] => []
  end.

Definition trim (s : text) : text := rev (trimStart (rev (trimStart s))).

(** Decimal rendering of a non-negative integer in a template literal. *)
Definition showNat (n : nat) : text := T (NilEmpty.string_of_uint (Nat.to_uint n)).

(** ** Numbers *)

Definition Qltb (x y : Q) : bool := negb (Qle_bool y x).

(** [Math.max(0, Math.min(1, x))] *)
Definition clamp01 (x : Q) : Q := Qmax 0 (Qmin 1 x).

Fixpoint Qsum (xs : list Q) : Q :=
  match xs with
  | [] => 0%Q
  | x :: xs' => (x + Qsum xs')%Q
  end.

Definition ofNat (n : nat) : Q := inject_Z (Z.of_nat n).

(** ** Exceptions *)

(** A thrown JavaScript value, as far as the catch blocks look at it. *)
Record JsError : Type := mkError {
  status : option nat;
  errCode : option text;
  errMessage : text
}.

Inductive Exc (A : Type) : Type :=
| Ok : A -> Exc A
| Throw : JsError -> Exc A.
Arguments Ok {A} _.
Arguments Throw {A} _.

(** ** Data of the collaborators *)

Record Fulfillment : Type := mkFulfillment {
  trackingCompany : option text;
  trackingNumbers : list text;
  estimatedDeliveryAt : option text
}.

Record LineItem : Type := mkItem {
  quantity : nat;
  title : text
}.

Record Address : Type := mkAddress {
  city : text;
  province : text;
  country : text
}.

Record ShopifyOrder : Type := mkOrder {
  orderNumber : text;
  processedAt : text;
  fulfillmentStatus : text;
  financialStatus : text;
  totalPrice : text;
  shippingAddress : Address;
  items : list LineItem;
  fulfillments : list Fulfillment
}.

Record SimilarResponse : Type := mkSimilar {
  simQuery : text;
  simResponse : text;
  similarity : Q;
  simCategory : text
}.

(** What [chat.completions.create] resolves to: [choices[0]?.message?.content]
    and [usage?.total_tokens]. *)
Record Completion : Type := mkCompletion {
  content : option text;
  total_tokens : option nat
}.

Record GenerateParams : Type := mkParams {
  customerQuery : text;
  customerEmail : text;
  customerName : option text;
  orderData : option (list ShopifyOrder);
  similarResponses : option (list SimilarResponse);
  category : option text;
  context : option text
}.

Record AIGeneratedResponse : Type := mkResponse {
  response : text;
  confidence : Q;
  reasoning : text;
  shouldEscalate : bool;
  promptUsed : text;
  modelUsed : text;
  tokensUsed : nat
}.

Record ValidationResult : Type := mkValidation {
  isValid : bool;
  issues : list text;
  warnings : list text;
  score : Q
}.

(** The collaborators of [AIResponseService]: the generation provider and the
    locale-dependent formatting of the runtime. *)
Record Runtime : Type := mkRuntime {
  chatCompletion : text -> text -> Exc Completion;
  toLocaleDateString : text -> text;
  toFixed1 : Q -> text
}.

(** [orderData && orderData.length > 0] *)
Definition hasOrders (o : option (list ShopifyOrder)) : bool :=
  match o with
  | Some (_ :: _) => true
  | _ => false
  end.

Definition hasSimilar (o : option (list SimilarResponse)) : bool :=
  match o with
  | Some (_ :: _) => true
  | _ => false
  end.

Definition listOf {A : Type} (o : option (list A)) : list A :=
  match o with
  | Some l => l
  | None => []
  end.

(** A possibly absent value inside a template literal. *)
Definition render (o : option text) : text :=
  match o with
  | Some s => s
  | None => T "undefined"
  end.

(** [a || b] on strings *)
Definition orElse (o : option text) (d : text) : text :=
  if truthy o then render o else d.

(** ** AIResponseService: intent analysis *)

Inductive Intent : Type :=
| order_status | shipping_tracking | return_refund
| product_inquiry | complaint_issue | general_inquiry.

Definition intentName (i : Intent) : text :=
  match i with
  | order_status => T "order_status"
  | shipping_tracking => T "shipping_tracking"
  | return_refund => T "return_refund"
  | product_inquiry => T "product_inquiry"
  | complaint_issue => T "complaint_issue"
  | general_inquiry => T "general_inquiry"
  end.

Inductive Urgency : Type := low | medium | high.

Record QueryAnalysis : Type := mkAnalysis {
  intent : Intent;
  keywords : list text;
  extractedOrder : option text;
  urgency : Urgency;
  requiresEscalation : bool
}.

Definition isOrderNumberChar (c : ascii) : bool :=
  isUpperAZ c || isLowerAZ c || isDigit c || eqChar "-"%char c.

(** [/(?:order|#)\s*([A-Z0-9-]+)/i] *)
Definition reOrderMatch : regex :=
  Seq (Alt (lit true (T "order")) (Chr (eqChar "#"%char)))
      (Seq (Star isSpace) (Cap (Plus isOrderNumberChar))).

Definition statusWords : list text :=
  [T "status"; T "where"; T "when"; T "delivered"; T "arrive"; T "shipped";
   T "shipping"; T "delivery"; T "tracking"; T "track"].

Definition trackWords : list text := [T "track"; T "tracking"; T "number"].

Definition returnWords : list text :=
  [T "return"; T "refund"; T "exchange"; T "cancel"; T "defective";
   T "wrong"; T "broken"; T "damaged"].

Definition productWords : list text :=
  [T "blue light"; T "prescription"; T "lens"; T "frame"; T "size"; T "fit";
   T "color"; T "style"; T "recommend"].

Definition complaintWords : list text :=
  [T "problem"; T "issue"; T "complaint"; T "disappointed"; T "unhappy";
   T "terrible"; T "awful"; T "angry"; T "frustrated"].

Definition urgencyWords : list text :=
  [T "urgent"; T "asap"; T "immediately"; T "emergency"; T "help";
   T "please help"].

Definition analyzeCustomerQuery (query : text) : QueryAnalysis :=
  let lowerQuery := toLowerCase query in
  let keywords := [] in
  let intent := general_inquiry in
  let urgency := medium in
  let requiresEscalation := false in
  (* Extract order number if present *)
  let orderNumber := group1 reOrderMatch query in
  (* Order status related keywords *)
  let '(keywords, intent) :=
    if test (wordAlt statusWords) lowerQuery then
      (keywords ++ [T "status"; T "shipping"],
       if test (wordAlt trackWords) lowerQuery then shipping_tracking
       else order_status)
    else (keywords, intent) in
  (* Return and refund keywords *)
  let '(keywords, intent, requiresEscalation) :=
    if test (wordAlt returnWords) lowerQuery then
      (keywords ++ [T "return"; T "refund"], return_refund, true)
    else (keywords, intent, requiresEscalation) in
  (* Product inquiry keywords *)
  let '(keywords, intent) :=
    if test (wordAlt productWords) lowerQuery then
      (keywords ++ [T "product"], product_inquiry)
    else (keywords, intent) in
  (* Complaint/issue keywords *)
  let '(keywords, intent, urgency, requiresEscalation) :=
    if test (wordAlt complaintWords) lowerQuery then
      (keywords ++ [T "complaint"], complaint_issue, high, true)
    else (keywords, intent, urgency, requiresEscalation) in
  (* Urgency indicators *)
  let '(urgency, requiresEscalation) :=
    if test (wordAlt urgencyWords) lowerQuery then (high, true)
    else (urgency, requiresEscalation) in
  mkAnalysis intent keywords orderNumber urgency requiresEscalation.

(** ** AIResponseService: the template composer *)

(** [customerName ? ` ${customerName}` : ''] *)
Definition nameSuffix (customerName : option text) : text :=
  if truthy customerName then T " " ++ render customerName else [].

Definition getOrderStatusDetails (order : ShopifyOrder) : text :=
  if eqText (fulfillmentStatus order) (T "shipped") then
    T "Your order has been shipped and is on its way to you!"
  else if eqText (fulfillmentStatus order) (T "delivered") then
    T "Your order has been delivered."
  else if eqText (fulfillmentStatus order) (T "pending") then
    T "Your order is being prepared and will ship soon."
  else if eqText (fulfillmentStatus order) (T "processing") then
    T "Your order is currently being processed."
  else T "Your order is being handled by our team.".

Definition generateOrderStatusResponse (customerName : option text)
    (query : text) (orderData : option (list ShopifyOrder))
    (analysis : QueryAnalysis) : text :=
  let name := nameSuffix customerName in
  match orderData with
  | Some (order :: _) =>
      T "Hi" ++ name ++ T ", thank you for your inquiry about your order. I can see you have order #"
      ++ orderNumber order ++ T " with a " ++ fulfillmentStatus order ++ T " status. "
      ++ getOrderStatusDetails order
      ++ T " Our team will provide you with any additional updates you need. If you have any other questions, please let us know!"
  | _ =>
      if truthy (extractedOrder analysis) then
        T "Hi" ++ name ++ T ", thank you for asking about order #"
        ++ render (extractedOrder analysis)
        ++ T ". I'm looking up the details for this order and will get back to you within 30 minutes with a complete status update. If this is urgent, please call our customer service line at your convenience."
      else
        T "Hi" ++ name ++ T ", thank you for your order status inquiry. To provide you with accurate information, I'll need to look up your order details. Could you please provide your order number? Alternatively, our customer service team can help you immediately by phone."
  end.

Definition generateShippingResponse (rt : Runtime) (customerName : option text)
    (query : text) (orderData : option (list ShopifyOrder))
    (analysis : QueryAnalysis) : text :=
  let name := nameSuffix customerName in
  match orderData with
  | Some (order :: _) =>
      match fulfillments order with
      | fulfillment :: _ =>
          let tracking := nth_error (trackingNumbers fulfillment) 0 in
          T "Hi" ++ name ++ T ", your order #" ++ orderNumber order ++ T " has shipped! "
          ++ (if truthy tracking then
                T "Your tracking number is " ++ render tracking ++ T " with "
                ++ render (trackingCompany fulfillment) ++ T "."
              else T "You should receive tracking information shortly.")
          ++ T " "
          ++ (if truthy (estimatedDeliveryAt fulfillment) then
                T "Expected delivery: "
                ++ toLocaleDateString rt (render (estimatedDeliveryAt fulfillment))
                ++ T "."
              else [])
          ++ T " You can track your package directly on the carrier's website."
      | [] =>
          T "Hi" ++ name ++ T ", your order #" ++ orderNumber order
          ++ T " is currently being prepared for shipment. You'll receive tracking information as soon as it ships, typically within 1-2 business days. Thank you for your patience!"
      end
  | _ =>
      T "Hi" ++ name ++ T ", I'd be happy to help you track your order! Could you please provide your order number so I can give you the most up-to-date tracking information? Our customer service team is also available to assist you immediately."
  end.

Definition generateReturnRefundResponse (customerName : option text)
    (query : text) (orderData : option (list ShopifyOrder))
    (analysis : QueryAnalysis) : text :=
  let name := nameSuffix customerName in
  T "Hi" ++ name ++ T ", I understand you'd like to discuss a return or refund. We offer a 30-day return policy and want to make this process as easy as possible for you. Our customer service team will review your specific situation and provide you with return instructions and a prepaid shipping label if needed. You'll hear back from us within 2 hours, or feel free to call our customer service line for immediate assistance.".

Definition generateProductInquiryResponse (customerName : option text)
    (query : text) (orderData : option (list ShopifyOrder))
    (analysis : QueryAnalysis) : text :=
  let name := nameSuffix customerName in
  let productSpecific :=
    if includes (toLowerCase query) (T "blue light") then
      T " Our blue light glasses filter 90% of harmful blue light and can significantly reduce eye strain from digital screens."
    else if includes (toLowerCase query) (T "prescription") then
      T " We work with licensed opticians to ensure your prescription is perfectly crafted for your new frames."
    else [] in
  T "Hi" ++ name ++ T ", thank you for your interest in our eyewear products!"
  ++ productSpecific
  ++ T " Our customer service team will provide you with detailed information to help you make the best choice for your needs. You'll receive a comprehensive response within 2-4 hours, or call us for immediate assistance with product selection.".

Definition generateComplaintResponse (customerName : option text)
    (query : text) (orderData : option (list ShopifyOrder))
    (analysis : QueryAnalysis) : text :=
  let name := nameSuffix customerName in
  T "Hi" ++ name ++ T ", I sincerely apologize for any inconvenience you've experienced. Your concern is very important to us, and I want to make sure we resolve this properly. A senior customer service representative will personally review your case and contact you within 1 hour to discuss how we can make this right. If you prefer immediate assistance, please call our customer service line and mention this is a priority case.".

Definition generateGeneralResponse (customerName : option text)
    (query : text) (orderData : option (list ShopifyOrder))
    (analysis : QueryAnalysis) : text :=
  let name := nameSuffix customerName in
  let lowerQuery := toLowerCase query in
  if includes lowerQuery (T "hours") || includes lowerQuery (T "open")
     || includes lowerQuery (T "when") then
    T "Hi" ++ name ++ T ", thank you for your inquiry! Our customer service team is available Monday-Friday 9 AM to 6 PM EST. You can also reach us anytime through this email system, and we typically respond within a few hours during business days. How can we help you today?"
  else if includes lowerQuery (T "policy") || includes lowerQuery (T "return")
     || includes lowerQuery (T "warranty") then
    T "Hi" ++ name ++ T ", thank you for asking about our policies! We offer a 30-day return policy for all our eyewear products. If you're not completely satisfied, you can return items in original condition for a full refund or exchange. Our customer service team can provide detailed policy information and help with any returns. What specific information do you need?"
  else if includes lowerQuery (T "prescription") || includes lowerQuery (T "glasses")
     || includes lowerQuery (T "lens") then
    T "Hi" ++ name ++ T ", thank you for your interest in our eyewear! We offer both prescription and non-prescription glasses, including blue light blocking lenses. Our team can help you with frame selection, lens options, and prescription requirements. What specific questions do you have about our products?"
  else if includes lowerQuery (T "shipping") || includes lowerQuery (T "delivery")
     || includes lowerQuery (T "cost") then
    T "Hi" ++ name ++ T ", thank you for your shipping inquiry! We offer free standard shipping on orders over $50, with delivery typically taking 5-7 business days. Expedited shipping options are also available. Our team can provide specific shipping details and costs for your location. What would you like to know?"
  else
    T "Hi" ++ name ++ T ", thank you for reaching out! I've received your message regarding "
    ++ dquote
    ++ (if 50 <? length query then substring0 query 50 ++ T "..." else query)
    ++ dquote
    ++ T " and I want to make sure we provide you with the most helpful response. Our customer service team is reviewing your specific question and will get back to you shortly with detailed information. Is there anything urgent I can help you with right now?".

(** ** AIResponseService: the fallback path *)

Definition fallbackBody (rt : Runtime) (params : GenerateParams)
    (queryAnalysis : QueryAnalysis) : text * Q :=
  let name := customerName params in
  let query := customerQuery params in
  let orders := orderData params in
  match intent queryAnalysis with
  | order_status =>
      (generateOrderStatusResponse name query orders queryAnalysis, 0.75%Q)
  | shipping_tracking =>
      (generateShippingResponse rt name query orders queryAnalysis, 0.75%Q)
  | return_refund =>
      (generateReturnRefundResponse name query orders queryAnalysis, 0.7%Q)
  | product_inquiry =>
      (generateProductInquiryResponse name query orders queryAnalysis, 0.65%Q)
  | complaint_issue =>
      (generateComplaintResponse name query orders queryAnalysis, 0.8%Q)
  | general_inquiry =>
      (generateGeneralResponse name query orders queryAnalysis, 0.6%Q)
  end.

Definition generateFallbackResponse (rt : Runtime) (params : GenerateParams)
    (errorType : text) : AIGeneratedResponse :=
  (* Analyze the customer query to determine intent *)
  let queryAnalysis := analyzeCustomerQuery (customerQuery params) in
  (* Generate contextual response based on query analysis *)
  let '(fallbackResponse, confidence) := fallbackBody rt params queryAnalysis in
  let reasoning :=
    T "Intelligent fallback response (" ++ errorType ++ T ") - detected intent: "
    ++ intentName (intent queryAnalysis) ++ T ", keywords: "
    ++ join (T ", ") (keywords queryAnalysis) in
  {| response := fallbackResponse;
     confidence := confidence;
     reasoning := reasoning
                  ++ (if hasOrders (orderData params) then T " with order data" else []);
     shouldEscalate := requiresEscalation queryAnalysis || Qltb confidence 0.7;
     promptUsed := T "Smart fallback analysis - Intent: "
                   ++ intentName (intent queryAnalysis);
     modelUsed := T "intelligent_fallback";
     tokensUsed := 0 |}.

(** ** AIResponseService: the generative path *)

Definition showItem (item : LineItem) : text :=
  showNat (quantity item) ++ T "x " ++ title item.

Definition promptOrder (rt : Runtime) (index : nat) (order : ShopifyOrder) : text :=
  nl ++ T "Order " ++ showNat (index + 1) ++ T ":" ++ nl
  ++ T "- Order Number: " ++ orderNumber order ++ nl
  ++ T "- Status: " ++ fulfillmentStatus order ++ nl
  ++ T "- Financial Status: " ++ financialStatus order ++ nl
  ++ T "- Order Date: " ++ toLocaleDateString rt (processedAt order) ++ nl
  ++ T "- Total: " ++ totalPrice order ++ nl
  ++ T "- Items: " ++ join (T ", ") (map showItem (items order)) ++ nl
  ++ T "- Shipping Address: " ++ city (shippingAddress order) ++ T ", "
  ++ province (shippingAddress order) ++ T ", " ++ country (shippingAddress order) ++ nl
  ++ match fulfillments order with
     | latestFulfillment :: _ =>
         T "- Shipping: " ++ orElse (trackingCompany latestFulfillment) (T "Standard Shipping")
         ++ match trackingNumbers latestFulfillment with
            | tracking :: _ => T " (Tracking: " ++ tracking ++ T ")"
            | [] => []
            end
         ++ (if truthy (estimatedDeliveryAt latestFulfillment) then
               T " - ETA: "
               ++ toLocaleDateString rt (render (estimatedDeliveryAt latestFulfillment))
             else [])
         ++ nl
     | [] => []
     end.

Definition promptReference (rt : Runtime) (index : nat) (r : SimilarResponse) : text :=
  nl ++ T "Reference " ++ showNat (index + 1) ++ T " (Similarity: "
  ++ toFixed1 rt (similarity r * 100)%Q ++ T "%):" ++ nl
  ++ T "Query: " ++ dquote ++ simQuery r ++ dquote ++ nl
  ++ T "Response: " ++ dquote ++ simResponse r ++ dquote ++ nl.

(** [xs.forEach((x, index) => { prompt += f(index, x) })] *)
Fixpoint forEachIndexed {A : Type} (f : nat -> A -> text) (index : nat)
    (xs : list A) : text :=
  match xs with
  | [] => []
  | x :: xs' => f index x ++ forEachIndexed f (S index) xs'
  end.

Definition promptInstructions : text :=
  nl ++ T "Instructions:" ++ nl
  ++ T "1. Write a helpful, polite, and professional response to the customer" ++ nl
  ++ T "2. Use the order information to provide specific details when relevant" ++ nl
  ++ T "3. Reference similar past responses for tone and style, but personalize for this specific situation" ++ nl
  ++ T "4. If order information is available, include specific tracking details, delivery estimates, etc." ++ nl
  ++ T "5. If no order information is found but the customer mentions an order, acknowledge this and offer to help find their order" ++ nl
  ++ T "6. Keep the response concise but complete (2-4 sentences typically)" ++ nl
  ++ T "7. End with a helpful next step or offer of additional assistance" ++ nl
  ++ T "8. Use a warm, human-like tone that reflects our premium eyewear brand" ++ nl
  ++ nl
  ++ T "Generate only the response text (no additional formatting or explanations):".

Definition buildPrompt (rt : Runtime) (params : GenerateParams) : text :=
  let prompt :=
    nl ++ T "Customer Support Query Analysis:" ++ nl ++ nl
    ++ T "Customer: " ++ orElse (customerName params) (customerEmail params) ++ nl
    ++ T "Email: " ++ customerEmail params ++ nl
    ++ T "Query Category: " ++ orElse (category params) (T "Unknown") ++ nl ++ nl
    ++ T "Customer Message:" ++ nl
    ++ dquote ++ customerQuery params ++ dquote ++ nl in
  let prompt :=
    if truthy (context params) then
      prompt ++ nl ++ T "Additional Context:" ++ nl ++ render (context params) ++ nl
    else prompt in
  let prompt :=
    if hasOrders (orderData params) then
      prompt ++ nl ++ T "Customer Order Information:" ++ nl
      ++ forEachIndexed (promptOrder rt) 0 (firstn 3 (listOf (orderData params)))
    else prompt ++ nl ++ T "No order information found for this customer." ++ nl in
  let prompt :=
    if hasSimilar (similarResponses params) then
      prompt ++ nl ++ T "Similar Past Responses (for reference):" ++ nl
      ++ forEachIndexed (promptReference rt) 0 (firstn 3 (listOf (similarResponses params)))
    else prompt in
  prompt ++ promptInstructions.

Definition getSystemPrompt : text :=
  join nl
    [T "You are a customer support specialist for a premium eyewear e-commerce brand. Your role is to provide helpful, accurate, and empathetic responses to customer inquiries.";
     [];
     T "Brand Guidelines:";
     T "- We are a premium eyewear brand that values quality and customer satisfaction";
     T "- Our tone is professional yet warm and friendly";
     T "- We offer excellent customer service including 30-day returns, free exchanges, and prompt replacement for damaged items";
     T "- Common shipping carriers: FedEx, UPS, USPS, DHL";
     T "- Standard processing time: 1-3 business days";
     T "- Standard shipping time: 3-7 business days";
     T "- We provide tracking information once orders ship";
     [];
     T "Key Principles:";
     T "1. Always be empathetic and understanding";
     T "2. Provide specific, actionable information when possible";
     T "3. Take ownership of issues and offer solutions";
     T "4. Be proactive in offering additional help";
     T "5. Maintain a premium brand image while being approachable";
     T "6. Never make promises about timeframes without order data";
     T "7. Always acknowledge the customer's concern before providing information";
     [];
     T "Response Style:";
     T "- Start with empathy/acknowledgment";
     T "- Provide specific information from order data";
     T "- Offer clear next steps";
     T "- End with additional assistance offer";
     T "- Keep responses concise but complete"].

(** [/tracking|order.*#\d+|delivery|shipping/i] *)
Definition reSpecificDetails : regex :=
  alts [lit true (T "tracking");
        Seq (lit true (T "order"))
            (Seq (Star isDot) (Seq (Chr (eqChar "#"%char)) (Plus isDigit)));
        lit true (T "delivery");
        lit true (T "shipping")].

(** [similarResponses.reduce((sum, r) => sum + r.similarity, 0) / similarResponses.length] *)
Definition avgSimilarityOf (rs : list SimilarResponse) : Q :=
  (fold_left (fun sum r => sum + similarity r) rs 0 / ofNat (length rs))%Q.

Definition calculateConfidence (response : text)
    (orderData : option (list ShopifyOrder))
    (similarResponses : option (list SimilarResponse)) : Q :=
  let confidence := 0.5%Q in (* Base confidence *)
  (* Increase confidence if we have order data *)
  let confidence :=
    if hasOrders orderData then (confidence + 0.3)%Q else confidence in
  (* Increase confidence if we have similar responses *)
  let confidence :=
    if hasSimilar similarResponses then
      let avgSimilarity := avgSimilarityOf (listOf similarResponses) in
      (confidence + avgSimilarity * 0.2)%Q
    else confidence in
  (* Decrease confidence if response is too short or generic *)
  let confidence :=
    if length response <? 50 then (confidence - 0.2)%Q else confidence in
  (* Decrease confidence if response contains placeholders *)
  let confidence :=
    if includes response (T "[") || includes response (T "{{")
       || includes response (T "PLACEHOLDER")
    then (confidence - 0.3)%Q else confidence in
  (* Increase confidence if response mentions specific details *)
  let confidence :=
    if test reSpecificDetails response then (confidence + 0.1)%Q else confidence in
  clamp01 confidence.

Definition extractReasoning (rt : Runtime) (response : text)
    (orderData : option (list ShopifyOrder))
    (similarResponses : option (list SimilarResponse)) : text :=
  let reasons := [] in
  let reasons :=
    if hasOrders orderData then
      reasons ++ [T "Found " ++ showNat (length (listOf orderData)) ++ T " order(s) for customer"]
    else reasons ++ [T "No order data available"] in
  let reasons :=
    if hasSimilar similarResponses then
      let avgSimilarity := avgSimilarityOf (listOf similarResponses) in
      reasons ++ [showNat (length (listOf similarResponses))
                  ++ T " similar responses found (avg similarity: "
                  ++ toFixed1 rt (avgSimilarity * 100)%Q ++ T "%)"]
    else reasons in
  let reasons :=
    if length response <? 50 then reasons ++ [T "Response may be too brief"]
    else reasons in
  let reasons :=
    if includes response (T "[") || includes response (T "{{") then
      reasons ++ [T "Response contains placeholders"]
    else reasons in
  join (T "; ") reasons.

Definition generateEscalationMessage (customerName : option text) : text :=
  let name := nameSuffix customerName in
  T "Thank you" ++ name ++ T " for reaching out to us. I want to make sure we provide you with the most accurate and helpful information possible. I'm looking into your inquiry and will get back to you within 2-4 hours with a detailed response. If this is urgent, please don't hesitate to call our customer service line. We appreciate your patience and are committed to resolving your question promptly.".

(** ** AIResponseService: the validator *)

(** [/\[.*\]|\{\{.*\}\}|PLACEHOLDER|TODO|XXX/i] *)
Definition rePlaceholder : regex :=
  alts [Seq (Chr (eqChar "["%char)) (Seq (Star isDot) (Chr (eqChar "]"%char)));
        Seq (lit true (T "{{")) (Seq (Star isDot) (lit true (T "}}")));
        lit true (T "PLACEHOLDER");
        lit true (T "TODO");
        lit true (T "XXX")].

(** [/#\d+|order.*\d+/i] *)
Definition reOrderDetails : regex :=
  Alt (Seq (Chr (eqChar "#"%char)) (Plus isDigit))
      (Seq (lit true (T "order")) (Seq (Star isDot) (Plus isDigit))).

Definition professionalWords : list text :=
  [T "thank you"; T "appreciate"; T "help"; T "assist"; T "sorry"; T "apologize"].

Definition validateResponse (response : text) : ValidationResult :=
  let issues := [] in
  let warnings := [] in
  (* Check for minimum length *)
  let issues :=
    if length response <? 30 then issues ++ [T "Response is too short"]
    else issues in
  (* Check for maximum length *)
  let warnings :=
    if 1000 <? length response then warnings ++ [T "Response is quite long"]
    else warnings in
  (* Check for placeholders *)
  let issues :=
    if test rePlaceholder response then
      issues ++ [T "Response contains placeholders or incomplete information"]
    else issues in
  (* Check for professional tone indicators *)
  let hasProffessionalTone :=
    existsb (fun word => includes (toLowerCase response) word) professionalWords in
  let warnings :=
    if negb hasProffessionalTone then
      warnings ++ [T "Response may lack professional courtesy words"]
    else warnings in
  (* Check for specific information when it should be present *)
  let warnings :=
    if includes response (T "your order") && negb (test reOrderDetails response) then
      warnings ++ [T "Response mentions order but lacks specific order details"]
    else warnings in
  {| isValid := length issues =? 0;
     issues := issues;
     warnings := warnings;
     score := Qmax 0 (1 - ofNat (length issues) * 0.3 - ofNat (length warnings) * 0.1) |}.

(** ** AIResponseService: the orchestrator *)

Definition statusIs (error : JsError) (n : nat) : bool :=
  match status error with
  | Some m => m =? n
  | None => false
  end.

Definition codeIs (error : JsError) (c : text) : bool :=
  match errCode error with
  | Some c' => eqText c' c
  | None => false
  end.

(** The [catch] block of [generateResponse]. *)
Definition generateResponseCatch (rt : Runtime) (params : GenerateParams)
    (error : JsError) : Exc AIGeneratedResponse :=
  if statusIs error 429 || codeIs error (T "insufficient_quota")
     || codeIs error (T "rate_limit_exceeded") then
    Ok (generateFallbackResponse rt params (T "rate_limit"))
  else if statusIs error 401 || codeIs error (T "invalid_api_key") then
    Ok (generateFallbackResponse rt params (T "auth_error"))
  else if statusIs error 503 || statusIs error 502
     || codeIs error (T "service_unavailable") then
    Ok (generateFallbackResponse rt params (T "service_unavailable"))
  else if statusIs error 400 || codeIs error (T "invalid_request_error") then
    Ok (generateFallbackResponse rt params (T "invalid_request"))
  else if codeIs error (T "context_length_exceeded") then
    Ok (generateFallbackResponse rt params (T "context_too_long"))
  else if codeIs error (T "ECONNREFUSED") || codeIs error (T "ENOTFOUND")
     || codeIs error (T "ETIMEDOUT") then
    Ok (generateFallbackResponse rt params (T "network_error"))
  else
    Ok (generateFallbackResponse rt params (T "unknown_error")).

(** The [try] block of [generateResponse]. *)
Definition generateResponseTry (rt : Runtime) (params : GenerateParams)
    : Exc AIGeneratedResponse :=
  let prompt := buildPrompt rt params in
  match chatCompletion rt getSystemPrompt prompt with
  | Throw error => Throw error
  | Ok completion =>
      let responseText := orElse (option_map trim (content completion)) [] in
      let confidence :=
        calculateConfidence responseText (orderData params) (similarResponses params) in
      Ok {| response := responseText;
            confidence := confidence;
            reasoning := extractReasoning rt responseText (orderData params)
                           (similarResponses params);
            shouldEscalate := Qltb confidence 0.7;
            promptUsed := prompt;
            modelUsed := T "gpt-4o";
            tokensUsed := match total_tokens completion with
                          | Some n => n
                          | None => 0
                          end |}
  end.

Definition generateResponse (rt : Runtime) (params : GenerateParams)
    : Exc AIGeneratedResponse :=
  match generateResponseTry rt params with
  | Ok r => Ok r
  | Throw error => generateResponseCatch rt params error
  end.

(** ** The older copy of the fallback (src/app/services/ai-response.server.ts)

    This copy of the service differs from the one above only in
    [generateFallbackResponse]: no intent analysis, one of two fixed
    paragraphs, a constant confidence and unconditional escalation. *)
Module Legacy.

Definition fallbackReasoning (errorType : text) : text :=
  if eqText errorType (T "rate_limit") then
    T "AI service rate limited - generated fallback response"
  else if eqText errorType (T "auth_error") then
    T "AI service authentication error - generated fallback response"
  else if eqText errorType (T "service_unavailable") then
    T "AI service temporarily unavailable - generated fallback response"
  else if eqText errorType (T "network_error") then
    T "Network connection issue - generated fallback response"
  else if eqText errorType (T "context_too_long") then
    T "Request too complex for AI - generated fallback response"
  else if eqText errorType (T "invalid_request") then
    T "Invalid AI request format - generated fallback response"
  else T "AI service unavailable - generated fallback response".

Definition generateFallbackResponse (params : GenerateParams)
    (errorType : text) : AIGeneratedResponse :=
  let reasoning := fallbackReasoning errorType in
  let fallbackResponse :=
    match orderData params with
    | Some (latestOrder :: _) =>
        T "Thank you" ++ nameSuffix (customerName params)
        ++ T " for contacting us regarding your inquiry. I can see you have order #"
        ++ orderNumber latestOrder ++ T " with a status of " ++ dquote
        ++ fulfillmentStatus latestOrder ++ dquote
        ++ T ". Our customer service team is currently reviewing your message and will provide you with a detailed response within 2-4 hours. If this is urgent, please call our customer service line. We appreciate your patience and are committed to helping you."
    | _ =>
        T "Thank you" ++ nameSuffix (customerName params)
        ++ T " for reaching out to us. Our customer service team is currently reviewing your inquiry and will get back to you within 2-4 hours with a detailed response. If this is urgent, please don't hesitate to call our customer service line. We appreciate your patience and are committed to resolving your question promptly."
    end in
  {| response := fallbackResponse;
     confidence := 0.6%Q; (* Moderate confidence for fallback *)
     reasoning := reasoning
                  ++ (if hasOrders (orderData params) then T " using available order data"
                      else []);
     shouldEscalate := true; (* Always escalate fallback responses *)
     promptUsed := T "Fallback response - AI service error: " ++ errorType;
     modelUsed := T "fallback";
     tokensUsed := 0 |}.

End Legacy.

(** ** ShopifyOrdersService.extractOrderNumber *)

(** [/#(\d+)/], [/order\s+(?:number\s+)?(\d+)/i], [/order\s+#(\d+)/i],
    [/\b(\d{4,})\b/] *)
Definition orderPatterns : list regex :=
  [Seq (Chr (eqChar "#"%char)) (Cap (Plus isDigit));
   Seq (lit true (T "order"))
       (Seq (Plus isSpace)
            (Seq (Opt (Seq (lit true (T "number")) (Plus isSpace)))
                 (Cap (Plus isDigit))));
   Seq (lit true (T "order"))
       (Seq (Plus isSpace) (Seq (Chr (eqChar "#"%char)) (Cap (Plus isDigit))));
   Seq WordB (Seq (Cap (AtLeast 4 isDigit)) WordB)].

(** [for (const pattern of patterns) { const match = text.match(pattern);
    if (match) return match[1]; } return null;] *)
Fixpoint firstPatternMatch (patterns : list regex) (s : text) : option text :=
  match patterns with
  | [] => None
  | pattern :: patterns' =>
      match exec pattern s with
      | Some st => captured st
      | None => firstPatternMatch patterns' s
      end
  end.

Definition extractOrderNumber (s : text) : option text :=
  firstPatternMatch orderPatterns s.

(** ** The mailbox message and the result of processing it *)

Module GmailEmail.
Record t : Type := mk {
  id : text;
  threadId : text;
  subject : text;
  fromEmail : text;
  fromName : text;
  body : text;
  htmlBody : text;
  receivedAt : nat;
  snippet : text
}.
End GmailEmail.

Module EmailProcessResult.
Record t : Type := mk {
  success : bool;
  escalated : bool;
  message : option text;
  error : option text;
  responseId : option nat;
  confidence : option Q
}.
End EmailProcessResult.

(** ** The database (prisma/migrations/20250720085051_init) *)

Module Db.

Record CustomerEmail : Type := mkCustomerEmail {
  ceId : nat;
  gmailMessageId : text;
  threadId : text;
  subject : text;
  fromEmail : text;
  fromName : text;
  body : text;
  htmlBody : text;
  receivedAt : nat;
  processed : bool;
  ceConversationId : nat
}.

Record Conversation : Type := mkConversation {
  convId : nat;
  customerEmail : text;
  customerName : text;
  shopifyOrderId : option text;
  status : text;
  priority : text;
  updatedAt : nat
}.

(** The JSON text columns [shopifyData] and [ragSources] hold the value that
    the source serialises. *)
Record AIResponse : Type := mkAIResponse {
  respId : nat;
  responseText : text;
  confidence : Q;
  sentViaGmail : bool;
  humanReviewed : bool;
  escalated : bool;
  sentAt : option nat;
  conversationId : nat;
  shopifyData : option (list ShopifyOrder);
  ragSources : option (list SimilarResponse);
  promptUsed : text
}.

End Db.

(** The calls the store keeps track of: a reply asked of the generation
    provider and the two writes to the mailbox. Lookups (orders, similar
    responses, classification) are functions of the services record. *)
Inductive Event : Type :=
| EvCompletion (systemPrompt prompt : text)
| EvSendReply (to subject body threadId : text)
| EvCreateDraft (to subject body threadId : text).

Record World : Type := mkWorld {
  customerEmails : list Db.CustomerEmail;
  conversations : list Db.Conversation;
  aiResponses : list Db.AIResponse;
  nextId : nat;
  trace : list Event
}.

(** ** State and exceptions *)

Definition M (A : Type) : Type := World -> Exc A * World.

Definition ret {A : Type} (a : A) : M A := fun w => (Ok a, w).

Definition bind {A B : Type} (m : M A) (k : A -> M B) : M B :=
  fun w =>
    match m w with
    | (Ok a, w') => k a w'
    | (Throw e, w') => (Throw e, w')
    end.

(** [try { m } catch (error) { h(error) }]: what [m] wrote before it threw
    stays written. *)
Definition tryCatch {A : Type} (m : M A) (h : JsError -> M A) : M A :=
  fun w =>
    match m w with
    | (Ok a, w') => (Ok a, w')
    | (Throw e, w') => h e w'
    end.

Definition liftExc {A : Type} (x : Exc A) : M A := fun w => (x, w).

Definition emit (ev : Event) : M unit :=
  fun w => (Ok tt, mkWorld (customerEmails w) (conversations w) (aiResponses w)
                          (nextId w) (trace w ++ [ev])).

Declare Scope monad_scope.
Delimit Scope monad_scope with monad.
Notation "x <- m ;; k" := (bind m (fun x => k))
  (at level 61, m at next level, right associativity) : monad_scope.
Notation "m ;;; k" := (bind m (fun _ => k))
  (at level 61, right associativity) : monad_scope.
Local Open Scope monad_scope.

Definition prismaError (msg : text) : JsError := mkError None None msg.

(** ** Prisma operations used by [processEmail] *)

Definition customerEmail_findUnique (gmailMessageId : text) : M (option Db.CustomerEmail) :=
  fun w =>
    (Ok (find (fun r => eqText (Db.gmailMessageId r) gmailMessageId) (customerEmails w)), w).

Definition conversation_findFirst (customerEmail : text) : M (option Db.Conversation) :=
  fun w =>
    (Ok (find (fun c => eqText (Db.customerEmail c) customerEmail) (conversations w)), w).

Definition conversation_create (customerEmail customerName status priority : text)
    (now : nat) : M Db.Conversation :=
  fun w =>
    let c := Db.mkConversation (nextId w) customerEmail customerName None
               status priority now in
    (Ok c, mkWorld (customerEmails w) (conversations w ++ [c]) (aiResponses w)
                   (S (nextId w)) (trace w)).

(** [gmailMessageId] carries a unique index: a second row with the same
    value is refused. *)
Definition customerEmail_create (email : GmailEmail.t) (conversationId : nat)
    : M Db.CustomerEmail :=
  fun w =>
    match find (fun r => eqText (Db.gmailMessageId r) (GmailEmail.id email))
               (customerEmails w) with
    | Some _ =>
        (Throw (prismaError (T "Unique constraint failed on the fields: (`gmailMessageId`)")), w)
    | None =>
        let r := Db.mkCustomerEmail (nextId w) (GmailEmail.id email)
                   (GmailEmail.threadId email) (GmailEmail.subject email)
                   (GmailEmail.fromEmail email) (GmailEmail.fromName email)
                   (GmailEmail.body email) (GmailEmail.htmlBody email)
                   (GmailEmail.receivedAt email) false conversationId in
        (Ok r, mkWorld (customerEmails w ++ [r]) (conversations w) (aiResponses w)
                       (S (nextId w)) (trace w))
    end.

(** [update({ where: { id }, data })]: the rows with that id are rewritten;
    no such row is an error. *)
Definition updateRows {A : Type} (key : A -> nat) (id : nat) (f : A -> A)
    (rows : list A) : list A :=
  map (fun r => if key r =? id then f r else r) rows.

Definition hasRow {A : Type} (key : A -> nat) (id : nat) (rows : list A) : bool :=
  existsb (fun r => key r =? id) rows.

Definition notFound : JsError :=
  prismaError (T "An operation failed because it depends on one or more records that were required but not found.").

Definition conversation_update (id : nat) (f : Db.Conversation -> Db.Conversation)
    : M unit :=
  fun w =>
    if hasRow Db.convId id (conversations w) then
      (Ok tt, mkWorld (customerEmails w) (updateRows Db.convId id f (conversations w))
                      (aiResponses w) (nextId w) (trace w))
    else (Throw notFound, w).

Definition customerEmail_update (id : nat) (f : Db.CustomerEmail -> Db.CustomerEmail)
    : M unit :=
  fun w =>
    if hasRow Db.ceId id (customerEmails w) then
      (Ok tt, mkWorld (updateRows Db.ceId id f (customerEmails w)) (conversations w)
                      (aiResponses w) (nextId w) (trace w))
    else (Throw notFound, w).

Definition aIResponse_create (data : nat -> Db.AIResponse) : M Db.AIResponse :=
  fun w =>
    let r := data (nextId w) in
    (Ok r, mkWorld (customerEmails w) (conversations w) (aiResponses w ++ [r])
                   (S (nextId w)) (trace w)).

Definition aIResponse_update (id : nat) (f : Db.AIResponse -> Db.AIResponse) : M unit :=
  fun w =>
    if hasRow Db.respId id (aiResponses w) then
      (Ok tt, mkWorld (customerEmails w) (conversations w)
                      (updateRows Db.respId id f (aiResponses w)) (nextId w) (trace w))
    else (Throw notFound, w).

(** ** The collaborators of [CustomerSupportService] *)

Inductive QueryCategory : Type :=
| ORDER_STATUS | RETURN_REFUND | PRODUCT_ISSUE | TRACKING | GENERAL | OTHER.

Definition categoryName (c : QueryCategory) : text :=
  match c with
  | ORDER_STATUS => T "ORDER_STATUS"
  | RETURN_REFUND => T "RETURN_REFUND"
  | PRODUCT_ISSUE => T "PRODUCT_ISSUE"
  | TRACKING => T "TRACKING"
  | GENERAL => T "GENERAL"
  | OTHER => T "OTHER"
  end.

Record QueryInfo : Type := mkQueryInfo {
  qiOrderNumber : option text;
  qiEmail : option text;
  qiPhone : option text;
  qiProductName : option text;
  qiIssueType : option text
}.

Record Services : Type := mkServices {
  runtime : Runtime;
  (* ShopifyOrdersService *)
  findOrderByNumber : text -> option ShopifyOrder;
  findOrdersByEmail : text -> Exc (list ShopifyOrder);
  (* RAGService *)
  classifyQuery : text -> QueryCategory;
  extractQueryInfo : text -> QueryInfo;
  searchSimilarResponses : text -> nat -> list SimilarResponse;
  (* GmailService: whether the send goes through, the id of the draft *)
  sendReplyOutcome : text -> text -> text -> text -> bool;
  createDraftOutcome : text -> text -> text -> text -> option text;
  (* new Date() *)
  now : nat
}.

Definition gmail_sendReply (sv : Services) (to subject body threadId : text) : M bool :=
  emit (EvSendReply to subject body threadId) ;;;
  ret (sendReplyOutcome sv to subject body threadId).

Definition gmail_createDraft (sv : Services) (to subject body threadId : text)
    : M (option text) :=
  emit (EvCreateDraft to subject body threadId) ;;;
  ret (createDraftOutcome sv to subject body threadId).

(** [aiService.generateResponse]: one call to the provider, then the pure
    computation above. *)
Definition ai_generateResponse (sv : Services) (params : GenerateParams)
    : M AIGeneratedResponse :=
  emit (EvCompletion getSystemPrompt (buildPrompt (runtime sv) params)) ;;;
  liftExc (generateResponse (runtime sv) params).

(** ** CustomerSupportService *)

Definition determinePriority (category : QueryCategory) (content : text) : text :=
  let urgentKeywords :=
    [T "urgent"; T "asap"; T "immediately"; T "broken"; T "damaged"; T "wrong";
     T "missing"] in
  let highKeywords :=
    [T "return"; T "refund"; T "complaint"; T "problem"; T "issue"] in
  let lowerContent := toLowerCase content in
  if existsb (fun keyword => includes lowerContent keyword) urgentKeywords then
    T "URGENT"
  else if match category with PRODUCT_ISSUE => true | _ => false end
          || existsb (fun keyword => includes lowerContent keyword) highKeywords then
    T "HIGH"
  else if match category with RETURN_REFUND => true | _ => false end then
    T "HIGH"
  else T "NORMAL".

(** Step 10: [aiResponse.shouldEscalate || !validation.isValid ||
    validation.score < 0.6] *)
Definition escalationDecision (aiResponse : AIGeneratedResponse)
    (validation : ValidationResult) : bool :=
  shouldEscalate aiResponse || negb (isValid validation)
  || Qltb (score validation) 0.6.

(** Step 12: [!shouldEscalate || isIntelligentFallback] *)
Definition sendDirectly (shouldEscalate isIntelligentFallback : bool) : bool :=
  negb shouldEscalate || isIntelligentFallback.

Definition alreadyProcessed : EmailProcessResult.t :=
  EmailProcessResult.mk true false (Some (T "Email already processed")) None None None.

(** The [data] objects of the updates. *)
Definition setShopifyOrderId (orderNumber : option text) (updatedAt : nat)
    (c : Db.Conversation) : Db.Conversation :=
  Db.mkConversation (Db.convId c) (Db.customerEmail c) (Db.customerName c)
    orderNumber (Db.status c) (Db.priority c) updatedAt.

Definition setStatusPriority (status priority : text) (updatedAt : nat)
    (c : Db.Conversation) : Db.Conversation :=
  Db.mkConversation (Db.convId c) (Db.customerEmail c) (Db.customerName c)
    (Db.shopifyOrderId c) status priority updatedAt.

Definition setSent (sentAt : nat) (r : Db.AIResponse) : Db.AIResponse :=
  Db.mkAIResponse (Db.respId r) (Db.responseText r) (Db.confidence r) true
    (Db.humanReviewed r) (Db.escalated r) (Some sentAt) (Db.conversationId r)
    (Db.shopifyData r) (Db.ragSources r) (Db.promptUsed r).

Definition setProcessed (r : Db.CustomerEmail) : Db.CustomerEmail :=
  Db.mkCustomerEmail (Db.ceId r) (Db.gmailMessageId r) (Db.threadId r)
    (Db.subject r) (Db.fromEmail r) (Db.fromName r) (Db.body r) (Db.htmlBody r)
    (Db.receivedAt r) true (Db.ceConversationId r).

(** Step 5: the order lookup, whose failure leaves [orderData] empty. *)
Definition fetchOrderData (sv : Services) (orderNumber : option text)
    (email : GmailEmail.t) : M (list ShopifyOrder) :=
  tryCatch
    (if truthy orderNumber then
       match findOrderByNumber sv (render orderNumber) with
       | Some order => ret [order]
       | None => ret []
       end
     else liftExc (findOrdersByEmail sv (GmailEmail.fromEmail email)))
    (fun _ => ret []).

(** The parameters of the two generation calls of [processEmail]. *)
Definition generationParams (sv : Services) (email : GmailEmail.t)
    (orderData : list ShopifyOrder) (context : option text) : GenerateParams :=
  {| customerQuery := GmailEmail.body email;
     customerEmail := GmailEmail.fromEmail email;
     customerName := Some (GmailEmail.fromName email);
     orderData := Some orderData;
     similarResponses := Some (searchSimilarResponses sv (GmailEmail.body email) 3);
     category := Some (categoryName (classifyQuery sv (GmailEmail.body email)));
     context := context |}.

(** Step 11: the text that is saved and sent, and [isIntelligentFallback]. *)
Definition chooseFinalResponse (sv : Services) (email : GmailEmail.t)
    (orderData : list ShopifyOrder) (aiResponse : AIGeneratedResponse)
    (shouldEscalate : bool) : text * bool :=
  if shouldEscalate then
    (* Use intelligent fallback even for escalations *)
    let intelligentFallback :=
      generateFallbackResponse (runtime sv)
        (generationParams sv email orderData None) (T "escalation") in
    (response intelligentFallback, true)
  else (response aiResponse, false).

Definition newAIResponse (sv : Services) (email : GmailEmail.t)
    (orderData : list ShopifyOrder) (aiResponse : AIGeneratedResponse)
    (shouldEscalate : bool) (finalResponse : text) (conversationId id : nat)
    : Db.AIResponse :=
  let similarResponses := searchSimilarResponses sv (GmailEmail.body email) 3 in
  {| Db.respId := id;
     Db.responseText := finalResponse;
     Db.confidence := confidence aiResponse;
     Db.sentViaGmail := false;
     Db.humanReviewed := shouldEscalate;
     Db.escalated := shouldEscalate;
     Db.sentAt := None;
     Db.conversationId := conversationId;
     Db.shopifyData := if 0 <? length orderData then Some orderData else None;
     Db.ragSources := if 0 <? length similarResponses then Some similarResponses
                      else None;
     Db.promptUsed := promptUsed aiResponse |}.

Definition processedResult (shouldEscalate : bool) (responseId : nat)
    (confidence : Q) : EmailProcessResult.t :=
  {| EmailProcessResult.success := true;
     EmailProcessResult.escalated := shouldEscalate;
     EmailProcessResult.message :=
       Some (if shouldEscalate then T "Email escalated for human review"
             else T "Automated response sent successfully");
     EmailProcessResult.error := None;
     EmailProcessResult.responseId := Some responseId;
     EmailProcessResult.confidence := Some confidence |}.

(** The [try] block of [processEmail]. *)
Definition processEmailTry (sv : Services) (email : GmailEmail.t)
    : M EmailProcessResult.t :=
  (* 1. Check if email already exists in database *)
  existingEmail <- customerEmail_findUnique (GmailEmail.id email) ;;
  match existingEmail with
  | Some _ => ret alreadyProcessed
  | None =>
  (* 2. Find or create conversation *)
  found <- conversation_findFirst (GmailEmail.fromEmail email) ;;
  conversation <-
    match found with
    | Some c => ret c
    | None =>
        conversation_create (GmailEmail.fromEmail email) (GmailEmail.fromName email)
          (T "ACTIVE") (T "NORMAL") (now sv)
    end ;;
  (* 3. Save email to database *)
  savedEmail <- customerEmail_create email (Db.convId conversation) ;;
  (* 4. Extract order number if mentioned *)
  let orderNumber := extractOrderNumber (GmailEmail.body email) in
  (if truthy orderNumber && negb (truthy (Db.shopifyOrderId conversation)) then
     conversation_update (Db.convId conversation)
       (setShopifyOrderId orderNumber (now sv))
   else ret tt) ;;;
  (* 5. Get order data from Shopify *)
  orderData <- fetchOrderData sv orderNumber email ;;
  (* 6. Classify query and extract information *)
  let category := classifyQuery sv (GmailEmail.body email) in
  let queryInfo := extractQueryInfo sv (GmailEmail.body email) in
  (* 7. Search for similar responses: inside [generationParams] *)
  (* 8. Generate AI response *)
  aiResponse <-
    ai_generateResponse sv
      (generationParams sv email orderData
         (Some (T "Subject: " ++ GmailEmail.subject email))) ;;
  (* 9. Validate response quality *)
  let validation := validateResponse (response aiResponse) in
  (* 10. Determine if response should be escalated *)
  let shouldEscalate := escalationDecision aiResponse validation in
  (* 11. Save AI response to database *)
  let '(finalResponse, isIntelligentFallback) :=
    chooseFinalResponse sv email orderData aiResponse shouldEscalate in
  savedResponse <-
    aIResponse_create
      (newAIResponse sv email orderData aiResponse shouldEscalate finalResponse
         (Db.convId conversation)) ;;
  (* 12. Send response via Gmail (or create draft if escalated) *)
  let shouldSendDirectly := sendDirectly shouldEscalate isIntelligentFallback in
  (if shouldSendDirectly then
     (* Send automated response (including intelligent fallback responses) *)
     emailSent <-
       gmail_sendReply sv (GmailEmail.fromEmail email)
         (T "Re: " ++ GmailEmail.subject email) (Db.responseText savedResponse)
         (GmailEmail.threadId email) ;;
     if emailSent then aIResponse_update (Db.respId savedResponse) (setSent (now sv))
     else ret tt
   else
     (* Create draft for human review (only for genuine escalations) *)
     draftId <-
       gmail_createDraft sv (GmailEmail.fromEmail email)
         (T "Re: " ++ GmailEmail.subject email) (Db.responseText savedResponse)
         (GmailEmail.threadId email) ;;
     ret tt) ;;;
  (* 13. Update conversation status *)
  conversation_update (Db.convId conversation)
    (setStatusPriority (if shouldEscalate then T "ESCALATED" else T "ACTIVE")
       (determinePriority category (GmailEmail.body email)) (now sv)) ;;;
  (* 14. Mark email as processed *)
  customerEmail_update (Db.ceId savedEmail) setProcessed ;;;
  ret (processedResult shouldEscalate (Db.respId savedResponse) (confidence aiResponse))
  end.

Definition processEmail (sv : Services) (email : GmailEmail.t)
    : M EmailProcessResult.t :=
  tryCatch (processEmailTry sv email)
    (fun error =>
       ret {| EmailProcessResult.success := false;
              EmailProcessResult.escalated := false;
              EmailProcessResult.message := None;
              EmailProcessResult.error := Some (errMessage error);
              EmailProcessResult.responseId := None;
              EmailProcessResult.confidence := None |}).

(** ** Properties of the store *)

(** A saved reply passed review: the validator accepts its text with a score
    of at least 0.6 and its confidence reaches the threshold 0.7. *)
Definition passedReview (row : Db.AIResponse) : Prop :=
  let v := validateResponse (Db.responseText row) in
  isValid v = true /\ (0.6 <= score v)%Q /\ (0.7 <= Db.confidence row)%Q.

Definition escalationInvariant (w : World) : Prop :=
  forall row, In row (aiResponses w) -> Db.escalated row = false -> passedReview row.

Definition persisted (gmailMessageId : text) (w : World) : bool :=
  match find (fun r => eqText (Db.gmailMessageId r) gmailMessageId) (customerEmails w) with
  | Some _ => true
  | None => false
  end.

(** [m], started in a state of [P], returns normally into a state of [Q]. *)
Definition triple {A : Type} (P : World -> Prop) (m : M A)
    (Q : A -> World -> Prop) : Prop :=
  forall w, P w -> exists a w', m w = (Ok a, w') /\ Q a w'.

(** ** What a regular expression denotes

    [Lang r b w a]: [r] matches the word [w] when the code unit before it is
    [b] and the input after it is [a] (both are looked at by [\b] only). *)

Fixpoint lastOf (b : option ascii) (w : text) : option ascii :=
  match w with
  | [] => b
  | c :: w' => lastOf (Some c) w'
  end.

Inductive Lang : regex -> option ascii -> text -> text -> Prop :=
| L_Eps : forall b a, Lang Eps b [] a
| L_Chr : forall (p : ascii -> bool) c b a, p c = true -> Lang (Chr p) b [c] a
| L_Seq : forall r1 r2 b w1 w2 a,
    Lang r1 b w1 (w2 ++ a) -> Lang r2 (lastOf b w1) w2 a ->
    Lang (Seq r1 r2) b (w1 ++ w2) a
| L_AltL : forall r1 r2 b w a, Lang r1 b w a -> Lang (Alt r1 r2) b w a
| L_AltR : forall r1 r2 b w a, Lang r2 b w a -> Lang (Alt r1 r2) b w a
| L_Star : forall (p : ascii -> bool) b w a,
    forallb p w = true -> Lang (Star p) b w a
| L_WordB : forall b a, atBoundary b a = true -> Lang WordB b [] a
| L_Cap : forall r b w a, Lang r b w a -> Lang (Cap r) b w a.

(** [r] matches somewhere in [s]. *)
Definition Matches (r : regex) (s : text) : Prop :=
  exists pre w post, s = pre ++ w ++ post /\ Lang r (lastOf None pre) w post.

(** [w] stands in [s] between two word boundaries. *)
Definition occursAsWord (w s : text) : Prop :=
  exists pre post,
    s = pre ++ w ++ post
    /\ atBoundary (lastOf None pre) (w ++ post) = true
    /\ atBoundary (lastOf (lastOf None pre) w) post = true.

(** [u] is [w] up to the case of the letters A-Z. *)
Definition sameLetters (w u : text) : Prop :=
  Forall2 (fun x y => eqCharCI x y = true) w u.

(** [w] occurs in [s], in any case. *)
Definition occursCI (w s : text) : Prop :=
  exists pre u post, s = pre ++ u ++ post /\ sameLetters w u.

(** [s] holds a run of at least [n] digits between two word boundaries. *)
Definition hasStandaloneNumber (n : nat) (s : text) : Prop :=
  exists pre d post,
    s = pre ++ d ++ post
    /\ n <= length d /\ forallb isDigit d = true
    /\ atBoundary (lastOf None pre) (d ++ post) = true
    /\ atBoundary (lastOf (lastOf None pre) d) post = true.

(** Every capture group of [r] encloses a pattern whose matches satisfy [P]. *)
Fixpoint capturesOnly (P : text -> Prop) (r : regex) : Prop :=
  match r with
  | Seq r1 r2 | Alt r1 r2 => capturesOnly P r1 /\ capturesOnly P r2
  | Cap r1 => (forall b w a, Lang r1 b w a -> P w) /\ capturesOnly P r1
  | _ => True
  end.

(** A run of one or more digits. *)
Definition isNumber (n : text) : Prop := n <> [] /\ forallb isDigit n = true.

(** ** The specification's wording of the scorer and the validator *)

Definition bonus (b : bool) (x : Q) : Q := if b then x else 0%Q.

Definition mean (xs : list Q) : Q := (Qsum xs / ofNat (length xs))%Q.

Definition nonEmpty {A : Type} (xs : list A) : bool :=
  match xs with
  | [] => false
  | _ :: _ => true
  end.

(** Start at 0.5; +0.3 with order data; + mean similarity x 0.2 with
    evidence; -0.2 under 50 characters; -0.3 with a placeholder marker;
    +0.1 on a tracking/order-number/delivery/shipping pattern; clamped. *)
Definition specScore (s : text) (hasOrderData : bool) (evidence : list Q) : Q :=
  clamp01
    (0.5 + bonus hasOrderData 0.3
     + bonus (nonEmpty evidence) (mean evidence * 0.2)
     - bonus (length s <? 50) 0.2
     - bonus (includes s (T "[") || includes s (T "{{")
              || includes s (T "PLACEHOLDER")) 0.3
     + bonus (test reSpecificDetails s) 0.1)%Q.

(** [opening], then anything on the same line, then [closing]. *)
Definition bracketed (opening closing s : text) : Prop :=
  exists pre mid post,
    s = pre ++ opening ++ mid ++ closing ++ post /\ forallb isDot mid = true.

(** A placeholder marker: [...], {{...}}, PLACEHOLDER, TODO or XXX. *)
Definition hasPlaceholderMarker (s : text) : Prop :=
  bracketed (T "[") (T "]") s
  \/ bracketed (T "{{") (T "}}") s
  \/ occursCI (T "PLACEHOLDER") s
  \/ occursCI (T "TODO") s
  \/ occursCI (T "XXX") s.

(** The hard issues and the warnings of the validator, one test each. *)
Definition tooShort (s : text) : bool := length s <? 30.
Definition tooLong (s : text) : bool := 1000 <? length s.
Definition lacksCourtesy (s : text) : bool :=
  negb (existsb (fun word => includes (toLowerCase s) word) professionalWords).
Definition vagueOrder (s : text) : bool :=
  includes s (T "your order") && negb (test reOrderDetails s).

Definition count (b : bool) : nat := if b then 1 else 0.

(** The strategy-specific base confidence of the fallback. *)
Definition baseConfidence (i : Intent) : Q :=
  match i with
  | order_status | shipping_tracking => 0.75%Q
  | return_refund => 0.7%Q
  | product_inquiry => 0.65%Q
  | complaint_issue => 0.8%Q
  | general_inquiry => 0.6%Q
  end.

(** The failure taxonomy, as the [errorType] the catch block passes on. *)
Definition failureClasses : list text :=
  [T "rate_limit"; T "auth_error"; T "service_unavailable"; T "invalid_request";
   T "context_too_long"; T "network_error"; T "unknown_error"].

Definition failureClass (error : JsError) : text :=
  if statusIs error 429 || codeIs error (T "insufficient_quota")
     || codeIs error (T "rate_limit_exceeded") then T "rate_limit"
  else if statusIs error 401 || codeIs error (T "invalid_api_key") then T "auth_error"
  else if statusIs error 503 || statusIs error 502
     || codeIs error (T "service_unavailable") then T "service_unavailable"
  else if statusIs error 400 || codeIs error (T "invalid_request_error") then
    T "invalid_request"
  else if codeIs error (T "context_length_exceeded") then T "context_too_long"
  else if codeIs error (T "ECONNREFUSED") || codeIs error (T "ENOTFOUND")
     || codeIs error (T "ETIMEDOUT") then T "network_error"
  else T "unknown_error".

(** One thrown value per class. *)
Definition sampleErrors : list JsError :=
  [mkError (Some 429) None []; mkError (Some 401) None [];
   mkError (Some 503) None []; mkError (Some 400) None [];
   mkError None (Some (T "context_length_exceeded")) [];
   mkError None (Some (T "ECONNREFUSED")) [];
   mkError None None []].

(** The part of the store that [processEmail] relies on: the calls made so
    far, the saved emails and replies, and the presence of the conversation
    [cid]. *)
Definition St (t : list Event) (ce : list Db.CustomerEmail)
    (ar : list Db.AIResponse) (cid : nat) (w : World) : Prop :=
  trace w = t /\ customerEmails w = ce /\ aiResponses w = ar
  /\ hasRow Db.convId cid (conversations w) = true.

(** What a run of [processEmail] on a message that is not yet in the store
    leaves behind. *)
Definition Outcome (sv : Services) (email : GmailEmail.t) (w0 : World)
    (res : EmailProcessResult.t) (w' : World) : Prop :=
  exists orderData aiResponse savedEmail cid rid,
    let params :=
      generationParams sv email orderData
        (Some (T "Subject: " ++ GmailEmail.subject email)) in
    let shouldEscalate :=
      escalationDecision aiResponse (validateResponse (response aiResponse)) in
    let finalResponse :=
      fst (chooseFinalResponse sv email orderData aiResponse shouldEscalate) in
    let row :=
      newAIResponse sv email orderData aiResponse shouldEscalate finalResponse cid rid in
    let to := GmailEmail.fromEmail email in
    let subject := T "Re: " ++ GmailEmail.subject email in
    let threadId := GmailEmail.threadId email in
    generateResponse (runtime sv) params = Ok aiResponse
    /\ trace w' = trace w0
                  ++ [EvCompletion getSystemPrompt (buildPrompt (runtime sv) params);
                      EvSendReply to subject finalResponse threadId]
    /\ Db.gmailMessageId savedEmail = GmailEmail.id email
    /\ customerEmails w'
       = updateRows Db.ceId (Db.ceId savedEmail) setProcessed
           (customerEmails w0 ++ [savedEmail])
    /\ aiResponses w'
       = (if sendReplyOutcome sv to subject finalResponse threadId
          then updateRows Db.respId rid (setSent (now sv)) (aiResponses w0 ++ [row])
          else aiResponses w0 ++ [row])
    /\ res = processedResult shouldEscalate rid (confidence aiResponse).

(** The store after a series of runs, each with its own services. *)
Definition processAll (runs : list (Services * GmailEmail.t)) (w : World) : World :=
  fold_left (fun w run => snd (processEmail (fst run) (snd run) w)) runs w.

Definition isDraft (ev : Event) : bool :=
  match ev with
  | EvCreateDraft _ _ _ _ => true
  | _ => false
  end.

(** ** Sample inputs *)

Definition sampleOrderQuery : text := T "My order #BLG-2024-001 hasn't arrived".

Definition sampleOrder : ShopifyOrder :=
  mkOrder (T "1001") (T "2025-07-01") (T "shipped") (T "paid") (T "89.99")
    (mkAddress (T "Austin") (T "TX") (T "USA"))
    [mkItem 1 (T "Blue Light Glasses")]
    [mkFulfillment (Some (T "FedEx")) [T "123"] None].

(** A provider that answers, and one that is out of quota. *)
Definition workingRuntime : Runtime :=
  {| chatCompletion := fun _ _ =>
       Ok (mkCompletion
             (Some (T "Thank you for reaching out! Your order #1001 has shipped and the tracking number is 123 with FedEx."))
             (Some 120));
     toLocaleDateString := fun s => s;
     toFixed1 := fun _ => T "0.0" |}.

Definition quotaError : JsError :=
  mkError (Some 429) (Some (T "insufficient_quota")) (T "You exceeded your current quota").

Definition failingRuntime : Runtime :=
  {| chatCompletion := fun _ _ => Throw quotaError;
     toLocaleDateString := fun s => s;
     toFixed1 := fun _ => T "0.0" |}.

Definition servicesWith (rt : Runtime) : Services :=
  {| runtime := rt;
     findOrderByNumber := fun _ => Some sampleOrder;
     findOrdersByEmail := fun _ => Ok [sampleOrder];
     classifyQuery := fun _ => ORDER_STATUS;
     extractQueryInfo := fun _ => mkQueryInfo None None None None None;
     searchSimilarResponses := fun _ _ => [];
     sendReplyOutcome := fun _ _ _ _ => true;
     createDraftOutcome := fun _ _ _ _ => None;
     now := 0 |}.

Definition sampleEmail : GmailEmail.t :=
  GmailEmail.mk (T "msg-1") (T "thread-1") (T "Where is my order?")
    (T "john@example.com") (T "John") (T "Hi, when will my order arrive?") [] 0 [].

Definition complaintQuery : text :=
  T "It shipped but I am disappointed, this is urgent".

Definition complaintEmail : GmailEmail.t :=
  GmailEmail.mk (T "msg-2") (T "thread-2") (T "Complaint")
    (T "david@example.com") (T "David") complaintQuery [] 1 [].

Definition trackingParams : GenerateParams :=
  {| customerQuery := T "Can you give me tracking for my order?";
     customerEmail := T "sarah@example.com";
     customerName := Some (T "Sarah");
     orderData := Some [sampleOrder];
     similarResponses := None;
     category := None;
     context := None |}.

Definition complaintParams : GenerateParams :=
  {| customerQuery := complaintQuery;
     customerEmail := T "david@example.com";
     customerName := Some (T "David");
     orderData := None;
     similarResponses := None;
     category := None;
     context := None |}.

Definition emptyWorld : World := mkWorld [] [] [] 0 [].

(** The store after [sampleEmail] went through the generative path. *)
Definition sampleStore : World :=
  snd (processEmail (servicesWith workingRuntime) sampleEmail emptyWorld).

Definition shortText : text := T "12345678901234567890".

Definition trackingText : text :=
  T "Thank you for your patience. Your order #1001 is on its way and the tracking number is [TRACKING] with the carrier; we will send you the delivery details by email as soon as they become available now.".

Definition politeText : text :=
  T "Thank you for reaching out! Your order #1001 has shipped and the tracking number is 123 with FedEx.".

(** * The code around the core *)

(** ** GmailService: the unread messages and the outgoing message *)

(** An entry of [response.data.messages]; its [id] may be absent. *)
Record MessageRef : Type := mkRef {
  refId : option text
}.

(** The mailbox as [GmailService] sees it: the listing of unread messages
    (which may fail, and whose [messages] may be absent) and
    [getEmailDetails] (null on any failure). *)
Record Mailbox : Type := mkMailbox {
  listUnread : nat -> Exc (option (list MessageRef));
  getEmailDetails : text -> option GmailEmail.t
}.

(** The loop of [getUnreadEmails]. *)
Fixpoint collectEmails (mb : Mailbox) (messages : list MessageRef)
    : list GmailEmail.t :=
  match messages with
  | [] => []
  | message :: rest =>
      if truthy (refId message) then
        match getEmailDetails mb (render (refId message)) with
        | Some email => email :: collectEmails mb rest
        | None => collectEmails mb rest
        end
      else collectEmails mb rest
  end.

Definition getUnreadEmails (mb : Mailbox) (maxResults : nat)
    : Exc (list GmailEmail.t) :=
  match listUnread mb maxResults with
  | Ok data => Ok (collectEmails mb (listOf data))
  | Throw _ => Throw (mkError None None (T "Failed to fetch unread emails"))
  end.

(** [lines.splice(index, 0, item)] *)
Definition splice0 {A : Type} (index : nat) (item : A) (lines : list A) : list A :=
  firstn index lines ++ [item] ++ skipn index lines.

(** The lines of [createEmailRaw], after the two insertions of a reply. *)
Definition emailLines (to subject body : text) (threadId : option text) : list text :=
  let lines :=
    [T "To: " ++ to;
     T "Subject: " ++ subject;
     T "Content-Type: text/html; charset=UTF-8";
     T "MIME-Version: 1.0";
     [];
     body] in
  if truthy threadId then
    let lines := splice0 3 (T "In-Reply-To: " ++ render threadId) lines in
    splice0 4 (T "References: " ++ render threadId) lines
  else lines.

(** [Buffer.from(s)]: the UTF-8 bytes of code units below 256. *)
Definition utf8Unit (c : ascii) : list nat :=
  if code c <? 128 then [code c]
  else [192 + code c / 64; 128 + code c mod 64].

Definition utf8 (s : text) : list nat := flat_map utf8Unit s.

(** The URL-safe alphabet: A-Z, a-z, 0-9, [-] and [_]. *)
Definition base64urlChar (n : nat) : ascii :=
  if n <? 26 then ascii_of_nat (65 + n)
  else if n <? 52 then ascii_of_nat (97 + (n - 26))
  else if n <? 62 then ascii_of_nat (48 + (n - 52))
  else if n =? 62 then "-"%char
  else "_"%char.

(** [buffer.toString('base64url')]: three bytes to four characters, no
    padding. *)
Fixpoint base64url (bytes : list nat) : text :=
  match bytes with
  | [] => []
  | [a] => [base64urlChar (a / 4); base64urlChar (a mod 4 * 16)]
  | [a; b] =>
      [base64urlChar (a / 4); base64urlChar (a mod 4 * 16 + b / 16);
       base64urlChar (b mod 16 * 4)]
  | a :: b :: c :: rest =>
      base64urlChar (a / 4) :: base64urlChar (a mod 4 * 16 + b / 16)
      :: base64urlChar (b mod 16 * 4 + c / 64) :: base64urlChar (c mod 64)
      :: base64url rest
  end.

(** [lines.join('\n')] *)
Definition emailText (to subject body : text) (threadId : option text) : text :=
  join nl (emailLines to subject body threadId).

Definition createEmailRaw (to subject body : text) (threadId : option text) : text :=
  base64url (utf8 (emailText to subject body threadId)).

(** What a mail reader takes for the body: the text after the first empty
    line. *)
Fixpoint afterBlankLine (s : text) : option text :=
  match s with
  | [] => None
  | c :: s' =>
      if startsWith (nl ++ nl) s then Some (skipn 2 s) else afterBlankLine s'
  end.

Definition isUrlSafe (c : ascii) : bool :=
  isUpperAZ c || isLowerAZ c || isDigit c || eqChar "-"%char c || eqChar "_"%char c.

(** No line feed in [s]. *)
Definition oneLine (s : text) : bool := forallb (fun c => negb (code c =? 10)) s.

(** ** CustomerSupportService.processUnreadEmails *)

Module ProcessedEmailResults.
Record t : Type := mk {
  totalProcessed : nat;
  successful : nat;
  escalated : nat;
  failed : nat;
  errors : list (text * text)
}.
End ProcessedEmailResults.

(** The store together with the calls of [markAsRead], in order. The call
    reports a failure by its result, which the loop does not read. *)
Record Inbox : Type := mkInbox {
  store : World;
  markAsReadCalls : list text
}.

(** The counters after one message went through [processEmail]. *)
Definition countResult (emailId : text) (result : EmailProcessResult.t)
    (results : ProcessedEmailResults.t) : ProcessedEmailResults.t :=
  if EmailProcessResult.success result then
    ProcessedEmailResults.mk
      (ProcessedEmailResults.totalProcessed results)
      (S (ProcessedEmailResults.successful results))
      (if EmailProcessResult.escalated result
       then S (ProcessedEmailResults.escalated results)
       else ProcessedEmailResults.escalated results)
      (ProcessedEmailResults.failed results)
      (ProcessedEmailResults.errors results)
  else
    ProcessedEmailResults.mk
      (ProcessedEmailResults.totalProcessed results)
      (ProcessedEmailResults.successful results)
      (ProcessedEmailResults.escalated results)
      (S (ProcessedEmailResults.failed results))
      (ProcessedEmailResults.errors results
       ++ [(emailId, orElse (EmailProcessResult.error result) (T "Unknown error"))]).

(** The counters after [processEmail] threw. *)
Definition countThrown (emailId : text) (error : JsError)
    (results : ProcessedEmailResults.t) : ProcessedEmailResults.t :=
  ProcessedEmailResults.mk
    (ProcessedEmailResults.totalProcessed results)
    (ProcessedEmailResults.successful results)
    (ProcessedEmailResults.escalated results)
    (S (ProcessedEmailResults.failed results))
    (ProcessedEmailResults.errors results ++ [(emailId, errMessage error)]).

(** [for (const email of unreadEmails) { try { ... } catch (error) { ... } }]:
    a message is marked as read after its result was counted, whatever the
    result, but not when [processEmail] threw. *)
Fixpoint processLoop (sv : Services) (unreadEmails : list GmailEmail.t)
    (results : ProcessedEmailResults.t) (ib : Inbox)
    : ProcessedEmailResults.t * Inbox :=
  match unreadEmails with
  | [] => (results, ib)
  | email :: rest =>
      match processEmail sv email (store ib) with
      | (Ok result, w') =>
          processLoop sv rest (countResult (GmailEmail.id email) result results)
            (mkInbox w' (markAsReadCalls ib ++ [GmailEmail.id email]))
      | (Throw error, w') =>
          processLoop sv rest (countThrown (GmailEmail.id email) error results)
            (mkInbox w' (markAsReadCalls ib))
      end
  end.

Definition processUnreadEmails (sv : Services) (mb : Mailbox) (ib : Inbox)
    : Exc ProcessedEmailResults.t * Inbox :=
  match getUnreadEmails mb 10 with
  | Ok unreadEmails =>
      let results :=
        ProcessedEmailResults.mk (length unreadEmails) 0 0 0 [] in
      let '(results, ib') := processLoop sv unreadEmails results ib in
      (Ok results, ib')
  | Throw _ =>
      (Throw (mkError None None (T "Failed to process unread emails")), ib)
  end.

(** ** The historical responses *)

Module History.

(** [HistoricalResponse] of rag.server *)
Record HistoricalResponse : Type := mkResponse {
  id : text;
  query : text;
  response : text;
  category : text;
  createdAt : text
}.

(** A row of the table [HistoricalResponse]. *)
Record Row : Type := mkRow {
  rowId : text;
  customerQuery : text;
  rowResponse : text;
  rowCategory : option text;
  embedding : option text;
  rowCreatedAt : nat
}.

End History.

(** [historicalResponse.upsert({ where: { id }, create, update })]: a row with
    that id keeps its place and its [createdAt]; without one, a row is
    added. *)
Definition historicalResponse_upsert (dateOf : text -> nat)
    (r : History.HistoricalResponse) (table : list History.Row) : list History.Row :=
  if existsb (fun row => eqText (History.rowId row) (History.id r)) table then
    map (fun row =>
           if eqText (History.rowId row) (History.id r) then
             History.mkRow (History.rowId row) (History.query r) (History.response r)
               (Some (History.category r)) (History.embedding row)
               (History.rowCreatedAt row)
           else row)
        table
  else
    table ++ [History.mkRow (History.id r) (History.query r) (History.response r)
                (Some (History.category r)) None (dateOf (History.createdAt r))].

(** [for (const response of responses) { await upsert(...) }]; [dateOf] is
    [new Date(s)]. *)
Definition loadHistoricalResponsesSimple (dateOf : text -> nat)
    (responses : list History.HistoricalResponse) (table : list History.Row)
    : list History.Row :=
  fold_left (fun table response => historicalResponse_upsert dateOf response table)
    responses table.

(** [RAGService.getSampleHistoricalResponses], at the time [nowIso]. *)
Definition getSampleHistoricalResponses (nowIso : text)
    : list History.HistoricalResponse :=
  [History.mkResponse (T "sample-1")
     (T "Where is my order? I ordered glasses last week.")
     (T "Thank you for contacting us! I can help you track your order. Your glasses order is currently being processed and will be shipped within 2-3 business days. You will receive a tracking email once your order ships. If you have any other questions, please feel free to reach out!")
     (T "ORDER_STATUS") nowIso;
   History.mkResponse (T "sample-2")
     (T "My glasses arrived broken. What should I do?")
     (T "I'm so sorry to hear that your glasses arrived damaged! We want to make this right immediately. Please send us photos of the damage to our support email, and we'll send you a replacement pair right away at no cost. We'll also include a prepaid return label for the damaged glasses.")
     (T "PRODUCT_ISSUE") nowIso;
   History.mkResponse (T "sample-3")
     (T "How can I return my glasses? They don't fit properly.")
     (T "We offer a 30-day return policy for all our eyewear. Since the fit isn't right, we can either help you exchange for a different size or provide a full refund. I'll email you a prepaid return label and detailed instructions. Would you prefer an exchange or refund?")
     (T "RETURN_REFUND") nowIso;
   History.mkResponse (T "sample-4")
     (T "Can you give me the tracking number for my order?")
     (T "I'd be happy to provide your tracking information! Your order was shipped via [Carrier] and your tracking number is [TRACKING_NUMBER]. You can track your package at [TRACKING_URL]. Your estimated delivery date is [DELIVERY_DATE].")
     (T "TRACKING") nowIso;
   History.mkResponse (T "sample-5")
     (T "I love my new glasses! Thank you so much!")
     (T "Thank you so much for the wonderful feedback! We're thrilled that you love your new glasses. Your satisfaction is our top priority, and it means the world to us to hear that we've exceeded your expectations. Enjoy your new eyewear!")
     (T "GENERAL") nowIso].

(** [CustomerSupportService.initialize]: the outcome of the RAG
    initialisation is logged and dropped; the samples are loaded into an
    empty table only. *)
Definition initialize (ragInitialize : Exc unit) (nowIso : text)
    (dateOf : text -> nat) (table : list History.Row) : list History.Row :=
  let existingResponses := length table in
  match ragInitialize with
  | Ok _ | Throw _ =>
      if existingResponses =? 0 then
        loadHistoricalResponsesSimple dateOf (getSampleHistoricalResponses nowIso) table
      else table
  end.

(** ** RAGService.searchSimilarResponses *)

Module Rag.

(** An entry of [results.metadatas[0]]. *)
Record Metadata : Type := mkMetadata {
  id : text;
  category : text;
  query : text;
  response : text;
  created_at : text
}.

(** What [collection.query] resolves to. *)
Record QueryResult : Type := mkQueryResult {
  documents : option (list (list text));
  metadatas : option (list (list (option Metadata)));
  distances : option (list (list Q))
}.

(** [SimilarResponse] of rag.server; a [similarity] that is not a number
    (a missing distance) is [None]. *)
Record Candidate : Type := mkCandidate {
  meta : Metadata;
  candidateSimilarity : option Q
}.

Record SimilarResponse : Type := mkSimilarResponse {
  source : Metadata;
  similarity : Q
}.

End Rag.

Definition typeError (msg : text) : JsError := mkError None None msg.

Module RAGService.

(** The loop over [results.documents[0]], from index [i]: indexing a missing
    [metadatas[0]] or [distances[0]], or reading a field of a missing
    metadata entry, throws. *)
Fixpoint collectCandidates (docs : list text)
    (metadatas0 : option (list (option Rag.Metadata)))
    (distances0 : option (list Q)) (i : nat) : Exc (list Rag.Candidate) :=
  match docs with
  | [] => Ok []
  | _ :: docs' =>
      match metadatas0, distances0 with
      | Some ms, Some ds =>
          match nth_error ms i with
          | Some (Some metadata) =>
              let similarity :=
                option_map (fun distance => 1 - distance)%Q (nth_error ds i) in
              match collectCandidates docs' metadatas0 distances0 (S i) with
              | Ok rest => Ok (Rag.mkCandidate metadata similarity :: rest)
              | Throw e => Throw e
              end
          | _ => Throw (typeError (T "Cannot read properties of undefined (reading 'id')"))
          end
      | _, _ => Throw (typeError (T "Cannot read properties of undefined"))
      end
  end.

(** The [try] block up to the filter. *)
Definition searchCandidates (results : Rag.QueryResult) : Exc (list Rag.Candidate) :=
  match Rag.documents results, Rag.metadatas results, Rag.distances results with
  | Some documents, Some metadatas, Some distances =>
      match nth_error documents 0 with
      | Some docs =>
          collectCandidates docs (nth_error metadatas 0) (nth_error distances 0) 0
      | None =>
          Throw (typeError (T "Cannot read properties of undefined (reading 'length')"))
      end
  | _, _, _ => Ok []
  end.

(** [similarResponses.filter(r => r.similarity > 0.5)] *)
Fixpoint keepSimilar (candidates : list Rag.Candidate) : list Rag.SimilarResponse :=
  match candidates with
  | [] => []
  | c :: rest =>
      match Rag.candidateSimilarity c with
      | Some s =>
          if Qltb 0.5 s then Rag.mkSimilarResponse (Rag.meta c) s :: keepSimilar rest
          else keepSimilar rest
      | None => keepSimilar rest
      end
  end.

(** [query] is the outcome of getting the collection and querying it; every
    failure gives the empty list. *)
Definition searchSimilarResponses (query : text -> nat -> Exc Rag.QueryResult)
    (customerQuery : text) (numResults : nat) : list Rag.SimilarResponse :=
  match query customerQuery numResults with
  | Ok results =>
      match searchCandidates results with
      | Ok similarResponses => keepSimilar similarResponses
      | Throw _ => []
      end
  | Throw _ => []
  end.

End RAGService.

(** The view of a similar response that [AIResponseService] reads. *)
Definition toSimilar (r : Rag.SimilarResponse) : SimilarResponse :=
  mkSimilar (Rag.query (Rag.source r)) (Rag.response (Rag.source r))
    (Rag.similarity r) (Rag.category (Rag.source r)).

(** The content that an upsert writes, and the last response of a batch
    for an id. *)
Definition contentOf (r : History.HistoricalResponse) : text * text * option text :=
  (History.query r, History.response r, Some (History.category r)).

Definition rowContent (row : History.Row) : text * text * option text :=
  (History.customerQuery row, History.rowResponse row, History.rowCategory row).

Definition lookupResponse (id : text) (table : list History.Row)
    : option (text * text * option text) :=
  option_map rowContent (find (fun row => eqText (History.rowId row) id) table).

Definition lastResponse (id : text) (responses : list History.HistoricalResponse)
    : option History.HistoricalResponse :=
  find (fun r => eqText (History.id r) id) (rev responses).

(** What the batch does to a row of a table that holds all its ids. *)
Definition settle (responses : list History.HistoricalResponse) (row : History.Row)
    : History.Row :=
  match lastResponse (History.rowId row) responses with
  | Some r =>
      History.mkRow (History.rowId row) (History.query r) (History.response r)
        (Some (History.category r)) (History.embedding row) (History.rowCreatedAt row)
  | None => row
  end.

Definition isReply (ev : Event) : bool :=
  match ev with
  | EvSendReply _ _ _ _ => true
  | _ => false
  end.

(** ** The dashboard *)

(** [orderBy: { updatedAt: 'desc' }]. Rows with the same [updatedAt] are
    kept in the order of the table; the database leaves their order open,
    and nothing below depends on it. *)
Fixpoint insertByUpdatedAt (c : Db.Conversation) (rows : list Db.Conversation)
    : list Db.Conversation :=
  match rows with
  | [] => [c]
  | x :: rest =>
      if Db.updatedAt x <=? Db.updatedAt c then c :: x :: rest
      else x :: insertByUpdatedAt c rest
  end.

Definition orderByUpdatedAtDesc (rows : list Db.Conversation) : list Db.Conversation :=
  fold_right insertByUpdatedAt [] rows.

(** [conversation.findMany({ where: { status }, take, orderBy })]. The
    [include] option adds the latest messages and replies to each row; it
    adds and drops no row, and is left out. *)
Definition conversation_findMany (whereStatus : option text) (take : option nat)
    (w : World) : list Db.Conversation :=
  let rows :=
    match whereStatus with
    | Some status => filter (fun c => eqText (Db.status c) status) (conversations w)
    | None => conversations w
    end in
  let rows := orderByUpdatedAtDesc rows in
  match take with
  | Some n => firstn n rows
  | None => rows
  end.

Definition getConversationHistory (limit : nat) (w : World) : list Db.Conversation :=
  conversation_findMany None (Some limit) w.

Definition getEscalatedConversations (w : World) : list Db.Conversation :=
  conversation_findMany (Some (T "ESCALATED")) None w.

(** The [stats] of the route loader. *)
Record Stats : Type := mkStats {
  totalConversations : nat;
  escalatedCount : nat;
  activeCount : nat;
  resolvedCount : nat
}.

Definition loaderStats (w : World) : Stats :=
  (* Get conversation history *)
  let conversations := getConversationHistory 50 w in
  (* Get escalated conversations *)
  let escalated := getEscalatedConversations w in
  {| totalConversations := length conversations;
     escalatedCount := length escalated;
     activeCount :=
       length (filter (fun c => eqText (Db.status c) (T "ACTIVE")) conversations);
     resolvedCount :=
       length (filter (fun c => eqText (Db.status c) (T "RESOLVED")) conversations) |}.

(** ** Sample inputs for the code around the core *)

(** Two unread messages and an entry without an id. *)
Definition sampleMailbox : Mailbox :=
  {| listUnread := fun _ =>
       Ok (Some [mkRef (Some (T "msg-1")); mkRef None; mkRef (Some (T "msg-2"))]);
     getEmailDetails := fun id =>
       if eqText id (T "msg-1") then Some sampleEmail
       else if eqText id (T "msg-2") then Some complaintEmail
       else None |}.

Definition sampleInbox : Inbox := mkInbox emptyWorld [].

(** A batch that names the id "h-1" twice, and a table that holds "h-2". *)
Definition sampleBatch : list History.HistoricalResponse :=
  [History.mkResponse (T "h-1") (T "Where is my order?") (T "It ships tomorrow.")
     (T "ORDER_STATUS") (T "2025-07-01");
   History.mkResponse (T "h-2") (T "Can I return my glasses?") (T "Yes, within 30 days.")
     (T "RETURN_REFUND") (T "2025-07-02");
   History.mkResponse (T "h-1") (T "Where is my order?") (T "It shipped today.")
     (T "TRACKING") (T "2025-07-03")].

Definition sampleTable : list History.Row :=
  [History.mkRow (T "h-2") (T "Return?") (T "Please call us.") None (Some (T "[0.1]")) 7].

(** A query result with a close and a distant match, and one whose second
    metadata entry is missing. *)
Definition sampleMetadata (id : string) : Rag.Metadata :=
  Rag.mkMetadata (T id) (T "ORDER_STATUS") (T "Where is my order?")
    (T "Your order is on its way.") (T "2025-07-01").

Definition sampleQueryResult : Rag.QueryResult :=
  Rag.mkQueryResult (Some [[T "doc-1"; T "doc-2"]])
    (Some [[Some (sampleMetadata "h-1"); Some (sampleMetadata "h-2")]])
    (Some [[0.2%Q; 0.7%Q]]).

Definition brokenQueryResult : Rag.QueryResult :=
  Rag.mkQueryResult (Some [[T "doc-1"; T "doc-2"]])
    (Some [[Some (sampleMetadata "h-1"); None]])
    (Some [[0.2%Q; 0.3%Q]]).

Definition sampleClose : Rag.SimilarResponse :=
  Rag.mkSimilarResponse (sampleMetadata "h-1") (1 - 0.2)%Q.

Definition evidenceParams : GenerateParams :=
  {| customerQuery := T "Can you give me tracking for my order?";
     customerEmail := T "sarah@example.com";
     customerName := Some (T "Sarah");
     orderData := Some [sampleOrder];
     similarResponses :=
       Some (map toSimilar
               (RAGService.searchSimilarResponses (fun _ _ => Ok sampleQueryResult)
                  (T "Can you give me tracking for my order?") 3));
     category := None;
     context := None |}.

(** * Theorems *)

(** ** Code units *)

Lemma code_inj (a b : ascii) : code a = code b -> a = b.
Proof.
  unfold code. intros H.
  rewrite <- (ascii_nat_embedding a), <- (ascii_nat_embedding b).
  now rewrite H.
Qed.

Lemma eqChar_true_iff (a b : ascii) : eqChar a b = true <-> a = b.
Proof.
  unfold eqChar. rewrite Nat.eqb_eq. split.
  - apply code_inj.
  - now intros ->.
Qed.

Lemma eqChar_refl (a : ascii) : eqChar a a = true.
Proof. now apply eqChar_true_iff. Qed.

Lemma lastOf_app (b : option ascii) (u v : text) :
  lastOf b (u ++ v) = lastOf (lastOf b u) v.
Proof.
  revert b. induction u as [|c u IH]; intros b; simpl.
  - reflexivity.
  - apply IH.
Qed.

(** ** The matcher against the denotation *)

Lemma runStar_zero (p : ascii -> bool) (b : option ascii) (s : text) (cp : option text) :
  In (MState b s cp) (runStar p b s cp).
Proof.
  destruct s as [|c s]; simpl.
  - now left.
  - destruct (p c).
    + apply in_or_app. right. now left.
    + now left.
Qed.

Lemma runStar_sound (p : ascii -> bool) (s : text) :
  forall b cp st',
    In st' (runStar p b s cp) ->
    exists w, s = w ++ rest st' /\ before st' = lastOf b w /\ forallb p w = true.
Proof.
  induction s as [|c s IH]; intros b cp st' Hin; simpl in Hin.
  - destruct Hin as [<-|[]]. exists []. now simpl.
  - destruct (p c) eqn:Hp.
    + apply in_app_or in Hin. destruct Hin as [Hin|[<-|[]]].
      * destruct (IH _ _ _ Hin) as (w & Hs & Hb & Hall).
        exists (c :: w). simpl. rewrite Hp. now rewrite Hs at 1.
      * exists []. now simpl.
    + destruct Hin as [<-|[]]. exists []. now simpl.
Qed.

Lemma runStar_complete (p : ascii -> bool) (w : text) :
  forall b a cp,
    forallb p w = true ->
    In (MState (lastOf b w) a cp) (runStar p b (w ++ a) cp).
Proof.
  induction w as [|c w IH]; intros b a cp Hall; simpl in *.
  - apply runStar_zero.
  - apply andb_true_iff in Hall. destruct Hall as [Hc Hall].
    rewrite Hc. apply in_or_app. left. now apply IH.
Qed.

Lemma run_sound (r : regex) :
  forall st st',
    In st' (run r st) ->
    exists w, rest st = w ++ rest st'
              /\ before st' = lastOf (before st) w
              /\ Lang r (before st) w (rest st').
Proof.
  induction r as [|p|r1 IH1 r2 IH2|r1 IH1 r2 IH2|p| |r IH]; intros st st' Hin; simpl in Hin.
  - destruct Hin as [<-|[]]. exists []. repeat split. constructor.
  - destruct (rest st) as [|c s] eqn:Hs; [contradiction|].
    destruct (p c) eqn:Hp; [|contradiction].
    destruct Hin as [<-|[]]. exists [c]. simpl. repeat split. now constructor.
  - apply in_flat_map in Hin. destruct Hin as (mid & Hmid & Hin).
    destruct (IH1 _ _ Hmid) as (w1 & Hs1 & Hb1 & HL1).
    destruct (IH2 _ _ Hin) as (w2 & Hs2 & Hb2 & HL2).
    exists (w1 ++ w2). repeat split.
    + rewrite Hs1, Hs2. now rewrite app_assoc.
    + rewrite lastOf_app, <- Hb1. exact Hb2.
    + constructor.
      * rewrite <- Hs2. exact HL1.
      * rewrite <- Hb1. exact HL2.
  - apply in_app_or in Hin. destruct Hin as [Hin|Hin].
    + destruct (IH1 _ _ Hin) as (w & Hs & Hb & HL). exists w. repeat split; auto.
      now apply L_AltL.
    + destruct (IH2 _ _ Hin) as (w & Hs & Hb & HL). exists w. repeat split; auto.
      now apply L_AltR.
  - destruct (runStar_sound _ _ _ _ _ Hin) as (w & Hs & Hb & Hall).
    exists w. repeat split; auto. now constructor.
  - destruct (atBoundary (before st) (rest st)) eqn:Hb; [|contradiction].
    destruct Hin as [<-|[]]. exists []. repeat split. now constructor.
  - apply in_map_iff in Hin. destruct Hin as (st1 & <- & Hin).
    destruct (IH _ _ Hin) as (w & Hs & Hb & HL). exists w. simpl. repeat split; auto.
    now constructor.
Qed.

Lemma run_complete (r : regex) (b : option ascii) (w a : text) :
  Lang r b w a ->
  forall cp, exists cp', In (MState (lastOf b w) a cp') (run r (MState b (w ++ a) cp)).
Proof.
  induction 1 as [b a|p c b a Hp|r1 r2 b w1 w2 a H1 IH1 H2 IH2|r1 r2 b w a H IH
                  |r1 r2 b w a H IH|p b w a Hall|b a Hb|r b w a H IH]; intros cp; simpl.
  - exists cp. now left.
  - rewrite Hp. exists cp. now left.
  - destruct (IH1 cp) as (cp1 & Hin1). destruct (IH2 cp1) as (cp2 & Hin2).
    exists cp2. apply in_flat_map. eexists. split.
    + rewrite <- app_assoc. exact Hin1.
    + rewrite lastOf_app. exact Hin2.
  - destruct (IH cp) as (cp' & Hin). exists cp'. apply in_or_app. now left.
  - destruct (IH cp) as (cp' & Hin). exists cp'. apply in_or_app. now right.
  - exists cp. now apply runStar_complete.
  - rewrite Hb. exists cp. now left.
  - destruct (IH cp) as (cp' & Hin). eexists. apply in_map_iff.
    eexists. split; [|exact Hin]. simpl. reflexivity.
Qed.

Lemma execFrom_sound (r : regex) (s : text) :
  forall b st',
    execFrom r b s = Some st' ->
    exists pre w, s = pre ++ w ++ rest st' /\ Lang r (lastOf b pre) w (rest st').
Proof.
  induction s as [|c s IH]; intros b st' H; simpl in H.
  - destruct (run r (MState b [] None)) as [|st1 l] eqn:Hrun; [discriminate|].
    injection H as <-.
    destruct (run_sound r (MState b [] None) st1) as (w & Hs & _ & HL).
    { rewrite Hrun. now left. }
    exists [], w. simpl in *. split; auto.
  - destruct (run r (MState b (c :: s) None)) as [|st1 l] eqn:Hrun.
    + destruct (IH _ _ H) as (pre & w & Hs & HL).
      exists (c :: pre), w. simpl. split; [now rewrite Hs|exact HL].
    + injection H as <-.
      destruct (run_sound r (MState b (c :: s) None) st1) as (w & Hs & _ & HL).
      { rewrite Hrun. now left. }
      exists [], w. simpl in *. split; auto.
Qed.

Lemma execFrom_complete (r : regex) (pre w a : text) :
  forall b,
    Lang r (lastOf b pre) w a ->
    execFrom r b (pre ++ w ++ a) <> None.
Proof.
  induction pre as [|c pre IH]; intros b HL.
  - simpl in HL. destruct (run_complete _ _ _ _ HL None) as (cp' & Hin).
    simpl app. destruct (w ++ a) as [|c s] eqn:Hwa; simpl;
      destruct (run r _) as [|st1 l]; try contradiction; discriminate.
  - simpl. destruct (run r _) as [|st1 l]; [|discriminate].
    apply IH. exact HL.
Qed.

Theorem test_true_iff (r : regex) (s : text) : test r s = true <-> Matches r s.
Proof.
  unfold test, exec, Matches. split.
  - destruct (execFrom r None s) as [st'|] eqn:H; [|discriminate].
    intros _. destruct (execFrom_sound _ _ _ _ H) as (pre & w & Hs & HL).
    now exists pre, w, (rest st').
  - intros (pre & w & post & -> & HL).
    pose proof (execFrom_complete r pre w post None HL) as Hne.
    destruct (execFrom r None (pre ++ w ++ post)); [reflexivity|contradiction].
Qed.

Corollary test_false_iff (r : regex) (s : text) : test r s = false <-> ~ Matches r s.
Proof.
  rewrite <- test_true_iff. destruct (test r s); split; intros H; easy.
Qed.

Lemma group1_none_of_test (r : regex) (s : text) : test r s = false -> group1 r s = None.
Proof.
  unfold test, group1. destruct (exec r s); [discriminate|reflexivity].
Qed.

(** ** Inversion of the denotation *)

Lemma Lang_Eps_inv b w a : Lang Eps b w a -> w = [].
Proof. now inversion 1. Qed.

Lemma Lang_Chr_inv p b w a : Lang (Chr p) b w a -> exists c, w = [c] /\ p c = true.
Proof. inversion 1; subst. now exists c. Qed.

Lemma Lang_Seq_inv r1 r2 b w a :
  Lang (Seq r1 r2) b w a ->
  exists w1 w2, w = w1 ++ w2 /\ Lang r1 b w1 (w2 ++ a) /\ Lang r2 (lastOf b w1) w2 a.
Proof. inversion 1; subst. now exists w1, w2. Qed.

Lemma Lang_Alt_inv r1 r2 b w a :
  Lang (Alt r1 r2) b w a -> Lang r1 b w a \/ Lang r2 b w a.
Proof. inversion 1; subst; auto. Qed.

Lemma Lang_Star_inv p b w a : Lang (Star p) b w a -> forallb p w = true.
Proof. now inversion 1. Qed.

Lemma Lang_WordB_inv b w a : Lang WordB b w a -> w = [] /\ atBoundary b a = true.
Proof. now inversion 1. Qed.

Lemma Lang_Cap_inv r b w a : Lang (Cap r) b w a -> Lang r b w a.
Proof. now inversion 1. Qed.

Lemma Lang_lit_cs (w : text) :
  forall b u a, Lang (lit false w) b u a <-> u = w.
Proof.
  induction w as [|c w IH]; intros b u a; simpl.
  - split.
    + apply Lang_Eps_inv.
    + intros ->. constructor.
  - split.
    + intros H. apply Lang_Seq_inv in H. destruct H as (w1 & w2 & -> & H1 & H2).
      apply Lang_Chr_inv in H1. destruct H1 as (x & -> & Hx).
      apply eqChar_true_iff in Hx. subst x.
      apply IH in H2. now subst w2.
    + intros ->. change (c :: w) with ([c] ++ w). constructor.
      * constructor. apply eqChar_refl.
      * now apply IH.
Qed.

Lemma Lang_lit_ci (w : text) :
  forall b u a, Lang (lit true w) b u a <-> sameLetters w u.
Proof.
  unfold sameLetters.
  induction w as [|c w IH]; intros b u a; simpl.
  - split.
    + intros H. apply Lang_Eps_inv in H. subst. constructor.
    + inversion 1. constructor.
  - split.
    + intros H. apply Lang_Seq_inv in H. destruct H as (w1 & w2 & -> & H1 & H2).
      apply Lang_Chr_inv in H1. destruct H1 as (x & -> & Hx).
      simpl. constructor; [exact Hx|]. now apply IH in H2.
    + inversion 1 as [|x y l l' Hxy Hl]; subst.
      change (y :: l') with ([y] ++ l'). constructor.
      * now constructor.
      * now apply IH.
Qed.

Lemma Lang_alts (rs : list regex) b w a :
  Lang (alts rs) b w a <-> exists r, In r rs /\ Lang r b w a.
Proof.
  induction rs as [|r rs IH]; simpl.
  - split.
    + intros H. apply Lang_Chr_inv in H. destruct H as (c & _ & H). discriminate.
    + intros (r & [] & _).
  - destruct rs as [|r' rs].
    + split.
      * intros H. exists r. auto.
      * intros (r0 & [<-|[]] & H). exact H.
    + split.
      * intros H. apply Lang_Alt_inv in H. destruct H as [H|H].
        -- exists r. auto.
        -- apply IH in H. destruct H as (r0 & Hin & H). exists r0. auto.
      * intros (r0 & [<-|Hin] & H).
        -- now apply L_AltL.
        -- apply L_AltR. apply IH. now exists r0.
Qed.

Lemma Lang_AtLeast (n : nat) (p : ascii -> bool) :
  forall b w a,
    Lang (AtLeast n p) b w a <-> n <= length w /\ forallb p w = true.
Proof.
  induction n as [|n IH]; intros b w a; simpl.
  - split.
    + intros H. apply Lang_Star_inv in H. split; [lia|exact H].
    + intros [_ H]. now constructor.
  - split.
    + intros H. apply Lang_Seq_inv in H. destruct H as (w1 & w2 & -> & H1 & H2).
      apply Lang_Chr_inv in H1. destruct H1 as (c & -> & Hc).
      apply IH in H2. destruct H2 as [Hlen Hall]. simpl. rewrite Hc, Hall.
      split; [lia|reflexivity].
    + intros [Hlen Hall]. destruct w as [|c w]; [simpl in Hlen; lia|].
      simpl in Hlen, Hall. apply andb_true_iff in Hall. destruct Hall as [Hc Hall].
      change (c :: w) with ([c] ++ w). constructor.
      * now constructor.
      * apply IH. split; [lia|exact Hall].
Qed.

(** ** [startsWith] and [includes] *)

Lemma startsWith_iff (p s : text) : startsWith p s = true <-> exists t, s = p ++ t.
Proof.
  revert s. induction p as [|c p IH]; intros s; simpl.
  - split; [intros _; now exists s|reflexivity].
  - destruct s as [|d s].
    + split; [discriminate|]. intros (t & H). discriminate.
    + rewrite andb_true_iff, eqChar_true_iff, IH. split.
      * intros [-> (t & ->)]. now exists t.
      * intros (t & H). injection H as -> ->. split; [reflexivity|now exists t].
Qed.

Lemma includes_iff (s p : text) :
  includes s p = true <-> exists pre post, s = pre ++ p ++ post.
Proof.
  induction s as [|c s IH]; simpl.
  - rewrite orb_false_r, startsWith_iff. split.
    + intros (t & H). now exists [], t.
    + intros (pre & post & H). destruct pre; simpl in H.
      * now exists post.
      * discriminate.
  - rewrite orb_true_iff, startsWith_iff, IH. split.
    + intros [(t & H)|(pre & post & ->)].
      * now exists [], t.
      * now exists (c :: pre), post.
    + intros (pre & post & H). destruct pre as [|d pre]; simpl in H.
      * left. now exists post.
      * right. injection H as -> ->. now exists pre, post.
Qed.

(** ** Case folding *)

Lemma code_of_nat (n : nat) : n < 256 -> code (ascii_of_nat n) = n.
Proof. apply nat_ascii_embedding. Qed.

Lemma inRange_iff lo hi c : inRange lo hi c = true <-> lo <= code c <= hi.
Proof.
  unfold inRange. rewrite andb_true_iff, !Nat.leb_le. tauto.
Qed.

Lemma inRange_false_iff lo hi c :
  inRange lo hi c = false <-> code c < lo \/ hi < code c.
Proof.
  unfold inRange. rewrite andb_false_iff, !Nat.leb_gt. tauto.
Qed.

(** A lower-case ASCII letter of a pattern is matched, under the [i] flag,
    only by a code unit that [toLowerCase] sends to it. *)
Lemma eqCharCI_lower (x y : ascii) :
  code x < 192 -> isUpperAZ x = false ->
  eqCharCI x y = true -> lowerChar y = x.
Proof.
  unfold eqCharCI, foldAZ, lowerChar, isUpperAZ. intros Hx Hux H.
  rewrite Hux in H.
  destruct (inRange 65 90 y) eqn:Huy.
  - apply eqChar_true_iff in H. now symmetry.
  - apply eqChar_true_iff in H. subst y.
    destruct (inRange 192 222 x) eqn:Hr; simpl; [|reflexivity].
    apply inRange_iff in Hr. lia.
Qed.

Lemma sameLetters_lower (w u : text) :
  Forall (fun x => code x < 192 /\ isUpperAZ x = false) w ->
  sameLetters w u -> toLowerCase u = w.
Proof.
  intros Hw H. induction H as [|x y w u Hxy H IH]; simpl.
  - reflexivity.
  - inversion Hw as [|? ? [Hx Hux] Hw']; subst.
    rewrite (eqCharCI_lower x y Hx Hux Hxy). f_equal. now apply IH.
Qed.

Lemma toLowerCase_app (u v : text) :
  toLowerCase (u ++ v) = toLowerCase u ++ toLowerCase v.
Proof. apply map_app. Qed.

Lemma occursCI_includes_lower (w s : text) :
  Forall (fun x => code x < 192 /\ isUpperAZ x = false) w ->
  occursCI w s -> includes (toLowerCase s) w = true.
Proof.
  intros Hw (pre & u & post & -> & Hu).
  apply includes_iff. exists (toLowerCase pre), (toLowerCase post).
  rewrite !toLowerCase_app. now rewrite (sameLetters_lower w u Hw Hu).
Qed.

(** ** Word lists and order numbers *)

Lemma wordAlt_complete (ws : list text) (w s : text) :
  In w ws -> occursAsWord w s -> test (wordAlt ws) s = true.
Proof.
  intros Hin (pre & post & -> & Hb1 & Hb2).
  apply test_true_iff. exists pre, w, post. split; [reflexivity|].
  unfold wordAlt.
  change w with ([] ++ w) at 1. constructor.
  - simpl. now constructor.
  - simpl. rewrite <- (app_nil_r w) at 1. constructor.
    + constructor. apply Lang_alts. exists (lit false w). split.
      * now apply in_map.
      * now apply Lang_lit_cs.
    + simpl. now constructor.
Qed.

Lemma wordAlt_sound (ws : list text) (s : text) :
  test (wordAlt ws) s = true -> exists w, In w ws /\ occursAsWord w s.
Proof.
  intros H. apply test_true_iff in H. destruct H as (pre & u & post & -> & HL).
  unfold wordAlt in HL.
  apply Lang_Seq_inv in HL. destruct HL as (w1 & w2 & -> & H1 & H2).
  apply Lang_WordB_inv in H1. destruct H1 as [-> Hb1].
  apply Lang_Seq_inv in H2. destruct H2 as (w3 & w4 & -> & H3 & H4).
  apply Lang_WordB_inv in H4. destruct H4 as [-> Hb2].
  apply Lang_Cap_inv, Lang_alts in H3. destruct H3 as (r & Hr & HL).
  apply in_map_iff in Hr. destruct Hr as (w & <- & Hw).
  apply Lang_lit_cs in HL. subst w3.
  exists w. split; [exact Hw|]. exists pre, post.
  simpl in *. rewrite app_nil_r in *. auto.
Qed.

Lemma Matches_Seq_lit_ci (w : text) (r : regex) (s : text) :
  Matches (Seq (lit true w) r) s -> occursCI w s.
Proof.
  intros (pre & u & post & -> & HL).
  apply Lang_Seq_inv in HL. destruct HL as (w1 & w2 & -> & H1 & _).
  apply Lang_lit_ci in H1.
  exists pre, w1, (w2 ++ post). split; [now rewrite <- app_assoc|exact H1].
Qed.

Lemma Matches_Seq_Chr (c : ascii) (r : regex) (s : text) :
  Matches (Seq (Chr (eqChar c)) r) s -> includes s [c] = true.
Proof.
  intros (pre & u & post & -> & HL).
  apply Lang_Seq_inv in HL. destruct HL as (w1 & w2 & -> & H1 & _).
  apply Lang_Chr_inv in H1. destruct H1 as (x & -> & Hx).
  apply eqChar_true_iff in Hx. subst x.
  apply includes_iff. exists pre, (w2 ++ post). now rewrite <- app_assoc.
Qed.

Lemma Matches_Seq_Alt (r1 r2 r : regex) (s : text) :
  Matches (Seq (Alt r1 r2) r) s -> Matches (Seq r1 r) s \/ Matches (Seq r2 r) s.
Proof.
  intros (pre & u & post & -> & HL).
  apply Lang_Seq_inv in HL. destruct HL as (w1 & w2 & -> & H1 & H2).
  apply Lang_Alt_inv in H1. destruct H1 as [H1|H1]; [left|right];
    exists pre, (w1 ++ w2), post; (split; [reflexivity|now constructor]).
Qed.

Lemma order_letters :
  Forall (fun x => code x < 192 /\ isUpperAZ x = false) (T "order").
Proof. repeat constructor; vm_compute; lia. Qed.

Lemma reOrderMatch_needs_marker (s : text) :
  includes s (T "#") = false ->
  includes (toLowerCase s) (T "order") = false ->
  test reOrderMatch s = false.
Proof.
  intros Hhash Hord. apply test_false_iff. intros HM.
  apply Matches_Seq_Alt in HM. destruct HM as [HM|HM].
  - apply Matches_Seq_lit_ci, (occursCI_includes_lower _ _ order_letters) in HM.
    congruence.
  - apply Matches_Seq_Chr in HM. change ["#"%char] with (T "#") in HM. congruence.
Qed.

Lemma exec_none_of_test (r : regex) (s : text) : test r s = false -> exec r s = None.
Proof. unfold test. destruct (exec r s); [discriminate|reflexivity]. Qed.

Lemma exec_some_of_test (r : regex) (s : text) :
  test r s = true -> exists st, exec r s = Some st.
Proof. unfold test. destruct (exec r s) as [st|]; [now exists st|discriminate]. Qed.

Lemma standalone_pattern_iff (s : text) :
  test (Seq WordB (Seq (Cap (AtLeast 4 isDigit)) WordB)) s = true
  <-> hasStandaloneNumber 4 s.
Proof.
  rewrite test_true_iff. split.
  - intros (pre & u & post & -> & HL).
    apply Lang_Seq_inv in HL. destruct HL as (w1 & w2 & -> & H1 & H2).
    apply Lang_WordB_inv in H1. destruct H1 as [-> Hb1].
    apply Lang_Seq_inv in H2. destruct H2 as (d & w4 & -> & H3 & H4).
    apply Lang_WordB_inv in H4. destruct H4 as [-> Hb2].
    apply Lang_Cap_inv, Lang_AtLeast in H3. destruct H3 as [Hlen Hall].
    exists pre, d, post. simpl in *. rewrite app_nil_r in *. auto.
  - intros (pre & d & post & -> & Hlen & Hall & Hb1 & Hb2).
    exists pre, d, post. split; [reflexivity|].
    change d with ([] ++ d) at 1. constructor.
    + simpl. now constructor.
    + simpl. rewrite <- (app_nil_r d) at 1. constructor.
      * constructor. now apply (Lang_AtLeast 4 isDigit).
      * simpl. now constructor.
Qed.

Lemma extractOrderNumber_none (s : text) :
  includes s (T "#") = false ->
  includes (toLowerCase s) (T "order") = false ->
  ~ hasStandaloneNumber 4 s ->
  extractOrderNumber s = None.
Proof.
  intros Hhash Hord Hnum.
  assert (Hci : forall r, ~ Matches (Seq (lit true (T "order")) r) s).
  { intros r HM.
    apply Matches_Seq_lit_ci, (occursCI_includes_lower _ _ order_letters) in HM.
    congruence. }
  unfold extractOrderNumber, orderPatterns, firstPatternMatch.
  rewrite (exec_none_of_test _ s).
  2:{ apply test_false_iff. intros HM. apply Matches_Seq_Chr in HM.
      change ["#"%char] with (T "#") in HM. congruence. }
  rewrite (exec_none_of_test _ s) by (apply test_false_iff; apply Hci).
  rewrite (exec_none_of_test _ s) by (apply test_false_iff; apply Hci).
  rewrite (exec_none_of_test _ s); [reflexivity|].
  apply not_true_is_false. intros H. now apply standalone_pattern_iff in H.
Qed.

(** ** Scores *)

Lemma Qltb_true_iff (x y : Q) : Qltb x y = true <-> (x < y)%Q.
Proof.
  unfold Qltb. rewrite negb_true_iff. split.
  - intros H. apply Qnot_le_lt. intros Hle. apply Qle_bool_iff in Hle. congruence.
  - intros H. apply not_true_is_false. intros Hle. apply Qle_bool_iff in Hle.
    now apply (Qlt_not_le x y).
Qed.

Lemma Qltb_false_iff (x y : Q) : Qltb x y = false <-> (y <= x)%Q.
Proof.
  unfold Qltb. rewrite negb_false_iff. apply Qle_bool_iff.
Qed.

Lemma clamp01_range (x : Q) : (0 <= clamp01 x /\ clamp01 x <= 1)%Q.
Proof.
  unfold clamp01. split.
  - apply Q.le_max_l.
  - apply Q.max_lub; [discriminate|apply Q.le_min_l].
Qed.

Lemma clamp01_compat (x y : Q) : (x == y)%Q -> (clamp01 x == clamp01 y)%Q.
Proof. unfold clamp01. intros ->. reflexivity. Qed.

Lemma fold_left_similarity (rs : list SimilarResponse) :
  forall acc,
    (fold_left (fun sum r => sum + similarity r) rs acc
     == acc + Qsum (map similarity rs))%Q.
Proof.
  induction rs as [|r rs IH]; intros acc; simpl.
  - ring.
  - rewrite IH. ring.
Qed.

Lemma avgSimilarityOf_mean (rs : list SimilarResponse) :
  (avgSimilarityOf rs == mean (map similarity rs))%Q.
Proof.
  unfold avgSimilarityOf, mean. rewrite fold_left_similarity, length_map.
  now rewrite Qplus_0_l.
Qed.

Lemma hasSimilar_nonEmpty (o : option (list SimilarResponse)) :
  hasSimilar o = nonEmpty (map similarity (listOf o)).
Proof. destruct o as [[|r rs]|]; reflexivity. Qed.

(** C5. The Confidence Scorer computes what the specification says: start
    at 0.5, plus 0.3 with order data, plus the mean similarity times 0.2 with
    a non-empty evidence list, minus 0.2 under 50 characters, minus 0.3 when
    the text contains "[", "{{" or "PLACEHOLDER", plus 0.1 on the
    tracking/order-number/delivery/shipping pattern, the result clamped; so
    the confidence lies in [0,1] for every input. *)
Theorem calculateConfidence_spec (response : text)
    (orderData : option (list ShopifyOrder))
    (similarResponses : option (list SimilarResponse)) :
  (calculateConfidence response orderData similarResponses
   == specScore response (hasOrders orderData)
        (map similarity (listOf similarResponses)))%Q
  /\ (0 <= calculateConfidence response orderData similarResponses)%Q
  /\ (calculateConfidence response orderData similarResponses <= 1)%Q.
Proof.
  split; [|apply clamp01_range].
  unfold calculateConfidence, specScore.
  apply clamp01_compat.
  rewrite <- hasSimilar_nonEmpty.
  pose proof (avgSimilarityOf_mean (listOf similarResponses)) as Havg.
  destruct (hasOrders orderData), (hasSimilar similarResponses),
    (length response <? 50),
    (includes response (T "[") || includes response (T "{{")
     || includes response (T "PLACEHOLDER")),
    (test reSpecificDetails response); unfold bonus;
    try rewrite Havg; ring.
Qed.

(** ** The validator *)

Lemma eqCharCI_nonletter (x y : ascii) :
  isUpperAZ x = false -> isLowerAZ x = false -> eqCharCI x y = true -> y = x.
Proof.
  unfold eqCharCI, foldAZ, isUpperAZ, isLowerAZ. intros Hux Hlx H.
  rewrite Hux in H. apply eqChar_true_iff in H.
  destruct (inRange 65 90 y) eqn:Huy; [|now symmetry].
  exfalso. apply inRange_iff in Huy. apply inRange_false_iff in Hlx.
  assert (Hc : code x = code y + 32).
  { rewrite H. apply code_of_nat. lia. }
  lia.
Qed.

Lemma sameLetters_nonletters (w u : text) :
  Forall (fun x => isUpperAZ x = false /\ isLowerAZ x = false) w ->
  sameLetters w u -> u = w.
Proof.
  intros Hw H. induction H as [|x y w u Hxy H IH].
  - reflexivity.
  - inversion Hw as [|? ? [Hux Hlx] Hw']; subst.
    rewrite (eqCharCI_nonletter x y Hux Hlx Hxy). f_equal. now apply IH.
Qed.

Lemma sameLetters_refl (w : text) : sameLetters w w.
Proof.
  induction w as [|c w IH]; constructor; [|exact IH].
  unfold eqCharCI. apply eqChar_refl.
Qed.

Lemma Lang_bracket (opening closing : text) (ci : bool) b w a :
  (forall b' u a', Lang (lit ci opening) b' u a' <-> u = opening) ->
  (forall b' u a', Lang (lit ci closing) b' u a' <-> u = closing) ->
  Lang (Seq (lit ci opening) (Seq (Star isDot) (lit ci closing))) b w a
  <-> exists mid, w = opening ++ mid ++ closing /\ forallb isDot mid = true.
Proof.
  intros Ho Hc. split.
  - intros H. apply Lang_Seq_inv in H. destruct H as (w1 & w2 & -> & H1 & H2).
    apply Ho in H1. subst w1.
    apply Lang_Seq_inv in H2. destruct H2 as (mid & w4 & -> & H3 & H4).
    apply Lang_Star_inv in H3. apply Hc in H4. subst w4.
    now exists mid.
  - intros (mid & -> & Hmid). constructor.
    + now apply Ho.
    + constructor.
      * now constructor.
      * now apply Hc.
Qed.

Lemma braces_nonletters (w : text) :
  w = T "{{" \/ w = T "}}" ->
  Forall (fun x => isUpperAZ x = false /\ isLowerAZ x = false) w.
Proof. intros [->| ->]; repeat constructor. Qed.

Lemma Lang_lit_ci_exact (w : text) :
  Forall (fun x => isUpperAZ x = false /\ isLowerAZ x = false) w ->
  forall b u a, Lang (lit true w) b u a <-> u = w.
Proof.
  intros Hw b u a. rewrite Lang_lit_ci. split.
  - now apply sameLetters_nonletters.
  - intros ->. apply sameLetters_refl.
Qed.

Lemma Lang_Chr_as_lit (c : ascii) b w a :
  Lang (Chr (eqChar c)) b w a <-> w = [c].
Proof.
  split.
  - intros H. apply Lang_Chr_inv in H. destruct H as (x & -> & Hx).
    apply eqChar_true_iff in Hx. now subst.
  - intros ->. constructor. apply eqChar_refl.
Qed.

Lemma Lang_square_bracket b w a :
  Lang (Seq (Chr (eqChar "["%char)) (Seq (Star isDot) (Chr (eqChar "]"%char)))) b w a
  <-> exists mid, w = T "[" ++ mid ++ T "]" /\ forallb isDot mid = true.
Proof.
  split.
  - intros H. apply Lang_Seq_inv in H. destruct H as (w1 & w2 & -> & H1 & H2).
    apply Lang_Chr_as_lit in H1. subst w1.
    apply Lang_Seq_inv in H2. destruct H2 as (mid & w4 & -> & H3 & H4).
    apply Lang_Star_inv in H3. apply Lang_Chr_as_lit in H4. subst w4.
    now exists mid.
  - intros (mid & -> & Hmid). constructor.
    + now apply Lang_Chr_as_lit.
    + constructor.
      * now constructor.
      * now apply Lang_Chr_as_lit.
Qed.

Lemma Matches_lit_ci (w s : text) : Matches (lit true w) s <-> occursCI w s.
Proof.
  unfold Matches, occursCI. split.
  - intros (pre & u & post & -> & H). apply Lang_lit_ci in H. now exists pre, u, post.
  - intros (pre & u & post & -> & H). exists pre, u, post. split; [reflexivity|].
    now apply Lang_lit_ci.
Qed.

Theorem rePlaceholder_iff (s : text) :
  test rePlaceholder s = true <-> hasPlaceholderMarker s.
Proof.
  rewrite test_true_iff. unfold hasPlaceholderMarker, rePlaceholder. split.
  - intros (pre & w & post & -> & H).
    apply Lang_alts in H. destruct H as (r & Hr & H).
    simpl in Hr. destruct Hr as [<-|[<-|[<-|[<-|[<-|[]]]]]].
    + left. apply Lang_square_bracket in H. destruct H as (mid & -> & Hmid).
      exists pre, mid, post. split; [|exact Hmid]. now rewrite <- !app_assoc.
    + right; left.
      apply (Lang_bracket (T "{{") (T "}}") true) in H.
      * destruct H as (mid & -> & Hmid).
        exists pre, mid, post. split; [|exact Hmid]. now rewrite <- !app_assoc.
      * apply Lang_lit_ci_exact, braces_nonletters. now left.
      * apply Lang_lit_ci_exact, braces_nonletters. now right.
    + right; right; left. apply Matches_lit_ci. now exists pre, w, post.
    + right; right; right; left. apply Matches_lit_ci. now exists pre, w, post.
    + right; right; right; right. apply Matches_lit_ci. now exists pre, w, post.
  - intros [H|[H|[H|[H|H]]]].
    + destruct H as (pre & mid & post & -> & Hmid).
      exists pre, (T "[" ++ mid ++ T "]"), post. split; [now rewrite <- !app_assoc|].
      apply Lang_alts. eexists. split; [now left|].
      apply Lang_square_bracket. now exists mid.
    + destruct H as (pre & mid & post & -> & Hmid).
      exists pre, (T "{{" ++ mid ++ T "}}"), post. split; [now rewrite <- !app_assoc|].
      apply Lang_alts. eexists. split; [right; now left|].
      apply (Lang_bracket (T "{{") (T "}}") true).
      * apply Lang_lit_ci_exact, braces_nonletters. now left.
      * apply Lang_lit_ci_exact, braces_nonletters. now right.
      * now exists mid.
    + apply Matches_lit_ci in H. destruct H as (pre & w & post & -> & H).
      exists pre, w, post. split; [reflexivity|].
      apply Lang_alts. eexists. split; [right; right; now left|exact H].
    + apply Matches_lit_ci in H. destruct H as (pre & w & post & -> & H).
      exists pre, w, post. split; [reflexivity|].
      apply Lang_alts. eexists. split; [right; right; right; now left|exact H].
    + apply Matches_lit_ci in H. destruct H as (pre & w & post & -> & H).
      exists pre, w, post. split; [reflexivity|].
      apply Lang_alts. eexists. split; [right; right; right; right; now left|exact H].
Qed.

Lemma validateResponse_shape (response : text) :
  let v := validateResponse response in
  length (issues v) = count (tooShort response) + count (test rePlaceholder response)
  /\ length (warnings v)
     = count (tooLong response) + count (lacksCourtesy response)
       + count (vagueOrder response)
  /\ isValid v = negb (tooShort response || test rePlaceholder response)
  /\ score v = Qmax 0 (1 - ofNat (length (issues v)) * 0.3
                         - ofNat (length (warnings v)) * 0.1).
Proof.
  unfold validateResponse, tooShort, tooLong, lacksCourtesy, vagueOrder.
  destruct (length response <? 30), (1000 <? length response),
    (test rePlaceholder response),
    (negb (existsb (fun word => includes (toLowerCase response) word) professionalWords)),
    (includes response (T "your order") && negb (test reOrderDetails response));
    repeat split.
Qed.

Lemma tracking_marker (s : text) :
  includes s (T "[TRACKING]") = true -> hasPlaceholderMarker s.
Proof.
  intros H. apply includes_iff in H. destruct H as (pre & post & ->).
  left. exists pre, (T "TRACKING"), post. split; reflexivity.
Qed.

(** C10. A response that the validator accepts scores at least 0.7 (no
    issue, at most three warnings of 0.1 each); so a score under 0.6 only
    comes with [isValid = false], and the escalation decision of
    [processEmail] is [aiResponse.shouldEscalate || !validation.isValid]:
    its third disjunct never decides. *)
Theorem valid_score_at_least_07 (response : text) (aiResponse : AIGeneratedResponse) :
  let v := validateResponse response in
  (isValid v = true -> (0.7 <= score v)%Q)
  /\ (Qltb (score v) 0.6 = true -> isValid v = false)
  /\ escalationDecision aiResponse v = shouldEscalate aiResponse || negb (isValid v).
Proof.
  assert (H : isValid (validateResponse response) = true ->
              (0.7 <= score (validateResponse response))%Q).
  { unfold validateResponse.
    destruct (length response <? 30), (1000 <? length response),
      (test rePlaceholder response),
      (negb (existsb (fun word => includes (toLowerCase response) word) professionalWords)),
      (includes response (T "your order") && negb (test reOrderDetails response));
      simpl; intros Hv; try discriminate Hv; apply Qle_bool_iff; reflexivity. }
  assert (H6 : Qltb (score (validateResponse response)) 0.6 = true ->
               isValid (validateResponse response) = false).
  { intros Hlt. destruct (isValid (validateResponse response)) eqn:Hv; [|reflexivity].
    apply Qltb_true_iff in Hlt. specialize (H eq_refl).
    exfalso. apply (Qlt_not_le _ _ Hlt). eapply Qle_trans; [|exact H]. discriminate. }
  cbv zeta. split; [exact H|]. split; [exact H6|].
  unfold escalationDecision.
  destruct (isValid (validateResponse response)) eqn:Hv.
  - destruct (Qltb (score (validateResponse response)) 0.6) eqn:Hlt.
    + specialize (H6 eq_refl). discriminate.
    + destruct (shouldEscalate aiResponse); reflexivity.
  - destruct (shouldEscalate aiResponse); reflexivity.
Qed.

(** C8. [validateResponse] rejects a text exactly when it is shorter than
    30 characters or holds a placeholder marker ([...], {{...}}, PLACEHOLDER,
    TODO, XXX); validity is the absence of issues, whatever the warnings
    (over 1000 characters, no courtesy word, "your order" without an order
    number pattern); the score is max(0, 1 - 0.3 x issues - 0.1 x warnings);
    a text of 20 characters is rejected, and so is a text of 200 characters
    that contains "[TRACKING]". *)
Theorem validateResponse_spec (response : text) :
  let v := validateResponse response in
  (isValid v = false <-> length response < 30 \/ hasPlaceholderMarker response)
  /\ isValid v = (length (issues v) =? 0)
  /\ length (issues v)
     = count (tooShort response) + count (test rePlaceholder response)
  /\ warnings v
     = (if tooLong response then [T "Response is quite long"] else [])
       ++ (if lacksCourtesy response
           then [T "Response may lack professional courtesy words"] else [])
       ++ (if vagueOrder response
           then [T "Response mentions order but lacks specific order details"]
           else [])
  /\ (score v == Qmax 0 (1 - 0.3 * ofNat (length (issues v))
                           - 0.1 * ofNat (length (warnings v))))%Q
  /\ (length response = 20 -> isValid v = false)
  /\ (length response = 200 -> includes response (T "[TRACKING]") = true ->
      isValid v = false).
Proof.
  cbv zeta.
  destruct (validateResponse_shape response) as (Hi & Hw & Hv & Hs).
  assert (Hiff : isValid (validateResponse response) = false
                 <-> length response < 30 \/ hasPlaceholderMarker response).
  { rewrite Hv, negb_false_iff, orb_true_iff, rePlaceholder_iff.
    unfold tooShort. now rewrite Nat.ltb_lt. }
  split; [exact Hiff|]. split; [reflexivity|]. split; [exact Hi|]. split.
  { unfold validateResponse, tooLong, lacksCourtesy, vagueOrder.
    destruct (1000 <? length response),
      (negb (existsb (fun word => includes (toLowerCase response) word) professionalWords)),
      (includes response (T "your order") && negb (test reOrderDetails response));
      reflexivity. }
  split.
  { rewrite Hs.
    assert (E : (1 - ofNat (length (issues (validateResponse response))) * 0.3
                 - ofNat (length (warnings (validateResponse response))) * 0.1
                 == 1 - 0.3 * ofNat (length (issues (validateResponse response)))
                    - 0.1 * ofNat (length (warnings (validateResponse response))))%Q)
      by ring.
    now rewrite E. }
  split.
  - intros Hlen. apply Hiff. left. lia.
  - intros _ Htr. apply Hiff. right. now apply tracking_marker.
Qed.

(** ** Intent analysis *)

Lemma analyze_requiresEscalation (query : text) :
  let a := analyzeCustomerQuery query in
  (intent a = return_refund \/ intent a = complaint_issue) ->
  requiresEscalation a = true.
Proof.
  unfold analyzeCustomerQuery.
  destruct (test (wordAlt statusWords) (toLowerCase query)),
    (test (wordAlt trackWords) (toLowerCase query)),
    (test (wordAlt returnWords) (toLowerCase query)),
    (test (wordAlt productWords) (toLowerCase query)),
    (test (wordAlt complaintWords) (toLowerCase query)),
    (test (wordAlt urgencyWords) (toLowerCase query));
    simpl; intros [H|H]; try reflexivity; discriminate H.
Qed.

Lemma analyze_complaint (query : text) :
  test (wordAlt complaintWords) (toLowerCase query) = true ->
  let a := analyzeCustomerQuery query in
  intent a = complaint_issue /\ urgency a = high /\ requiresEscalation a = true.
Proof.
  intros H. unfold analyzeCustomerQuery. rewrite H.
  destruct (test (wordAlt statusWords) (toLowerCase query)),
    (test (wordAlt trackWords) (toLowerCase query)),
    (test (wordAlt returnWords) (toLowerCase query)),
    (test (wordAlt productWords) (toLowerCase query)),
    (test (wordAlt urgencyWords) (toLowerCase query)); simpl; auto.
Qed.

Lemma analyze_status_keyword (query : text) :
  test (wordAlt statusWords) (toLowerCase query) = true ->
  In (T "status") (keywords (analyzeCustomerQuery query)).
Proof.
  intros H. unfold analyzeCustomerQuery. rewrite H.
  destruct (test (wordAlt trackWords) (toLowerCase query)),
    (test (wordAlt returnWords) (toLowerCase query)),
    (test (wordAlt productWords) (toLowerCase query)),
    (test (wordAlt complaintWords) (toLowerCase query)),
    (test (wordAlt urgencyWords) (toLowerCase query)); simpl; auto.
Qed.

Lemma analyze_urgency (query : text) :
  test (wordAlt urgencyWords) (toLowerCase query) = true ->
  let a := analyzeCustomerQuery query in
  urgency a = high /\ requiresEscalation a = true.
Proof.
  intros H. unfold analyzeCustomerQuery. rewrite H.
  destruct (test (wordAlt statusWords) (toLowerCase query)),
    (test (wordAlt trackWords) (toLowerCase query)),
    (test (wordAlt returnWords) (toLowerCase query)),
    (test (wordAlt productWords) (toLowerCase query)),
    (test (wordAlt complaintWords) (toLowerCase query)); simpl; auto.
Qed.

(** C6. When the lower-cased query holds, as words, both a status term and
    a complaint term, the status rule fires first (its keyword is recorded)
    and the complaint rule overrides it: the intent is [complaint_issue], the
    urgency is high and escalation is required. Independently, an urgency
    term makes the urgency high and requires escalation, whatever the
    intent. *)
Theorem complaint_and_urgency_precedence (query : text) :
  let a := analyzeCustomerQuery query in
  (forall status complaint,
      In status statusWords -> In complaint complaintWords ->
      occursAsWord status (toLowerCase query) ->
      occursAsWord complaint (toLowerCase query) ->
      In (T "status") (keywords a)
      /\ intent a = complaint_issue /\ urgency a = high
      /\ requiresEscalation a = true)
  /\ (forall term,
         In term urgencyWords -> occursAsWord term (toLowerCase query) ->
         urgency a = high /\ requiresEscalation a = true).
Proof.
  cbv zeta. split.
  - intros status complaint Hs Hc Hos Hoc.
    split.
    + apply analyze_status_keyword. now apply (wordAlt_complete _ status).
    + apply analyze_complaint. now apply (wordAlt_complete _ complaint).
  - intros term Ht Hot. apply analyze_urgency. now apply (wordAlt_complete _ term).
Qed.

(** ** The fallback path *)

Lemma fallbackBody_confidence rt params a :
  snd (fallbackBody rt params a) = baseConfidence (intent a).
Proof. unfold fallbackBody. now destruct (intent a). Qed.

Lemma generateFallbackResponse_fields rt params errorType :
  let a := analyzeCustomerQuery (customerQuery params) in
  let r := generateFallbackResponse rt params errorType in
  response r = fst (fallbackBody rt params a)
  /\ confidence r = baseConfidence (intent a)
  /\ shouldEscalate r = requiresEscalation a || Qltb (confidence r) 0.7
  /\ modelUsed r = T "intelligent_fallback"
  /\ tokensUsed r = 0.
Proof.
  cbv zeta. unfold generateFallbackResponse.
  pose proof (fallbackBody_confidence rt params
                (analyzeCustomerQuery (customerQuery params))) as Hc.
  destruct (fallbackBody rt params (analyzeCustomerQuery (customerQuery params)))
    as [txt c].
  simpl in *. subst c. repeat split.
Qed.

Lemma generateResponseCatch_class rt params error :
  generateResponseCatch rt params error
  = Ok (generateFallbackResponse rt params (failureClass error)).
Proof.
  unfold generateResponseCatch, failureClass.
  repeat match goal with
         | |- context [if ?c then _ else _] => destruct c; try reflexivity
         end.
Qed.

Lemma failureClass_in error : In (failureClass error) failureClasses.
Proof.
  unfold failureClass, failureClasses.
  repeat match goal with
         | |- context [if ?c then _ else _] => destruct c
         end; simpl; tauto.
Qed.

Lemma generateResponse_on_failure rt params error :
  chatCompletion rt getSystemPrompt (buildPrompt rt params) = Throw error ->
  generateResponse rt params
  = Ok (generateFallbackResponse rt params (failureClass error)).
Proof.
  intros H. unfold generateResponse, generateResponseTry. rewrite H.
  apply generateResponseCatch_class.
Qed.

Lemma generateResponse_on_success rt params completion :
  chatCompletion rt getSystemPrompt (buildPrompt rt params) = Ok completion ->
  exists r,
    generateResponse rt params = Ok r
    /\ confidence r = calculateConfidence (response r) (orderData params)
                        (similarResponses params)
    /\ shouldEscalate r = Qltb (confidence r) 0.7.
Proof.
  intros H. unfold generateResponse, generateResponseTry. rewrite H.
  eexists. split; [reflexivity|]. simpl. split; reflexivity.
Qed.

(** C4. When the provider fails, with a thrown value of any class, the
    reply of [generateResponse] carries the base confidence of the classified
    intent (order_status and shipping_tracking 0.75, return_refund 0.70,
    product_inquiry 0.65, complaint_issue 0.80, general_inquiry 0.60), its
    [shouldEscalate] is [requiresEscalation || confidence < 0.7], it is marked
    as produced by the fallback, and for the intents return_refund and
    complaint_issue [shouldEscalate] is true. *)
Theorem fallback_confidence_and_escalation (rt : Runtime) (params : GenerateParams)
    (error : JsError) :
  chatCompletion rt getSystemPrompt (buildPrompt rt params) = Throw error ->
  let a := analyzeCustomerQuery (customerQuery params) in
  exists r,
    generateResponse rt params = Ok r
    /\ confidence r = baseConfidence (intent a)
    /\ shouldEscalate r = requiresEscalation a || Qltb (confidence r) 0.7
    /\ modelUsed r = T "intelligent_fallback"
    /\ (intent a = return_refund \/ intent a = complaint_issue ->
        shouldEscalate r = true).
Proof.
  intros H. cbv zeta.
  exists (generateFallbackResponse rt params (failureClass error)).
  destruct (generateFallbackResponse_fields rt params (failureClass error))
    as (_ & Hc & He & Hm & _).
  split; [now apply generateResponse_on_failure|].
  split; [exact Hc|]. split; [exact He|]. split; [exact Hm|].
  intros Hi. rewrite He.
  now rewrite (analyze_requiresEscalation (customerQuery params) Hi).
Qed.

Lemma hi_nonempty (x : text) : T "Hi" ++ x <> [].
Proof. intros H. apply (f_equal (@length ascii)) in H. discriminate H. Qed.

Lemma fallbackBody_nonempty rt params a : fst (fallbackBody rt params a) <> [].
Proof.
  unfold fallbackBody, generateOrderStatusResponse, generateShippingResponse,
    generateReturnRefundResponse, generateProductInquiryResponse,
    generateComplaintResponse, generateGeneralResponse.
  destruct (intent a); cbn [fst];
    repeat match goal with
           | |- context [match ?o with Some _ => _ | None => _ end] => destruct o
           | |- context [match ?l with [] => _ | _ :: _ => _ end] => destruct l
           | |- (if ?c then _ else _) <> _ => destruct c
           end;
    apply hi_nonempty.
Qed.

Lemma baseConfidence_range (i : Intent) :
  (0 <= baseConfidence i /\ baseConfidence i <= 1)%Q.
Proof. destruct i; split; discriminate. Qed.

(** C1. [generateResponse] is total over the failure taxonomy: whatever the
    provider does, a reply is returned and nothing is raised; when the
    provider throws, the reply is the fallback for the class of the thrown
    value, which is one of the seven classes; the fallback reply is complete
    (a non-empty text, a confidence in [0,1], no tokens, the fallback mark);
    and every class is reached by some thrown value. *)
Theorem generateResponse_total (rt : Runtime) (params : GenerateParams) :
  (exists r, generateResponse rt params = Ok r)
  /\ (forall error,
         chatCompletion rt getSystemPrompt (buildPrompt rt params) = Throw error ->
         generateResponse rt params
         = Ok (generateFallbackResponse rt params (failureClass error))
         /\ In (failureClass error) failureClasses)
  /\ (forall errorType,
         let r := generateFallbackResponse rt params errorType in
         response r <> [] /\ modelUsed r = T "intelligent_fallback"
         /\ tokensUsed r = 0 /\ (0 <= confidence r)%Q /\ (confidence r <= 1)%Q)
  /\ Forall2 (fun error class => failureClass error = class)
       sampleErrors failureClasses.
Proof.
  split; [|split; [|split]].
  - destruct (chatCompletion rt getSystemPrompt (buildPrompt rt params))
      as [completion|error] eqn:H.
    + destruct (generateResponse_on_success rt params completion H) as (r & Hr & _).
      now exists r.
    + exists (generateFallbackResponse rt params (failureClass error)).
      now apply generateResponse_on_failure.
  - intros error H. split; [now apply generateResponse_on_failure|].
    apply failureClass_in.
  - intros errorType. cbv zeta.
    destruct (generateFallbackResponse_fields rt params errorType)
      as (Hr & Hc & _ & Hm & Ht).
    rewrite Hr, Hc. split; [apply fallbackBody_nonempty|].
    split; [exact Hm|]. split; [exact Ht|]. apply baseConfidence_range.
  - repeat constructor.
Qed.

(** ** Order numbers *)

Lemma runStar_captured p s : forall b cp st', In st' (runStar p b s cp) -> captured st' = cp.
Proof.
  induction s as [|c s IH]; intros b cp st' Hin; simpl in Hin.
  - now destruct Hin as [<-|[]].
  - destruct (p c).
    + apply in_app_or in Hin. destruct Hin as [Hin|[<-|[]]]; [now apply (IH _ _ _ Hin)|reflexivity].
    + now destruct Hin as [<-|[]].
Qed.

(** A capture, once made, is not lost further along the match. *)
Lemma run_keeps_capture (r : regex) :
  forall st st', In st' (run r st) -> captured st <> None -> captured st' <> None.
Proof.
  induction r as [|p|r1 IH1 r2 IH2|r1 IH1 r2 IH2|p| |r IH]; intros st st' Hin Hc; simpl in Hin.
  - now destruct Hin as [<-|[]].
  - destruct (rest st) as [|c s]; [contradiction|].
    destruct (p c); [|contradiction]. now destruct Hin as [<-|[]].
  - apply in_flat_map in Hin. destruct Hin as (mid & Hmid & Hin).
    apply (IH2 _ _ Hin). now apply (IH1 _ _ Hmid).
  - apply in_app_or in Hin. destruct Hin as [Hin|Hin]; eauto.
  - now rewrite (runStar_captured _ _ _ _ _ Hin).
  - destruct (atBoundary (before st) (rest st)); [|contradiction].
    now destruct Hin as [<-|[]].
  - apply in_map_iff in Hin. destruct Hin as (x & <- & _). discriminate.
Qed.

Lemma run_standalone_captured (x : regex) (st st' : mstate) :
  In st' (run (Seq WordB (Seq (Cap x) WordB)) st) -> captured st' <> None.
Proof.
  intros Hin. simpl in Hin.
  apply in_flat_map in Hin. destruct Hin as (st1 & _ & Hin).
  apply in_flat_map in Hin. destruct Hin as (st2 & Hcap & Hin).
  apply (run_keeps_capture WordB _ _ Hin).
  apply in_map_iff in Hcap. destruct Hcap as (y & <- & _). discriminate.
Qed.

Lemma execFrom_in (r : regex) (s : text) :
  forall b st, execFrom r b s = Some st ->
               exists b' s', In st (run r (MState b' s' None)).
Proof.
  induction s as [|c s IH]; intros b st H; simpl in H.
  - destruct (run r (MState b [] None)) as [|st1 l] eqn:Hrun; [discriminate|].
    injection H as <-. exists b, []. rewrite Hrun. now left.
  - destruct (run r (MState b (c :: s) None)) as [|st1 l] eqn:Hrun.
    + now apply (IH _ _ H).
    + injection H as <-. exists b, (c :: s). rewrite Hrun. now left.
Qed.

Lemma firstn_consumed (w s : text) : firstn (length (w ++ s) - length s) (w ++ s) = w.
Proof.
  rewrite length_app, Nat.add_sub. rewrite firstn_app, Nat.sub_diag, firstn_all.
  simpl. apply app_nil_r.
Qed.

(** What a match captures is what it had captured before or a match of one
    of its groups. *)
Lemma run_captures (P : text -> Prop) (r : regex) :
  capturesOnly P r ->
  forall st st',
    In st' (run r st) ->
    captured st' = captured st \/ exists w, captured st' = Some w /\ P w.
Proof.
  induction r as [|p|r1 IH1 r2 IH2|r1 IH1 r2 IH2|p| |r IH]; intros Hcaps st st' Hin;
    simpl in Hin.
  - destruct Hin as [<-|[]]. now left.
  - destruct (rest st) as [|c s]; [contradiction|].
    destruct (p c); [|contradiction]. destruct Hin as [<-|[]]. now left.
  - destruct Hcaps as [H1 H2].
    apply in_flat_map in Hin. destruct Hin as (mid & Hmid & Hin).
    destruct (IH2 H2 _ _ Hin) as [->|Hw]; [|now right].
    now apply IH1.
  - destruct Hcaps as [H1 H2].
    apply in_app_or in Hin. destruct Hin as [Hin|Hin]; [now apply IH1|now apply IH2].
  - left. now apply (runStar_captured _ _ _ _ _ Hin).
  - destruct (atBoundary (before st) (rest st)); [|contradiction].
    destruct Hin as [<-|[]]. now left.
  - destruct Hcaps as [HP _].
    apply in_map_iff in Hin. destruct Hin as (st1 & <- & Hst1).
    destruct (run_sound r _ _ Hst1) as (w & Hrest & _ & HL).
    right. exists w. simpl. rewrite Hrest, firstn_consumed.
    split; [reflexivity|]. now apply (HP _ _ _ HL).
Qed.

Lemma Lang_Plus_number (p : ascii -> bool) b w a :
  Lang (Plus p) b w a -> w <> [] /\ forallb p w = true.
Proof.
  intros H. apply Lang_Seq_inv in H. destruct H as (w1 & w2 & -> & H1 & H2).
  apply Lang_Chr_inv in H1. destruct H1 as (c & -> & Hc).
  apply Lang_Star_inv in H2. simpl. rewrite Hc, H2. split; [discriminate|reflexivity].
Qed.

Lemma orderPatterns_capture_digits :
  Forall (capturesOnly isNumber) orderPatterns.
Proof.
  assert (Hplus : forall b w a, Lang (Plus isDigit) b w a -> isNumber w)
    by (intros b w a; apply Lang_Plus_number).
  assert (Hfour : forall b w a, Lang (AtLeast 4 isDigit) b w a -> isNumber w).
  { intros b w a H. apply (Lang_AtLeast 4 isDigit) in H. destruct H as [Hlen Hall].
    split; [|exact Hall]. intros ->. simpl in Hlen. lia. }
  unfold orderPatterns.
  repeat (apply Forall_cons || apply Forall_nil);
    simpl; repeat apply conj; try exact I; try exact Hplus; exact Hfour.
Qed.

(** [extractOrderNumber] returns digits only. *)
Lemma extractOrderNumber_digits (s n : text) :
  extractOrderNumber s = Some n -> isNumber n.
Proof.
  unfold extractOrderNumber. generalize orderPatterns_capture_digits.
  induction orderPatterns as [|pattern patterns IH]; intros Hall; simpl; [discriminate|].
  inversion Hall as [|? ? Hp Hps]; subst.
  destruct (exec pattern s) as [st|] eqn:Hex; [|now apply IH].
  intros Hcap. destruct (execFrom_in _ _ _ _ Hex) as (b' & s' & Hin).
  destruct (run_captures isNumber pattern Hp _ _ Hin) as [Hnone|(w & Hw & HP)].
  - simpl in Hnone. congruence.
  - congruence.
Qed.

(** C7, as amended. On "My order #BLG-2024-001 hasn't arrived" the inline
    pattern of the classifier extracts "BLG-2024-001". [extractOrderNumber]
    is made for numbers: whatever it returns is a run of one or more digits.
    On a text with no "#" and no occurrence of the letters "order" (in any
    case) the classifier extracts nothing, and [extractOrderNumber] extracts
    nothing when the text has, besides, no run of four or more digits
    between word boundaries. *)
Theorem orderNumber_extraction :
  extractedOrder (analyzeCustomerQuery sampleOrderQuery) = Some (T "BLG-2024-001")
  /\ (forall s n, extractOrderNumber s = Some n -> isNumber n)
  /\ (forall s,
         includes s (T "#") = false ->
         includes (toLowerCase s) (T "order") = false ->
         extractedOrder (analyzeCustomerQuery s) = None
         /\ (~ hasStandaloneNumber 4 s -> extractOrderNumber s = None)).
Proof.
  split; [reflexivity|]. split; [exact extractOrderNumber_digits|].
  intros s Hhash Hord. split.
  - unfold analyzeCustomerQuery.
    rewrite (group1_none_of_test _ _ (reOrderMatch_needs_marker s Hhash Hord)).
    repeat match goal with
           | |- context [if ?c then _ else _] => destruct c
           end; reflexivity.
  - now apply extractOrderNumber_none.
Qed.

(** C7, as stated, fails for [extractOrderNumber]: on the sample it does not
    return "BLG-2024-001", and on a text with neither "#" nor "order" it
    returns a number. *)
Lemma extractOrderNumber_counterexample :
  extractOrderNumber sampleOrderQuery <> Some (T "BLG-2024-001")
  /\ includes (T "call 12345 now") (T "#") = false
  /\ includes (toLowerCase (T "call 12345 now")) (T "order") = false
  /\ extractOrderNumber (T "call 12345 now") = Some (T "12345").
Proof. repeat split. discriminate. Qed.

(** ** Running [processEmail] *)

Local Open Scope monad_scope.

Lemma hasRow_app {A : Type} (key : A -> nat) (id : nat) (rows more : list A) :
  hasRow key id (rows ++ more) = hasRow key id rows || hasRow key id more.
Proof. unfold hasRow. apply existsb_app. Qed.

Lemma hasRow_updateRows {A : Type} (key : A -> nat) (id id' : nat) (f : A -> A)
    (rows : list A) :
  (forall r, key (f r) = key r) ->
  hasRow key id (updateRows key id' f rows) = hasRow key id rows.
Proof.
  intros Hf. unfold hasRow, updateRows. induction rows as [|r rows IH]; simpl.
  - reflexivity.
  - rewrite IH. destruct (key r =? id'); [now rewrite Hf|reflexivity].
Qed.

Lemma hasRow_of_find {A : Type} (key : A -> nat) (p : A -> bool) (rows : list A) (r : A) :
  find p rows = Some r -> hasRow key (key r) rows = true.
Proof.
  intros H. apply find_some in H. destruct H as [Hin _].
  unfold hasRow. apply existsb_exists. exists r. split; [exact Hin|apply Nat.eqb_refl].
Qed.

Lemma triple_ret {A : Type} (P : World -> Prop) (a : A) (Q : A -> World -> Prop) :
  (forall w, P w -> Q a w) -> triple P (ret a) Q.
Proof. intros H w HP. exists a, w. split; [reflexivity|now apply H]. Qed.

Lemma triple_conseq {A : Type} (P P' : World -> Prop) (m : M A) (Q : A -> World -> Prop) :
  (forall w, P w -> P' w) -> triple P' m Q -> triple P m Q.
Proof. intros HP H w Hw. apply H. now apply HP. Qed.

Lemma triple_bind {A B : Type} (P : World -> Prop) (m : M A) (R : A -> World -> Prop)
    (k : A -> M B) (Q : B -> World -> Prop) :
  triple P m R -> (forall a, triple (R a) (k a) Q) -> triple P (bind m k) Q.
Proof.
  intros Hm Hk w HP. destruct (Hm w HP) as (a & w1 & Hrun & HR).
  destruct (Hk a w1 HR) as (b & w2 & Hrun2 & HQ).
  exists b, w2. split; [|exact HQ]. unfold bind. now rewrite Hrun.
Qed.

(** The primitives, one by one. *)

Lemma spec_findUnique (w0 : World) (gmailMessageId : text) :
  triple (eq w0) (customerEmail_findUnique gmailMessageId)
    (fun r w => w = w0
                /\ r = find (fun x => eqText (Db.gmailMessageId x) gmailMessageId)
                         (customerEmails w0)).
Proof. intros w <-. eexists _, _. split; [reflexivity|]. now split. Qed.

Lemma spec_findFirst (w0 : World) (customerEmail : text) :
  triple (eq w0) (conversation_findFirst customerEmail)
    (fun r w => w = w0
                /\ r = find (fun c => eqText (Db.customerEmail c) customerEmail)
                         (conversations w0)).
Proof. intros w <-. eexists _, _. split; [reflexivity|]. now split. Qed.

Lemma spec_conversation_create (w0 : World) (customerEmail customerName status priority : text)
    (now : nat) :
  triple (eq w0) (conversation_create customerEmail customerName status priority now)
    (fun c w => St (trace w0) (customerEmails w0) (aiResponses w0) (Db.convId c) w).
Proof.
  intros w <-. eexists _, _. split; [reflexivity|].
  unfold St. simpl. repeat split.
  rewrite hasRow_app. unfold hasRow at 2. simpl. rewrite Nat.eqb_refl.
  now rewrite orb_true_r.
Qed.

Lemma spec_customerEmail_create t ce ar cid (email : GmailEmail.t) (conversationId : nat) :
  find (fun r => eqText (Db.gmailMessageId r) (GmailEmail.id email)) ce = None ->
  triple (St t ce ar cid) (customerEmail_create email conversationId)
    (fun r w => St t (ce ++ [r]) ar cid w
                /\ Db.gmailMessageId r = GmailEmail.id email).
Proof.
  intros Hfresh w (Ht & Hce & Har & Hc).
  unfold customerEmail_create. rewrite Hce, Hfresh.
  eexists _, _. split; [reflexivity|]. unfold St. simpl. now rewrite Ht, Har.
Qed.

Lemma spec_conversation_update t ce ar cid
    (f : Db.Conversation -> Db.Conversation) :
  (forall c, Db.convId (f c) = Db.convId c) ->
  triple (St t ce ar cid) (conversation_update cid f) (fun _ w => St t ce ar cid w).
Proof.
  intros Hf w (Ht & Hce & Har & Hc).
  unfold conversation_update. rewrite Hc.
  eexists _, _. split; [reflexivity|]. unfold St. simpl.
  now rewrite hasRow_updateRows.
Qed.

Lemma spec_fetchOrderData (P : World -> Prop) sv orderNumber email :
  triple P (fetchOrderData sv orderNumber email) (fun _ w => P w).
Proof.
  intros w HP. unfold fetchOrderData, tryCatch, liftExc, ret.
  destruct (truthy orderNumber).
  - destruct (findOrderByNumber sv (render orderNumber)); eexists _, _; split;
      try reflexivity; exact HP.
  - destruct (findOrdersByEmail sv (GmailEmail.fromEmail email)); eexists _, _; split;
      try reflexivity; exact HP.
Qed.

Lemma generateResponse_returns rt params : exists r, generateResponse rt params = Ok r.
Proof.
  destruct (chatCompletion rt getSystemPrompt (buildPrompt rt params))
    as [completion|error] eqn:H.
  - destruct (generateResponse_on_success rt params completion H) as (r & Hr & _).
    now exists r.
  - exists (generateFallbackResponse rt params (failureClass error)).
    now apply generateResponse_on_failure.
Qed.

Lemma spec_ai_generateResponse t ce ar cid sv params :
  triple (St t ce ar cid) (ai_generateResponse sv params)
    (fun a w => St (t ++ [EvCompletion getSystemPrompt (buildPrompt (runtime sv) params)])
                  ce ar cid w
                /\ generateResponse (runtime sv) params = Ok a).
Proof.
  intros w (Ht & Hce & Har & Hc).
  destruct (generateResponse_returns (runtime sv) params) as (r & Hr).
  unfold ai_generateResponse, bind, emit, liftExc. rewrite Hr.
  eexists _, _. split; [reflexivity|]. unfold St. simpl. now rewrite Ht.
Qed.

Lemma spec_aIResponse_create t ce ar cid (data : nat -> Db.AIResponse) :
  triple (St t ce ar cid) (aIResponse_create data)
    (fun r w => St t ce (ar ++ [r]) cid w /\ exists id, r = data id).
Proof.
  intros w (Ht & Hce & Har & Hc).
  eexists _, _. split; [reflexivity|]. unfold St. simpl.
  rewrite Har. repeat split; auto. now exists (nextId w).
Qed.

Lemma spec_gmail_sendReply t ce ar cid sv to subject body threadId :
  triple (St t ce ar cid) (gmail_sendReply sv to subject body threadId)
    (fun sent w => St (t ++ [EvSendReply to subject body threadId]) ce ar cid w
                   /\ sent = sendReplyOutcome sv to subject body threadId).
Proof.
  intros w (Ht & Hce & Har & Hc).
  eexists _, _. split; [reflexivity|]. unfold St. simpl. now rewrite Ht.
Qed.

Lemma spec_aIResponse_update t ce ar cid (id : nat) (f : Db.AIResponse -> Db.AIResponse) :
  hasRow Db.respId id ar = true ->
  triple (St t ce ar cid) (aIResponse_update id f)
    (fun _ w => St t ce (updateRows Db.respId id f ar) cid w).
Proof.
  intros Hrow w (Ht & Hce & Har & Hc).
  unfold aIResponse_update. rewrite Har, Hrow.
  eexists _, _. split; [reflexivity|]. unfold St. simpl. auto.
Qed.

Lemma spec_customerEmail_update t ce ar cid (id : nat)
    (f : Db.CustomerEmail -> Db.CustomerEmail) :
  hasRow Db.ceId id ce = true ->
  triple (St t ce ar cid) (customerEmail_update id f)
    (fun _ w => St t (updateRows Db.ceId id f ce) ar cid w).
Proof.
  intros Hrow w (Ht & Hce & Har & Hc).
  unfold customerEmail_update. rewrite Hce, Hrow.
  eexists _, _. split; [reflexivity|]. unfold St. simpl. auto.
Qed.

Lemma triple_pure {A : Type} (F : Prop) (P : World -> Prop) (m : M A)
    (Q : A -> World -> Prop) :
  (F -> triple P m Q) -> triple (fun w => P w /\ F) m Q.
Proof. intros H w [HP HF]. now apply H. Qed.

Lemma hasRow_last {A : Type} (key : A -> nat) (rows : list A) (r : A) :
  hasRow key (key r) (rows ++ [r]) = true.
Proof.
  rewrite hasRow_app. unfold hasRow at 2. simpl. rewrite Nat.eqb_refl.
  now rewrite orb_true_r.
Qed.

Lemma sendDirectly_always (sv : Services) (email : GmailEmail.t)
    (orderData : list ShopifyOrder) (aiResponse : AIGeneratedResponse)
    (shouldEscalate : bool) :
  sendDirectly shouldEscalate
    (snd (chooseFinalResponse sv email orderData aiResponse shouldEscalate)) = true.
Proof. now destruct shouldEscalate. Qed.

Lemma processEmailTry_fresh (sv : Services) (email : GmailEmail.t) (w0 : World) :
  persisted (GmailEmail.id email) w0 = false ->
  triple (eq w0) (processEmailTry sv email) (Outcome sv email w0).
Proof.
  unfold persisted. intros Hfresh.
  destruct (find _ (customerEmails w0)) eqn:Hfind; [discriminate|]. clear Hfresh.
  unfold processEmailTry.
  eapply triple_bind; [apply spec_findUnique|]. intros existing.
  apply triple_conseq with (P' := fun w => eq w0 w /\ existing = None).
  { intros w [-> ->]. split; [reflexivity|exact Hfind]. }
  apply triple_pure. intros ->.
  eapply triple_bind; [apply spec_findFirst|]. intros found.
  (* 2. the conversation *)
  apply triple_bind
    with (R := fun c w => St (trace w0) (customerEmails w0) (aiResponses w0) (Db.convId c) w).
  { intros w [-> ->].
    destruct (find _ (conversations w0)) as [c|] eqn:Hconv.
    - exists c, w0. split; [reflexivity|]. unfold St. repeat split.
      now apply (hasRow_of_find Db.convId _ _ _ Hconv).
    - now apply spec_conversation_create. }
  intros conversation.
  (* 3. the email *)
  eapply triple_bind; [now apply spec_customerEmail_create|]. intros savedEmail.
  apply triple_conseq
    with (P' := fun w => St (trace w0) (customerEmails w0 ++ [savedEmail]) (aiResponses w0)
                           (Db.convId conversation) w
                         /\ Db.gmailMessageId savedEmail = GmailEmail.id email);
    [auto|].
  apply triple_pure. intros HsavedId.
  cbv zeta.
  (* 4. the order number *)
  apply triple_bind
    with (R := fun _ w => St (trace w0) (customerEmails w0 ++ [savedEmail]) (aiResponses w0)
                            (Db.convId conversation) w).
  { destruct (truthy (extractOrderNumber (GmailEmail.body email))
              && negb (truthy (Db.shopifyOrderId conversation))).
    - now apply spec_conversation_update.
    - now apply triple_ret. }
  intros _.
  (* 5. the orders *)
  eapply triple_bind; [apply spec_fetchOrderData|]. intros orderData.
  (* 8. the reply *)
  eapply triple_bind; [apply spec_ai_generateResponse|]. intros aiResponse.
  apply triple_conseq
    with (P' := fun w =>
                  St (trace w0
                      ++ [EvCompletion getSystemPrompt
                            (buildPrompt (runtime sv)
                               (generationParams sv email orderData
                                  (Some (T "Subject: " ++ GmailEmail.subject email))))])
                    (customerEmails w0 ++ [savedEmail]) (aiResponses w0)
                    (Db.convId conversation) w
                  /\ generateResponse (runtime sv)
                       (generationParams sv email orderData
                          (Some (T "Subject: " ++ GmailEmail.subject email)))
                     = Ok aiResponse);
    [auto|].
  apply triple_pure. intros Hgen.
  (* 11. the saved reply *)
  pose proof (sendDirectly_always sv email orderData aiResponse
                (escalationDecision aiResponse (validateResponse (response aiResponse))))
    as Hsend.
  destruct (chooseFinalResponse sv email orderData aiResponse
              (escalationDecision aiResponse (validateResponse (response aiResponse))))
    as [finalResponse isIntelligentFallback] eqn:Hchoose.
  simpl in Hsend. rewrite Hsend.
  eapply triple_bind; [apply spec_aIResponse_create|]. intros savedResponse.
  apply triple_conseq
    with (P' := fun w =>
                  St (trace w0
                      ++ [EvCompletion getSystemPrompt
                            (buildPrompt (runtime sv)
                               (generationParams sv email orderData
                                  (Some (T "Subject: " ++ GmailEmail.subject email))))])
                    (customerEmails w0 ++ [savedEmail]) (aiResponses w0 ++ [savedResponse])
                    (Db.convId conversation) w
                  /\ exists rid,
                       savedResponse
                       = newAIResponse sv email orderData aiResponse
                           (escalationDecision aiResponse
                              (validateResponse (response aiResponse)))
                           finalResponse (Db.convId conversation) rid);
    [auto|].
  apply triple_pure. intros (rid & ->).
  change (Db.responseText (newAIResponse _ _ _ _ _ finalResponse _ rid))
    with finalResponse.
  change (Db.respId (newAIResponse sv email orderData aiResponse
                       (escalationDecision aiResponse
                          (validateResponse (response aiResponse)))
                       finalResponse (Db.convId conversation) rid))
    with rid.
  (* 12. the mailbox *)
  apply triple_bind
    with (R := fun _ w =>
                 St (trace w0
                     ++ [EvCompletion getSystemPrompt
                           (buildPrompt (runtime sv)
                              (generationParams sv email orderData
                                 (Some (T "Subject: " ++ GmailEmail.subject email))));
                         EvSendReply (GmailEmail.fromEmail email)
                           (T "Re: " ++ GmailEmail.subject email) finalResponse
                           (GmailEmail.threadId email)])
                   (customerEmails w0 ++ [savedEmail])
                   (if sendReplyOutcome sv (GmailEmail.fromEmail email)
                         (T "Re: " ++ GmailEmail.subject email) finalResponse
                         (GmailEmail.threadId email)
                    then updateRows Db.respId rid (setSent (now sv))
                           (aiResponses w0
                            ++ [newAIResponse sv email orderData aiResponse
                                  (escalationDecision aiResponse
                                     (validateResponse (response aiResponse)))
                                  finalResponse (Db.convId conversation) rid])
                    else aiResponses w0
                         ++ [newAIResponse sv email orderData aiResponse
                               (escalationDecision aiResponse
                                  (validateResponse (response aiResponse)))
                               finalResponse (Db.convId conversation) rid])
                   (Db.convId conversation) w).
  { eapply triple_bind; [apply spec_gmail_sendReply|]. intros sent.
    rewrite <- app_assoc. simpl app.
    apply triple_pure. intros ->.
    destruct (sendReplyOutcome sv _ _ _ _).
    - apply spec_aIResponse_update.
      apply (hasRow_last Db.respId (aiResponses w0)
               (newAIResponse sv email orderData aiResponse
                  (escalationDecision aiResponse (validateResponse (response aiResponse)))
                  finalResponse (Db.convId conversation) rid)).
    - now apply triple_ret. }
  intros _.
  (* 13, 14 *)
  eapply triple_bind; [now apply spec_conversation_update|]. intros [].
  eapply triple_bind;
    [apply spec_customerEmail_update; apply (hasRow_last Db.ceId)|].
  intros [].
  apply triple_ret. intros w (Ht & Hce & Har & _).
  exists orderData, aiResponse, savedEmail, (Db.convId conversation), rid.
  cbv zeta. rewrite Hchoose. simpl fst.
  repeat split; auto.
Qed.

Lemma processEmail_already (sv : Services) (email : GmailEmail.t) (w : World) :
  persisted (GmailEmail.id email) w = true ->
  processEmail sv email w = (Ok alreadyProcessed, w).
Proof.
  unfold persisted, processEmail, tryCatch, processEmailTry, bind,
    customerEmail_findUnique.
  destruct (find _ (customerEmails w)); [reflexivity|discriminate].
Qed.

Lemma processEmail_fresh (sv : Services) (email : GmailEmail.t) (w : World) :
  persisted (GmailEmail.id email) w = false ->
  exists res w', processEmail sv email w = (Ok res, w') /\ Outcome sv email w res w'.
Proof.
  intros Hfresh.
  destruct (processEmailTry_fresh sv email w Hfresh w eq_refl) as (res & w' & Hrun & Hout).
  exists res, w'. split; [|exact Hout]. unfold processEmail, tryCatch. now rewrite Hrun.
Qed.

Lemma eqText_refl (a : text) : eqText a a = true.
Proof. induction a as [|c a IH]; simpl; [reflexivity|]. now rewrite eqChar_refl. Qed.

Lemma find_app_last {A : Type} (p : A -> bool) (rows : list A) (r : A) :
  p r = true -> find p (rows ++ [r]) <> None.
Proof.
  intros Hp. induction rows as [|x rows IH]; simpl.
  - now rewrite Hp.
  - destruct (p x); [discriminate|exact IH].
Qed.

Lemma find_updateRows {A : Type} (p : A -> bool) (key : A -> nat) (id : nat)
    (f : A -> A) (rows : list A) :
  (forall r, p (f r) = p r) ->
  find p rows <> None -> find p (updateRows key id f rows) <> None.
Proof.
  intros Hf. unfold updateRows. induction rows as [|x rows IH]; simpl.
  - auto.
  - destruct (key x =? id).
    + rewrite Hf. destruct (p x); [discriminate|exact IH].
    + destruct (p x); [discriminate|exact IH].
Qed.

Lemma Outcome_persisted sv email w res w' :
  Outcome sv email w res w' -> persisted (GmailEmail.id email) w' = true.
Proof.
  intros (orderData & aiResponse & savedEmail & cid & rid & H).
  cbv zeta in H. destruct H as (_ & _ & Hid & Hce & _).
  unfold persisted. rewrite Hce.
  destruct (find _ (updateRows _ _ _ _)) eqn:Hfind; [reflexivity|].
  exfalso. revert Hfind. apply find_updateRows.
  - now intros r.
  - apply find_app_last. rewrite Hid. apply eqText_refl.
Qed.

Lemma length_updateRows {A : Type} (key : A -> nat) (id : nat) (f : A -> A)
    (rows : list A) :
  length (updateRows key id f rows) = length rows.
Proof. apply length_map. Qed.

Lemma Outcome_one_reply sv email w res w' :
  Outcome sv email w res w' -> length (aiResponses w') = S (length (aiResponses w)).
Proof.
  intros (orderData & aiResponse & savedEmail & cid & rid & H).
  cbv zeta in H. destruct H as (_ & _ & _ & _ & Har & _).
  rewrite Har. destruct (sendReplyOutcome sv _ _ _ _);
    rewrite ?length_updateRows, length_app; simpl; lia.
Qed.

(** C9. Processing a mailbox message whose id is already in the store
    changes nothing (no write, no call to the provider or the mailbox) and
    returns the successful result "Email already processed". After any call
    of [processEmail] the id is in the store, so a second call is such a
    no-op; and from a store without the id the two calls together add exactly
    one reply. *)
Theorem processEmail_idempotent (sv : Services) (email : GmailEmail.t) (w : World) :
  let w1 := snd (processEmail sv email w) in
  (persisted (GmailEmail.id email) w = true ->
   processEmail sv email w = (Ok alreadyProcessed, w))
  /\ persisted (GmailEmail.id email) w1 = true
  /\ processEmail sv email w1 = (Ok alreadyProcessed, w1)
  /\ (persisted (GmailEmail.id email) w = false ->
      length (aiResponses w1) = S (length (aiResponses w)))
  /\ EmailProcessResult.success alreadyProcessed = true
  /\ EmailProcessResult.message alreadyProcessed = Some (T "Email already processed").
Proof.
  cbv zeta.
  assert (Hp : persisted (GmailEmail.id email) (snd (processEmail sv email w)) = true).
  { destruct (persisted (GmailEmail.id email) w) eqn:Hw.
    - now rewrite (processEmail_already sv email w Hw).
    - destruct (processEmail_fresh sv email w Hw) as (res & w' & Hrun & Hout).
      rewrite Hrun. simpl. now apply (Outcome_persisted sv email w res w'). }
  split; [apply processEmail_already|]. split; [exact Hp|].
  split; [now apply processEmail_already|]. split; [|split; reflexivity].
  intros Hw. destruct (processEmail_fresh sv email w Hw) as (res & w' & Hrun & Hout).
  rewrite Hrun. simpl. now apply (Outcome_one_reply sv email w res w').
Qed.

Lemma generateResponse_threshold rt params r :
  generateResponse rt params = Ok r -> shouldEscalate r = false ->
  (0.7 <= confidence r)%Q.
Proof.
  intros Hgen Hse.
  destruct (chatCompletion rt getSystemPrompt (buildPrompt rt params))
    as [completion|error] eqn:H.
  - destruct (generateResponse_on_success rt params completion H) as (r' & Hr & _ & He).
    rewrite Hgen in Hr. injection Hr as <-. apply Qltb_false_iff. now rewrite <- He.
  - rewrite (generateResponse_on_failure rt params error H) in Hgen. injection Hgen as <-.
    destruct (generateFallbackResponse_fields rt params (failureClass error))
      as (_ & _ & He & _).
    rewrite He in Hse. apply orb_false_iff in Hse. now apply Qltb_false_iff.
Qed.

Lemma escalationDecision_false aiResponse v :
  escalationDecision aiResponse v = false ->
  shouldEscalate aiResponse = false /\ isValid v = true /\ (0.6 <= score v)%Q.
Proof.
  unfold escalationDecision. intros H.
  apply orb_false_iff in H. destruct H as [H Hs].
  apply orb_false_iff in H. destruct H as [He Hv].
  apply negb_false_iff in Hv. apply Qltb_false_iff in Hs. auto.
Qed.

Lemma In_updateRows {A : Type} (key : A -> nat) (id : nat) (f : A -> A)
    (rows : list A) (r : A) :
  In r (updateRows key id f rows) -> exists r0, In r0 rows /\ (r = r0 \/ r = f r0).
Proof.
  unfold updateRows. intros H. apply in_map_iff in H. destruct H as (r0 & <- & Hin).
  exists r0. split; [exact Hin|]. destruct (key r0 =? id); auto.
Qed.

Lemma passedReview_setSent n row : passedReview row -> passedReview (setSent n row).
Proof. auto. Qed.

Lemma processEmail_preserves_invariant (sv : Services) (email : GmailEmail.t)
    (w : World) :
  escalationInvariant w -> escalationInvariant (snd (processEmail sv email w)).
Proof.
  intros Hinv.
  destruct (persisted (GmailEmail.id email) w) eqn:Hw.
  { now rewrite (processEmail_already sv email w Hw). }
  destruct (processEmail_fresh sv email w Hw) as (res & w' & Hrun & Hout).
  rewrite Hrun. simpl.
  destruct Hout as (orderData & aiResponse & savedEmail & cid & rid & H).
  cbv zeta in H. destruct H as (Hgen & _ & _ & _ & Har & _).
  assert (Hnew : forall row,
             In row (aiResponses w
                     ++ [newAIResponse sv email orderData aiResponse
                           (escalationDecision aiResponse
                              (validateResponse (response aiResponse)))
                           (fst (chooseFinalResponse sv email orderData aiResponse
                                   (escalationDecision aiResponse
                                      (validateResponse (response aiResponse)))))
                           cid rid]) ->
             Db.escalated row = false -> passedReview row).
  { intros row Hin Hesc. apply in_app_or in Hin. destruct Hin as [Hin|[<-|[]]].
    - now apply Hinv.
    - simpl in Hesc. unfold passedReview. simpl. rewrite Hesc. simpl.
      destruct (escalationDecision_false _ _ Hesc) as (Hse & Hv & Hs).
      split; [exact Hv|]. split; [exact Hs|].
      now apply (generateResponse_threshold _ _ _ Hgen). }
  intros row Hin Hesc. rewrite Har in Hin.
  destruct (sendReplyOutcome sv _ _ _ _); [|now apply Hnew].
  apply In_updateRows in Hin. destruct Hin as (r0 & Hin & [->| ->]).
  - now apply Hnew.
  - apply passedReview_setSent. now apply Hnew.
Qed.

Lemma processAll_invariant (runs : list (Services * GmailEmail.t)) :
  forall w, escalationInvariant w -> escalationInvariant (processAll runs w).
Proof.
  unfold processAll. induction runs as [|run runs IH]; intros w Hinv; simpl.
  - exact Hinv.
  - apply IH. now apply processEmail_preserves_invariant.
Qed.

(** C3. Every saved reply whose [escalated] flag is false passed the
    validator (valid, score at least 0.6) and has a confidence of at least
    0.7: this holds of the store after [processEmail] if it held before, hence
    of every store that runs of [processEmail] build from the empty one. On
    both paths of [generateResponse], generative and fallback, a reply that
    does not ask for escalation has a confidence of at least 0.7. *)
Theorem escalation_flag_invariant (sv : Services) (email : GmailEmail.t) (w : World) :
  escalationInvariant w ->
  escalationInvariant (snd (processEmail sv email w))
  /\ (forall runs, escalationInvariant (processAll runs emptyWorld))
  /\ (forall params r,
         generateResponse (runtime sv) params = Ok r -> shouldEscalate r = false ->
         (0.7 <= confidence r)%Q).
Proof.
  intros Hinv. split; [now apply processEmail_preserves_invariant|]. split.
  - intros runs. apply processAll_invariant. intros row [].
  - intros params r. apply generateResponse_threshold.
Qed.

Lemma processEmail_run (sv : Services) (email : GmailEmail.t) (w : World) :
  exists res w',
    processEmail sv email w = (Ok res, w')
    /\ ((res = alreadyProcessed /\ w' = w)
        \/ (exists orderData aiResponse,
               let body :=
                 if EmailProcessResult.escalated res then
                   response (generateFallbackResponse (runtime sv)
                               (generationParams sv email orderData None)
                               (T "escalation"))
                 else response aiResponse in
               EmailProcessResult.success res = true
               /\ trace w'
                  = trace w
                    ++ [EvCompletion getSystemPrompt
                          (buildPrompt (runtime sv)
                             (generationParams sv email orderData
                                (Some (T "Subject: " ++ GmailEmail.subject email))));
                        EvSendReply (GmailEmail.fromEmail email)
                          (T "Re: " ++ GmailEmail.subject email) body
                          (GmailEmail.threadId email)])).
Proof.
  destruct (persisted (GmailEmail.id email) w) eqn:Hw.
  - exists alreadyProcessed, w. split; [now apply processEmail_already|]. now left.
  - destruct (processEmail_fresh sv email w Hw) as (res & w' & Hrun & Hout).
    exists res, w'. split; [exact Hrun|].
    destruct Hout as (orderData & aiResponse & savedEmail & cid & rid & H).
    cbv zeta in H. destruct H as (_ & Ht & _ & _ & _ & ->).
    right. exists orderData, aiResponse. cbv zeta. split; [reflexivity|].
    rewrite Ht. unfold chooseFinalResponse. simpl EmailProcessResult.escalated.
    now destruct (escalationDecision aiResponse (validateResponse (response aiResponse))).
Qed.

Lemma processEmail_no_draft (sv : Services) (email : GmailEmail.t) (w : World) :
  exists evs,
    trace (snd (processEmail sv email w)) = trace w ++ evs
    /\ existsb isDraft evs = false.
Proof.
  destruct (processEmail_run sv email w) as (res & w' & Hrun & [[_ ->]|H]);
    rewrite Hrun; simpl.
  - exists []. now rewrite app_nil_r.
  - destruct H as (orderData & aiResponse & H). cbv zeta in H. destruct H as [_ Ht].
    eexists. split; [exact Ht|reflexivity].
Qed.

Lemma processAll_no_draft (runs : list (Services * GmailEmail.t)) :
  forall w, existsb isDraft (trace w) = false ->
            existsb isDraft (trace (processAll runs w)) = false.
Proof.
  unfold processAll. induction runs as [|run runs IH]; intros w Hw; simpl.
  - exact Hw.
  - apply IH.
    destruct (processEmail_no_draft (fst run) (snd run) w) as (evs & -> & Hevs).
    now rewrite existsb_app, Hw, Hevs.
Qed.

(** ** A run step by step *)

Lemma bind_inv {A B : Type} (m : M A) (k : A -> M B) (w w' : World) (b : B) :
  bind m k w = (Ok b, w') ->
  exists a w1, m w = (Ok a, w1) /\ k a w1 = (Ok b, w').
Proof.
  unfold bind. destruct (m w) as [[a|e] w1]; [|discriminate].
  intros H. now exists a, w1.
Qed.

Lemma fetchOrderData_inv sv orderNumber email w w' orderData :
  fetchOrderData sv orderNumber email w = (Ok orderData, w') -> w' = w.
Proof.
  unfold fetchOrderData, tryCatch, liftExc, ret.
  destruct (truthy orderNumber).
  - destruct (findOrderByNumber sv (render orderNumber)); now intros [= _ <-].
  - destruct (findOrdersByEmail sv (GmailEmail.fromEmail email)); now intros [= _ <-].
Qed.

(** The order lookup reads the services only. *)
Lemma fetchOrderData_anywhere sv orderNumber email w w' orderData :
  fetchOrderData sv orderNumber email w = (Ok orderData, w') ->
  forall w0, fetchOrderData sv orderNumber email w0 = (Ok orderData, w0).
Proof.
  unfold fetchOrderData, tryCatch, liftExc, ret.
  destruct (truthy orderNumber).
  - destruct (findOrderByNumber sv (render orderNumber)); now intros [= <- _] w0.
  - destruct (findOrdersByEmail sv (GmailEmail.fromEmail email)); now intros [= <- _] w0.
Qed.

Lemma conversation_update_trace id f w w' u :
  conversation_update id f w = (Ok u, w') -> trace w' = trace w.
Proof.
  unfold conversation_update. destruct (hasRow Db.convId id (conversations w));
    [|discriminate].
  now intros [= _ <-].
Qed.

Lemma customerEmail_create_trace email cid w w' r :
  customerEmail_create email cid w = (Ok r, w') -> trace w' = trace w.
Proof.
  unfold customerEmail_create. destruct (find _ (customerEmails w)); [discriminate|].
  now intros [= _ <-].
Qed.

Lemma ai_generateResponse_trace sv params w w' a :
  ai_generateResponse sv params w = (Ok a, w') ->
  generateResponse (runtime sv) params = Ok a
  /\ trace w' = trace w ++ [EvCompletion getSystemPrompt (buildPrompt (runtime sv) params)].
Proof.
  unfold ai_generateResponse, bind, emit, liftExc.
  destruct (generateResponse (runtime sv) params); [|discriminate].
  now intros [= <- <-].
Qed.

Lemma aIResponse_update_trace id f w w' u :
  aIResponse_update id f w = (Ok u, w') -> trace w' = trace w.
Proof.
  unfold aIResponse_update. destruct (hasRow Db.respId id (aiResponses w)); [|discriminate].
  now intros [= _ <-].
Qed.

Lemma customerEmail_update_trace id f w w' u :
  customerEmail_update id f w = (Ok u, w') -> trace w' = trace w.
Proof.
  unfold customerEmail_update. destruct (hasRow Db.ceId id (customerEmails w)); [|discriminate].
  now intros [= _ <-].
Qed.

(** Step 12, for either value of [shouldSendDirectly]. *)
Lemma delivery_trace sv (shouldSendDirectly : bool) to subject body threadId rid w w' u :
  (if shouldSendDirectly then
     emailSent <- gmail_sendReply sv to subject body threadId ;;
     if emailSent then aIResponse_update rid (setSent (now sv)) else ret tt
   else
     draftId <- gmail_createDraft sv to subject body threadId ;;
     ret tt) w = (Ok u, w') ->
  trace w'
  = trace w ++ [if shouldSendDirectly then EvSendReply to subject body threadId
                else EvCreateDraft to subject body threadId].
Proof.
  destruct shouldSendDirectly; intros H.
  - apply bind_inv in H. destruct H as (sent & w1 & H1 & H2).
    unfold gmail_sendReply, bind, emit, ret in H1. injection H1 as <- <-.
    destruct (sendReplyOutcome sv to subject body threadId).
    + apply aIResponse_update_trace in H2. exact H2.
    + unfold ret in H2. now injection H2 as _ <-.
  - unfold gmail_createDraft, bind, emit, ret in H. now injection H as _ <-.
Qed.

(** What a run on a message that is not in the store hands to the provider
    and to the mailbox, and what it reports. *)
Lemma processEmailTry_calls (sv : Services) (email : GmailEmail.t)
    (w w' : World) (res : EmailProcessResult.t) :
  persisted (GmailEmail.id email) w = false ->
  processEmailTry sv email w = (Ok res, w') ->
  exists orderData aiResponse,
    let params :=
      generationParams sv email orderData
        (Some (T "Subject: " ++ GmailEmail.subject email)) in
    let shouldEscalate :=
      escalationDecision aiResponse (validateResponse (response aiResponse)) in
    let final := chooseFinalResponse sv email orderData aiResponse shouldEscalate in
    fetchOrderData sv (extractOrderNumber (GmailEmail.body email)) email w
    = (Ok orderData, w)
    /\ generateResponse (runtime sv) params = Ok aiResponse
    /\ EmailProcessResult.success res = true
    /\ EmailProcessResult.escalated res = shouldEscalate
    /\ trace w'
       = trace w
         ++ [EvCompletion getSystemPrompt (buildPrompt (runtime sv) params);
             if sendDirectly shouldEscalate (snd final)
             then EvSendReply (GmailEmail.fromEmail email)
                    (T "Re: " ++ GmailEmail.subject email) (fst final)
                    (GmailEmail.threadId email)
             else EvCreateDraft (GmailEmail.fromEmail email)
                    (T "Re: " ++ GmailEmail.subject email) (fst final)
                    (GmailEmail.threadId email)].
Proof.
  unfold persisted. intros Hfresh Hrun.
  destruct (find _ (customerEmails w)) eqn:Hfind; [discriminate|]. clear Hfresh.
  unfold processEmailTry in Hrun.
  apply bind_inv in Hrun. destruct Hrun as (existing & w1 & H1 & Hrun).
  unfold customerEmail_findUnique in H1. injection H1 as <- <-. rewrite Hfind in Hrun.
  apply bind_inv in Hrun. destruct Hrun as (found & w1 & H1 & Hrun).
  unfold conversation_findFirst in H1. injection H1 as <- <-.
  apply bind_inv in Hrun. destruct Hrun as (conversation & w2 & H2 & Hrun).
  assert (Ht2 : trace w2 = trace w).
  { destruct (find _ (conversations w)).
    - unfold ret in H2. now injection H2 as _ <-.
    - unfold conversation_create in H2. now injection H2 as _ <-. }
  apply bind_inv in Hrun. destruct Hrun as (savedEmail & w3 & H3 & Hrun).
  apply customerEmail_create_trace in H3.
  apply bind_inv in Hrun. destruct Hrun as (u4 & w4 & H4 & Hrun).
  assert (Ht4 : trace w4 = trace w3).
  { destruct (truthy _ && negb _).
    - now apply conversation_update_trace in H4.
    - unfold ret in H4. now injection H4 as _ <-. }
  apply bind_inv in Hrun. destruct Hrun as (orderData & w5 & H5 & Hrun).
  pose proof (fetchOrderData_anywhere _ _ _ _ _ _ H5 w) as Hfetch.
  apply fetchOrderData_inv in H5. subst w5.
  apply bind_inv in Hrun. destruct Hrun as (aiResponse & w6 & H6 & Hrun).
  apply ai_generateResponse_trace in H6. destruct H6 as [Hgen Ht6].
  exists orderData, aiResponse. cbv zeta.
  destruct (chooseFinalResponse sv email orderData aiResponse _)
    as [finalResponse isIntelligentFallback].
  apply bind_inv in Hrun. destruct Hrun as (savedResponse & w7 & H7 & Hrun).
  unfold aIResponse_create in H7. injection H7 as <- <-.
  apply bind_inv in Hrun. destruct Hrun as (u8 & w8 & H8 & Hrun).
  apply delivery_trace in H8.
  apply bind_inv in Hrun. destruct Hrun as (u9 & w9 & H9 & Hrun).
  apply conversation_update_trace in H9.
  apply bind_inv in Hrun. destruct Hrun as (u10 & w10 & H10 & Hrun).
  apply customerEmail_update_trace in H10.
  unfold ret in Hrun. injection Hrun as <- <-.
  split; [exact Hfetch|]. split; [exact Hgen|]. split; [reflexivity|].
  split; [reflexivity|].
  rewrite H10, H9, H8. cbn [trace newAIResponse Db.responseText fst snd].
  rewrite Ht6, Ht4, H3, Ht2. now rewrite <- app_assoc.
Qed.

(** C2. A run of [processEmail] on a message that is already in the store
    does nothing. On any other message it calls the provider once and then
    [sendReply] once, and nothing else: the body of the reply is the
    intelligent fallback text, with [isIntelligentFallback] set, exactly
    when the combined escalation decision on the generated response is
    true, and the generated text otherwise. [createDraft] is not called in
    the run, nor in any series of runs from the empty store, because
    [shouldSendDirectly] is true whatever the decision. *)
Theorem processEmail_always_sends (sv : Services) (email : GmailEmail.t) (w : World) :
  exists res w',
    processEmail sv email w = (Ok res, w')
    /\ (persisted (GmailEmail.id email) w = true -> res = alreadyProcessed /\ w' = w)
    /\ (persisted (GmailEmail.id email) w = false ->
        exists orderData aiResponse,
          let params :=
            generationParams sv email orderData
              (Some (T "Subject: " ++ GmailEmail.subject email)) in
          let shouldEscalate :=
            escalationDecision aiResponse (validateResponse (response aiResponse)) in
          let final := chooseFinalResponse sv email orderData aiResponse shouldEscalate in
          fetchOrderData sv (extractOrderNumber (GmailEmail.body email)) email w
          = (Ok orderData, w)
          /\ generateResponse (runtime sv) params = Ok aiResponse
          /\ EmailProcessResult.success res = true
          /\ EmailProcessResult.escalated res = shouldEscalate
          /\ snd final = shouldEscalate
          /\ fst final
             = (if shouldEscalate then
                  response (generateFallbackResponse (runtime sv)
                              (generationParams sv email orderData None)
                              (T "escalation"))
                else response aiResponse)
          /\ trace w'
             = trace w
               ++ [EvCompletion getSystemPrompt (buildPrompt (runtime sv) params);
                   EvSendReply (GmailEmail.fromEmail email)
                     (T "Re: " ++ GmailEmail.subject email) (fst final)
                     (GmailEmail.threadId email)])
    /\ existsb isDraft (skipn (length (trace w)) (trace w')) = false
    /\ (forall runs, existsb isDraft (trace (processAll runs emptyWorld)) = false)
    /\ (forall orderData aiResponse shouldEscalate,
           sendDirectly shouldEscalate
             (snd (chooseFinalResponse sv email orderData aiResponse shouldEscalate))
           = true).
Proof.
  assert (Hrun : exists res w',
             processEmail sv email w = (Ok res, w')
             /\ (persisted (GmailEmail.id email) w = false ->
                 processEmailTry sv email w = (Ok res, w'))).
  { destruct (persisted (GmailEmail.id email) w) eqn:Hw.
    - exists alreadyProcessed, w. split; [now apply processEmail_already|discriminate].
    - destruct (processEmailTry_fresh sv email w Hw w eq_refl) as (res & w' & Hrun & _).
      exists res, w'. split; [|now intros _].
      unfold processEmail, tryCatch. now rewrite Hrun. }
  destruct Hrun as (res & w' & Hrun & Htry).
  exists res, w'. split; [exact Hrun|]. split; [|split; [|split; [|split]]].
  - intros Hw. rewrite (processEmail_already sv email w Hw) in Hrun.
    injection Hrun as <- <-. now split.
  - intros Hw.
    destruct (processEmailTry_calls sv email w w' res Hw (Htry Hw))
      as (orderData & aiResponse & H).
    exists orderData, aiResponse. cbv zeta in *.
    destruct H as (Hfetch & Hgen & Hok & Hesc & Ht).
    rewrite sendDirectly_always in Ht.
    repeat split; try assumption.
    + unfold chooseFinalResponse. now destruct (escalationDecision _ _).
    + unfold chooseFinalResponse. now destruct (escalationDecision _ _).
  - destruct (processEmail_no_draft sv email w) as (evs & Ht & Hevs).
    rewrite Hrun in Ht. simpl in Ht.
    now rewrite Ht, skipn_app, skipn_all, Nat.sub_diag.
  - intros runs. now apply processAll_no_draft.
  - intros. apply sendDirectly_always.
Qed.

(** ** Remarks on the edges of the claims *)

(** The matcher prefers the leftmost match and, there, the longest run. *)
Example exec_star_greedy :
  group1 (Seq (Chr (eqChar "#"%char)) (Cap (Plus isDigit))) (T "a #12 #345")
  = Some (T "12").
Proof. reflexivity. Qed.

(** A term inside a longer word is not matched by the lexicons. *)
Remark term_inside_a_word :
  let a := analyzeCustomerQuery (T "urgently unshipped disappointedly") in
  intent a = general_inquiry /\ urgency a = medium /\ requiresEscalation a = false.
Proof. vm_compute. auto. Qed.

(** The inline pattern of the classifier finds [order] inside a longer word
    and takes the next word for the number. *)
Remark order_inside_a_word :
  extractedOrder (analyzeCustomerQuery (T "the border patrol")) = Some (T "patrol").
Proof. reflexivity. Qed.

(** The scenario of the specification: a tracking request, one shipped order
    with FedEx tracking 123, the provider out of quota. *)
Remark fallback_tracking_scenario :
  exists r,
    generateResponse failingRuntime trackingParams = Ok r
    /\ includes (response r) (T "FedEx") = true
    /\ includes (response r) (T "123") = true
    /\ confidence r = 0.75%Q
    /\ modelUsed r = T "intelligent_fallback".
Proof. eexists. split; [reflexivity|]. vm_compute. auto. Qed.

(** The ends of the scale: nothing but penalties gives 0, and order data,
    perfect evidence and a tracking mention are cut down to 1. *)
Remark confidence_extremes :
  (calculateConfidence (T "[ {{ PLACEHOLDER") None None == 0)%Q
  /\ (calculateConfidence [] None None == 0.3)%Q
  /\ (calculateConfidence politeText (Some [sampleOrder])
        (Some [mkSimilar [] [] 1 []]) == 1)%Q.
Proof. repeat split. Qed.

(** The older copy of the fallback neither classifies nor grades: it always
    reports 0.6 and always escalates. *)
Remark legacy_fallback_constant (params : GenerateParams) (errorType : text) :
  let r := Legacy.generateFallbackResponse params errorType in
  confidence r = 0.6%Q /\ shouldEscalate r = true /\ modelUsed r = T "fallback"
  /\ tokensUsed r = 0.
Proof. cbv zeta. repeat split. Qed.

(** ** The theorems at concrete inputs *)

Lemma generateResponse_total_witness :
  chatCompletion failingRuntime getSystemPrompt (buildPrompt failingRuntime complaintParams)
  = Throw quotaError
  /\ generateResponse failingRuntime complaintParams
     = Ok (generateFallbackResponse failingRuntime complaintParams (failureClass quotaError))
  /\ In (failureClass quotaError) failureClasses.
Proof.
  split; [reflexivity|].
  apply (proj1 (proj2 (generateResponse_total failingRuntime complaintParams)) quotaError).
  reflexivity.
Defined.

Lemma processEmail_always_sends_witness :
  persisted (GmailEmail.id complaintEmail) sampleStore = false
  /\ exists res w' prompt body,
       processEmail (servicesWith failingRuntime) complaintEmail sampleStore = (Ok res, w')
       /\ trace w'
          = trace sampleStore
            ++ [EvCompletion getSystemPrompt prompt;
                EvSendReply (T "david@example.com") (T "Re: Complaint") body (T "thread-2")]
       /\ existsb isDraft (skipn (length (trace sampleStore)) (trace w')) = false.
Proof.
  split; [reflexivity|].
  destruct (processEmail_always_sends (servicesWith failingRuntime) complaintEmail sampleStore)
    as (res & w' & Hrun & _ & Hsend & Hdraft & _).
  destruct (Hsend eq_refl) as (orderData & aiResponse & H). cbv zeta in H.
  destruct H as (_ & _ & _ & _ & _ & _ & Ht).
  exists res, w'. eexists _, _. split; [exact Hrun|]. split; [exact Ht|exact Hdraft].
Defined.

Lemma escalation_flag_invariant_witness :
  escalationInvariant sampleStore
  /\ escalationInvariant
       (snd (processEmail (servicesWith failingRuntime) complaintEmail sampleStore)).
Proof.
  assert (H : escalationInvariant sampleStore).
  { intros row Hin Hesc. vm_compute in Hin. destruct Hin as [<-|[]].
    unfold passedReview. vm_compute. repeat split; discriminate. }
  split; [exact H|].
  apply (proj1 (escalation_flag_invariant (servicesWith failingRuntime) complaintEmail
                  sampleStore H)).
Defined.

Lemma fallback_confidence_and_escalation_witness :
  chatCompletion failingRuntime getSystemPrompt (buildPrompt failingRuntime complaintParams)
  = Throw quotaError
  /\ let a := analyzeCustomerQuery (customerQuery complaintParams) in
     exists r,
       generateResponse failingRuntime complaintParams = Ok r
       /\ confidence r = baseConfidence (intent a)
       /\ shouldEscalate r = requiresEscalation a || Qltb (confidence r) 0.7
       /\ modelUsed r = T "intelligent_fallback"
       /\ (intent a = return_refund \/ intent a = complaint_issue ->
           shouldEscalate r = true).
Proof.
  split; [reflexivity|].
  apply (fallback_confidence_and_escalation failingRuntime complaintParams quotaError).
  reflexivity.
Defined.

Lemma complaint_and_urgency_precedence_witness :
  occursAsWord (T "shipped") (toLowerCase complaintQuery)
  /\ occursAsWord (T "disappointed") (toLowerCase complaintQuery)
  /\ occursAsWord (T "urgent") (toLowerCase complaintQuery)
  /\ intent (analyzeCustomerQuery complaintQuery) = complaint_issue
  /\ urgency (analyzeCustomerQuery complaintQuery) = high
  /\ requiresEscalation (analyzeCustomerQuery complaintQuery) = true.
Proof.
  assert (H1 : occursAsWord (T "shipped") (toLowerCase complaintQuery)).
  { exists (T "it "), (T " but i am disappointed, this is urgent"). repeat split. }
  assert (H2 : occursAsWord (T "disappointed") (toLowerCase complaintQuery)).
  { exists (T "it shipped but i am "), (T ", this is urgent"). repeat split. }
  assert (H3 : occursAsWord (T "urgent") (toLowerCase complaintQuery)).
  { exists (T "it shipped but i am disappointed, this is "), []. repeat split. }
  destruct (complaint_and_urgency_precedence complaintQuery) as [Hc Hu].
  destruct (Hc (T "shipped") (T "disappointed")) as (_ & Hi & _ & _);
    [do 5 right; now left|do 3 right; now left|exact H1|exact H2|].
  destruct (Hu (T "urgent")) as (Hur & Hre); [now left|exact H3|].
  repeat split; assumption.
Defined.

Lemma orderNumber_extraction_witness :
  includes (T "hello there") (T "#") = false
  /\ includes (toLowerCase (T "hello there")) (T "order") = false
  /\ extractedOrder (analyzeCustomerQuery (T "hello there")) = None
  /\ extractOrderNumber (T "hello there") = None
  /\ extractOrderNumber (T "order number 1001 please") = Some (T "1001")
  /\ isNumber (T "1001").
Proof.
  split; [reflexivity|]. split; [reflexivity|].
  destruct (proj2 (proj2 orderNumber_extraction) (T "hello there") eq_refl eq_refl)
    as (H1 & H2).
  split; [exact H1|]. split.
  - apply H2. intros Hn. apply standalone_pattern_iff in Hn. discriminate Hn.
  - split; [reflexivity|].
    apply (proj1 (proj2 orderNumber_extraction) (T "order number 1001 please")).
    reflexivity.
Defined.

Lemma validateResponse_spec_witness :
  length shortText = 20
  /\ isValid (validateResponse shortText) = false
  /\ length trackingText = 200
  /\ includes trackingText (T "[TRACKING]") = true
  /\ isValid (validateResponse trackingText) = false.
Proof.
  destruct (validateResponse_spec shortText) as (_ & _ & _ & _ & _ & H20 & _).
  destruct (validateResponse_spec trackingText) as (_ & _ & _ & _ & _ & _ & H200).
  split; [reflexivity|]. split; [now apply H20|].
  split; [reflexivity|]. split; [reflexivity|].
  apply H200; reflexivity.
Defined.

Lemma processEmail_idempotent_witness :
  persisted (GmailEmail.id sampleEmail) sampleStore = true
  /\ processEmail (servicesWith workingRuntime) sampleEmail sampleStore
     = (Ok alreadyProcessed, sampleStore).
Proof.
  split; [reflexivity|].
  apply (proj1 (processEmail_idempotent (servicesWith workingRuntime) sampleEmail
                  sampleStore)).
  reflexivity.
Defined.

Lemma valid_score_at_least_07_witness :
  isValid (validateResponse politeText) = true
  /\ (0.7 <= score (validateResponse politeText))%Q.
Proof.
  split; [reflexivity|].
  apply (proj1 (valid_score_at_least_07 politeText
                  (generateFallbackResponse failingRuntime complaintParams []))).
  reflexivity.
Defined.

(** * The code around the core: theorems *)

(** ** processUnreadEmails *)

Lemma processEmail_returns (sv : Services) (email : GmailEmail.t) (w : World) :
  exists res, processEmail sv email w = (Ok res, snd (processEmail sv email w))
              /\ EmailProcessResult.success res = true.
Proof.
  destruct (processEmail_run sv email w) as (res & w' & Hrun & Hcases).
  exists res. rewrite Hrun. split; [reflexivity|].
  destruct Hcases as [[-> _]|(orderData & aiResponse & H)]; [reflexivity|].
  cbv zeta in H. now destruct H.
Qed.

Lemma find_app_some {A : Type} (p : A -> bool) (rows more : list A) :
  find p rows <> None -> find p (rows ++ more) <> None.
Proof.
  induction rows as [|x rows IH]; simpl; [congruence|].
  destruct (p x); [discriminate|exact IH].
Qed.

(** A message that is in the store stays there. *)
Lemma persisted_kept (sv : Services) (email : GmailEmail.t) (w : World) (id : text) :
  persisted id w = true -> persisted id (snd (processEmail sv email w)) = true.
Proof.
  intros Hid.
  destruct (persisted (GmailEmail.id email) w) eqn:Hw.
  - now rewrite (processEmail_already sv email w Hw).
  - destruct (processEmail_fresh sv email w Hw) as (res & w' & Hrun & Hout).
    rewrite Hrun. simpl.
    destruct Hout as (orderData & aiResponse & savedEmail & cid & rid & H).
    cbv zeta in H. destruct H as (_ & _ & _ & Hce & _).
    unfold persisted in *. rewrite Hce.
    destruct (find _ (updateRows _ _ _ _)) eqn:Hfind; [reflexivity|].
    exfalso. revert Hfind. apply find_updateRows; [now intros r|].
    apply find_app_some. destruct (find _ (customerEmails w)); [discriminate|discriminate].
Qed.

Lemma persisted_after (sv : Services) (email : GmailEmail.t) (w : World) :
  persisted (GmailEmail.id email) (snd (processEmail sv email w)) = true.
Proof.
  destruct (persisted (GmailEmail.id email) w) eqn:Hw.
  - now apply persisted_kept.
  - destruct (processEmail_fresh sv email w Hw) as (res & w' & Hrun & Hout).
    rewrite Hrun. simpl. now apply (Outcome_persisted sv email w res w').
Qed.

Lemma countResult_counts (emailId : text) (result : EmailProcessResult.t)
    (results : ProcessedEmailResults.t) :
  let r' := countResult emailId result results in
  ProcessedEmailResults.totalProcessed r' = ProcessedEmailResults.totalProcessed results
  /\ ProcessedEmailResults.successful r' + ProcessedEmailResults.failed r'
     = S (ProcessedEmailResults.successful results + ProcessedEmailResults.failed results)
  /\ (ProcessedEmailResults.escalated results <= ProcessedEmailResults.successful results ->
      ProcessedEmailResults.escalated r' <= ProcessedEmailResults.successful r')
  /\ (length (ProcessedEmailResults.errors results) = ProcessedEmailResults.failed results ->
      length (ProcessedEmailResults.errors r') = ProcessedEmailResults.failed r').
Proof.
  unfold countResult.
  destruct (EmailProcessResult.success result), (EmailProcessResult.escalated result);
    simpl; repeat split; try lia; intros H; rewrite ?length_app; simpl; lia.
Qed.

Lemma processLoop_spec (sv : Services) (emails : list GmailEmail.t) :
  forall results ib,
    let out := processLoop sv emails results ib in
    ProcessedEmailResults.totalProcessed (fst out)
    = ProcessedEmailResults.totalProcessed results
    /\ ProcessedEmailResults.successful (fst out) + ProcessedEmailResults.failed (fst out)
       = ProcessedEmailResults.successful results + ProcessedEmailResults.failed results
         + length emails
    /\ (ProcessedEmailResults.escalated results <= ProcessedEmailResults.successful results ->
        ProcessedEmailResults.escalated (fst out)
        <= ProcessedEmailResults.successful (fst out))
    /\ (length (ProcessedEmailResults.errors results) = ProcessedEmailResults.failed results ->
        length (ProcessedEmailResults.errors (fst out))
        = ProcessedEmailResults.failed (fst out))
    /\ markAsReadCalls (snd out) = markAsReadCalls ib ++ map GmailEmail.id emails
    /\ store (snd out) = processAll (map (pair sv) emails) (store ib).
Proof.
  induction emails as [|email emails IH]; intros results ib; cbv zeta.
  - simpl. rewrite app_nil_r. repeat split; auto; lia.
  - simpl processLoop.
    destruct (processEmail_returns sv email (store ib)) as (res & Hrun & _).
    rewrite Hrun.
    destruct (countResult_counts (GmailEmail.id email) res results) as (Ht & Hs & He & Hr).
    specialize (IH (countResult (GmailEmail.id email) res results)
                  (mkInbox (snd (processEmail sv email (store ib)))
                     (markAsReadCalls ib ++ [GmailEmail.id email]))).
    cbv zeta in IH. destruct IH as (It & Is & Ie & Ir & Im & Iw).
    split; [congruence|]. split; [simpl length; lia|].
    split; [auto|]. split; [auto|]. split.
    + rewrite Im. simpl. now rewrite <- app_assoc.
    + rewrite Iw. reflexivity.
Qed.

(** X1. [processUnreadEmails]: when the listing fails, nothing is processed and
    the error is "Failed to process unread emails"; otherwise every fetched
    message is counted once, as successful or failed, escalated ones among the
    successful, one error entry per failure, [markAsRead] is called once for
    every message in order, and the store is the one the successive runs of
    [processEmail] build. *)
Theorem processUnreadEmails_accounting (sv : Services) (mb : Mailbox) (ib : Inbox) :
  match getUnreadEmails mb 10 with
  | Throw _ =>
      processUnreadEmails sv mb ib
      = (Throw (mkError None None (T "Failed to process unread emails")), ib)
  | Ok unreadEmails =>
      exists results ib',
        processUnreadEmails sv mb ib = (Ok results, ib')
        /\ ProcessedEmailResults.totalProcessed results = length unreadEmails
        /\ ProcessedEmailResults.successful results + ProcessedEmailResults.failed results
           = ProcessedEmailResults.totalProcessed results
        /\ ProcessedEmailResults.escalated results
           <= ProcessedEmailResults.successful results
        /\ length (ProcessedEmailResults.errors results)
           = ProcessedEmailResults.failed results
        /\ markAsReadCalls ib' = markAsReadCalls ib ++ map GmailEmail.id unreadEmails
        /\ store ib' = processAll (map (pair sv) unreadEmails) (store ib)
  end.
Proof.
  unfold processUnreadEmails.
  destruct (getUnreadEmails mb 10) as [unreadEmails|error]; [|reflexivity].
  pose proof (processLoop_spec sv unreadEmails
                (ProcessedEmailResults.mk (length unreadEmails) 0 0 0 []) ib) as H.
  cbv zeta in H.
  destruct (processLoop sv unreadEmails _ ib) as [results ib'].
  simpl in H. destruct H as (Ht & Hs & He & Hr & Hm & Hw).
  exists results, ib'. split; [reflexivity|].
  split; [exact Ht|]. split; [lia|]. split; [apply He; lia|].
  split; [now apply Hr|]. split; [exact Hm|exact Hw].
Qed.

Lemma processAll_app runs1 runs2 w :
  processAll (runs1 ++ runs2) w = processAll runs2 (processAll runs1 w).
Proof. unfold processAll. apply fold_left_app. Qed.

Lemma processAll_persisted_kept runs : forall w id,
  persisted id w = true -> persisted id (processAll runs w) = true.
Proof.
  unfold processAll. induction runs as [|run runs IH]; intros w id H; simpl.
  - exact H.
  - apply IH. now apply persisted_kept.
Qed.

Lemma processAll_persists (sv : Services) (emails : list GmailEmail.t) :
  forall w email, In email emails ->
    persisted (GmailEmail.id email) (processAll (map (pair sv) emails) w) = true.
Proof.
  induction emails as [|e emails IH]; intros w email Hin; [contradiction|].
  destruct Hin as [->|Hin].
  - simpl. apply (processAll_persisted_kept (map (pair sv) emails)).
    apply persisted_after.
  - simpl. now apply IH.
Qed.

(** The loop over messages that are all in the store: nothing is written,
    every message counts as successful and none as escalated. *)
Lemma processLoop_seen (sv : Services) (emails : list GmailEmail.t) :
  forall results ib,
    (forall email, In email emails -> persisted (GmailEmail.id email) (store ib) = true) ->
    processLoop sv emails results ib
    = (ProcessedEmailResults.mk
         (ProcessedEmailResults.totalProcessed results)
         (ProcessedEmailResults.successful results + length emails)
         (ProcessedEmailResults.escalated results)
         (ProcessedEmailResults.failed results)
         (ProcessedEmailResults.errors results),
       mkInbox (store ib) (markAsReadCalls ib ++ map GmailEmail.id emails)).
Proof.
  induction emails as [|email emails IH]; intros results ib Hseen.
  - simpl. rewrite app_nil_r, Nat.add_0_r. now destruct results, ib.
  - simpl processLoop.
    rewrite (processEmail_already sv email (store ib)) by (apply Hseen; now left).
    rewrite IH by (intros e He; apply Hseen; now right).
    simpl. rewrite <- app_assoc. simpl. f_equal. f_equal. lia.
Qed.

(** X2. Running [processUnreadEmails] again on the same unread messages (they
    stay unread when [markAsRead] fails) writes nothing: the store is
    unchanged, every message is reported successful, none escalated or
    failed. *)
Theorem processUnreadEmails_again (sv sv' : Services) (mb : Mailbox) (ib : Inbox)
    (unreadEmails : list GmailEmail.t) :
  getUnreadEmails mb 10 = Ok unreadEmails ->
  let ib1 := snd (processUnreadEmails sv mb ib) in
  processUnreadEmails sv' mb ib1
  = (Ok (ProcessedEmailResults.mk (length unreadEmails) (length unreadEmails) 0 0 []),
     mkInbox (store ib1) (markAsReadCalls ib1 ++ map GmailEmail.id unreadEmails)).
Proof.
  intros Hget. cbv zeta.
  assert (Hstore : store (snd (processUnreadEmails sv mb ib))
                   = processAll (map (pair sv) unreadEmails) (store ib)).
  { unfold processUnreadEmails. rewrite Hget.
    pose proof (processLoop_spec sv unreadEmails
                  (ProcessedEmailResults.mk (length unreadEmails) 0 0 0 []) ib) as H.
    cbv zeta in H. destruct (processLoop sv unreadEmails _ ib) as [results ib'].
    simpl in *. now destruct H as (_ & _ & _ & _ & _ & Hw). }
  revert Hstore. generalize (snd (processUnreadEmails sv mb ib)). intros ib1 Hstore.
  unfold processUnreadEmails. rewrite Hget.
  rewrite processLoop_seen.
  - reflexivity.
  - intros email Hin. rewrite Hstore. now apply processAll_persists.
Qed.

(** ** The historical responses *)

Lemma eqText_true_iff (a b : text) : eqText a b = true <-> a = b.
Proof.
  split.
  - revert b. induction a as [|x a IH]; intros [|y b] H; simpl in H;
      try discriminate; [reflexivity|].
    apply andb_true_iff in H. destruct H as [Hxy H].
    apply eqChar_true_iff in Hxy. subst y. f_equal. now apply IH.
  - intros ->. apply eqText_refl.
Qed.

Lemma eqText_sym (a b : text) : eqText a b = eqText b a.
Proof.
  destruct (eqText a b) eqn:H.
  - apply eqText_true_iff in H. subst. symmetry. apply eqText_refl.
  - destruct (eqText b a) eqn:H'; [|reflexivity].
    apply eqText_true_iff in H'. subst. now rewrite eqText_refl in H.
Qed.

Lemma load_snoc dateOf responses r table :
  loadHistoricalResponsesSimple dateOf (responses ++ [r]) table
  = historicalResponse_upsert dateOf r
      (loadHistoricalResponsesSimple dateOf responses table).
Proof. unfold loadHistoricalResponsesSimple. now rewrite fold_left_app. Qed.

Lemma upsert_ids dateOf r table :
  map History.rowId (historicalResponse_upsert dateOf r table)
  = if existsb (fun row => eqText (History.rowId row) (History.id r)) table
    then map History.rowId table
    else map History.rowId table ++ [History.id r].
Proof.
  unfold historicalResponse_upsert.
  destruct (existsb _ table).
  - rewrite map_map. apply map_ext. intros row.
    now destruct (eqText (History.rowId row) (History.id r)).
  - now rewrite map_app.
Qed.

Lemma existsb_rowId (id : text) (table : list History.Row) :
  existsb (fun row => eqText (History.rowId row) id) table = true
  <-> In id (map History.rowId table).
Proof.
  rewrite existsb_exists, in_map_iff. split.
  - intros (row & Hin & H). apply eqText_true_iff in H. now exists row.
  - intros (row & H & Hin). exists row. split; [exact Hin|]. now apply eqText_true_iff.
Qed.

(** X3. The primary key is kept: loading a batch into a table with distinct
    ids leaves a table with distinct ids; no row is removed and at most one
    row is added per response. *)
Theorem load_keeps_ids_distinct (dateOf : text -> nat)
    (responses : list History.HistoricalResponse) (table : list History.Row) :
  NoDup (map History.rowId table) ->
  let table' := loadHistoricalResponsesSimple dateOf responses table in
  NoDup (map History.rowId table')
  /\ length table <= length table' <= length table + length responses
  /\ (forall id, In id (map History.rowId table) -> In id (map History.rowId table')).
Proof.
  cbv zeta. revert table.
  induction responses as [|r responses IH] using rev_ind; intros table Hnd.
  - simpl. repeat split; auto; lia.
  - rewrite load_snoc. destruct (IH table Hnd) as (Hnd' & Hlen & Hin).
    set (t1 := loadHistoricalResponsesSimple dateOf responses table) in *.
    pose proof (upsert_ids dateOf r t1) as Hids.
    assert (Hl : length (historicalResponse_upsert dateOf r t1)
                 = length (map History.rowId (historicalResponse_upsert dateOf r t1)))
      by now rewrite length_map.
    destruct (existsb _ t1) eqn:Hex; rewrite Hids in *.
    + rewrite length_map in Hl. rewrite length_app. simpl. rewrite Hl.
      repeat split; auto; lia.
    + rewrite length_app, length_map in Hl. rewrite length_app. simpl in *. rewrite Hl.
      split; [|split; [lia|]].
      * apply NoDup_app; [exact Hnd'|repeat constructor; intros []|].
        intros id Hid [<-|[]].
        apply existsb_rowId in Hid. congruence.
      * intros id Hid. apply in_or_app. left. now apply Hin.
Qed.

Lemma find_map_update (id id' : text) (f : History.Row -> History.Row)
    (table : list History.Row) :
  (forall row, History.rowId (f row) = History.rowId row) ->
  find (fun row => eqText (History.rowId row) id)
    (map (fun row => if eqText (History.rowId row) id' then f row else row) table)
  = option_map (fun row => if eqText (History.rowId row) id' then f row else row)
      (find (fun row => eqText (History.rowId row) id) table).
Proof.
  intros Hf. induction table as [|row table IH]; simpl; [reflexivity|].
  destruct (eqText (History.rowId row) id') eqn:E.
  - rewrite Hf. destruct (eqText (History.rowId row) id); simpl; [now rewrite E|exact IH].
  - destruct (eqText (History.rowId row) id); simpl; [now rewrite E|exact IH].
Qed.

Lemma find_none_existsb {A : Type} (p : A -> bool) (l : list A) :
  existsb p l = false -> find p l = None.
Proof.
  induction l as [|x l IH]; simpl; [reflexivity|].
  destruct (p x); simpl; [discriminate|exact IH].
Qed.

Lemma find_app {A : Type} (p : A -> bool) (l l' : list A) :
  find p (l ++ l') = match find p l with Some x => Some x | None => find p l' end.
Proof.
  induction l as [|x l IH]; simpl; [reflexivity|].
  destruct (p x); [reflexivity|exact IH].
Qed.

Lemma lookup_upsert dateOf r table id :
  lookupResponse id (historicalResponse_upsert dateOf r table)
  = if eqText (History.id r) id then Some (contentOf r) else lookupResponse id table.
Proof.
  unfold lookupResponse, historicalResponse_upsert.
  destruct (existsb _ table) eqn:Hex.
  - rewrite find_map_update by reflexivity.
    destruct (find (fun row => eqText (History.rowId row) id) table) as [row|] eqn:Hf; simpl.
    + apply find_some in Hf. destruct Hf as [_ Hid]. apply eqText_true_iff in Hid.
      rewrite Hid. rewrite (eqText_sym id (History.id r)).
      now destruct (eqText (History.id r) id).
    + destruct (eqText (History.id r) id) eqn:E; [|reflexivity].
      apply eqText_true_iff in E. subst id.
      apply existsb_exists in Hex. destruct Hex as (row & Hin & Hrow).
      now rewrite (find_none _ _ Hf row Hin) in Hrow.
  - rewrite find_app.
    destruct (find (fun row => eqText (History.rowId row) id) table) as [row|] eqn:Hf.
    + simpl. destruct (eqText (History.id r) id) eqn:E; [|reflexivity].
      apply eqText_true_iff in E. subst id.
      rewrite (find_none_existsb _ _ Hex) in Hf. discriminate.
    + simpl. now destruct (eqText (History.id r) id).
Qed.

(** X4. Lookup after load: the content found under an id is that of the last
    response of the batch with this id, and what the table held before when
    the batch has none. *)
Theorem load_then_lookup (dateOf : text -> nat)
    (responses : list History.HistoricalResponse) (table : list History.Row)
    (id : text) :
  lookupResponse id (loadHistoricalResponsesSimple dateOf responses table)
  = match lastResponse id responses with
    | Some r => Some (contentOf r)
    | None => lookupResponse id table
    end.
Proof.
  unfold lastResponse.
  induction responses as [|r responses IH] using rev_ind.
  - reflexivity.
  - rewrite load_snoc, lookup_upsert, rev_app_distr. simpl.
    destruct (eqText (History.id r) id); [reflexivity|exact IH].
Qed.

Lemma lastResponse_snoc (id : text) (responses : list History.HistoricalResponse)
    (r : History.HistoricalResponse) :
  lastResponse id (responses ++ [r])
  = if eqText (History.id r) id then Some r else lastResponse id responses.
Proof. unfold lastResponse. rewrite rev_app_distr. reflexivity. Qed.

Lemma in_upsert dateOf r table row :
  In row (historicalResponse_upsert dateOf r table) ->
  (eqText (History.rowId row) (History.id r) = true /\ rowContent row = contentOf r)
  \/ (eqText (History.rowId row) (History.id r) = false /\ In row table).
Proof.
  unfold historicalResponse_upsert.
  destruct (existsb _ table) eqn:Hex; intros Hin.
  - apply in_map_iff in Hin. destruct Hin as (row1 & <- & Hin1).
    destruct (eqText (History.rowId row1) (History.id r)) eqn:E.
    + left. simpl. now rewrite E.
    + right. now rewrite E.
  - apply in_app_or in Hin. destruct Hin as [Hin|[<-|[]]].
    + right. split; [|exact Hin].
      destruct (eqText (History.rowId row) (History.id r)) eqn:E; [|reflexivity].
      assert (existsb (fun row => eqText (History.rowId row) (History.id r)) table = true)
        by (apply existsb_exists; now exists row).
      congruence.
    + left. simpl. now rewrite eqText_refl.
Qed.

Lemma load_rows_settled dateOf responses table row r :
  In row (loadHistoricalResponsesSimple dateOf responses table) ->
  lastResponse (History.rowId row) responses = Some r ->
  rowContent row = contentOf r.
Proof.
  revert row r. induction responses as [|r0 responses IH] using rev_ind; intros row r.
  - discriminate.
  - rewrite load_snoc, lastResponse_snoc. intros Hin Hlast.
    apply in_upsert in Hin. rewrite (eqText_sym (History.id r0)) in Hlast.
    destruct Hin as [[E Hc]|[E Hin]]; rewrite E in Hlast.
    + now injection Hlast as <-.
    + now apply IH.
Qed.

Lemma load_holds_ids dateOf responses table r :
  In r responses ->
  In (History.id r) (map History.rowId (loadHistoricalResponsesSimple dateOf responses table)).
Proof.
  induction responses as [|r0 responses IH] using rev_ind; [intros []|].
  intros Hin. rewrite load_snoc, upsert_ids.
  set (t1 := loadHistoricalResponsesSimple dateOf responses table) in *.
  apply in_app_or in Hin.
  destruct (existsb _ t1) eqn:Hex.
  - destruct Hin as [Hin|[<-|[]]]; [now apply IH|now apply existsb_rowId].
  - apply in_or_app. destruct Hin as [Hin|[<-|[]]]; [left; now apply IH|right; now left].
Qed.

Lemma settle_id responses row : History.rowId (settle responses row) = History.rowId row.
Proof. unfold settle. now destruct (lastResponse _ responses). Qed.

Lemma load_settles dateOf responses table :
  (forall r, In r responses -> In (History.id r) (map History.rowId table)) ->
  loadHistoricalResponsesSimple dateOf responses table = map (settle responses) table.
Proof.
  induction responses as [|r0 responses IH] using rev_ind; intros Hids.
  - simpl. symmetry. unfold settle. simpl. apply map_id.
  - rewrite load_snoc, IH by (intros r Hr; apply Hids, in_or_app; now left).
    unfold historicalResponse_upsert.
    assert (Hex : existsb (fun row => eqText (History.rowId row) (History.id r0))
                    (map (settle responses) table) = true).
    { apply existsb_rowId. rewrite map_map.
      erewrite map_ext by (intros; apply settle_id).
      apply Hids, in_or_app. right. now left. }
    rewrite Hex, map_map. apply map_ext. intros row.
    rewrite settle_id. unfold settle. rewrite lastResponse_snoc.
    rewrite (eqText_sym (History.id r0)).
    destruct (eqText (History.rowId row) (History.id r0)); [|reflexivity].
    now destruct (lastResponse (History.rowId row) responses).
Qed.

(** X5. Loading the same batch again changes nothing: a second load of the
    batch leaves every row, its place, its embedding and its creation date
    as the first load left them, also when ids repeat in the batch or in the
    table. *)
Theorem load_idempotent (dateOf dateOf' : text -> nat)
    (responses : list History.HistoricalResponse) (table : list History.Row) :
  loadHistoricalResponsesSimple dateOf' responses
    (loadHistoricalResponsesSimple dateOf responses table)
  = loadHistoricalResponsesSimple dateOf responses table.
Proof.
  rewrite load_settles by (intros r Hr; now apply load_holds_ids).
  rewrite <- (map_id (loadHistoricalResponsesSimple dateOf responses table)) at 2.
  apply map_ext_in. intros row Hin. unfold settle.
  destruct (lastResponse (History.rowId row) responses) as [r|] eqn:Hlast; [|reflexivity].
  pose proof (load_rows_settled _ _ _ _ _ Hin Hlast) as Hc.
  destruct row. unfold rowContent, contentOf in Hc. simpl in *. congruence.
Qed.

(** X6. Initialisation seeds the table once: whatever the initialisation of
    the retrieval service did, a table with rows is left as it is, an empty
    table receives the five samples "sample-1" to "sample-5", and a second
    initialisation changes nothing. *)
Theorem initialize_seeds_once (ragInitialize ragInitialize' : Exc unit)
    (nowIso nowIso' : text) (dateOf dateOf' : text -> nat)
    (table : list History.Row) :
  let table' := initialize ragInitialize nowIso dateOf table in
  (table <> [] -> table' = table)
  /\ (table = [] ->
      map History.rowId table'
      = [T "sample-1"; T "sample-2"; T "sample-3"; T "sample-4"; T "sample-5"])
  /\ initialize ragInitialize' nowIso' dateOf' table' = table'.
Proof.
  cbv zeta.
  assert (Hne : forall rI now d t, t <> [] -> initialize rI now d t = t).
  { intros rI now d [|row t] H; [now elim H|]. now destruct rI. }
  assert (Hempty : map History.rowId (initialize ragInitialize nowIso dateOf [])
                   = [T "sample-1"; T "sample-2"; T "sample-3"; T "sample-4"; T "sample-5"]).
  { now destruct ragInitialize. }
  split; [apply Hne|]. split; [now intros ->|].
  apply Hne. destruct table as [|row t].
  - intros H. rewrite H in Hempty. discriminate.
  - rewrite Hne by discriminate. discriminate.
Qed.

(** ** Retrieval *)

Lemma keepSimilar_in (candidates : list Rag.Candidate) (r : Rag.SimilarResponse) :
  In r (RAGService.keepSimilar candidates) <->
  exists c, In c candidates /\ Rag.meta c = Rag.source r
            /\ Rag.candidateSimilarity c = Some (Rag.similarity r)
            /\ (0.5 < Rag.similarity r)%Q.
Proof.
  induction candidates as [|c cs IH]; simpl.
  - split; [intros []|intros (c & [] & _)].
  - destruct (Rag.candidateSimilarity c) as [s|] eqn:Hs.
    + destruct (Qltb 0.5 s) eqn:Hlt.
      * simpl. rewrite IH. split.
        -- intros [<-|(c' & Hin & H)].
           ++ exists c. simpl. apply Qltb_true_iff in Hlt. auto.
           ++ exists c'. auto.
        -- intros (c' & [<-|Hin] & Hm & Hsim & Hgt).
           ++ left. destruct r. simpl in *. congruence.
           ++ right. now exists c'.
      * rewrite IH. split.
        -- intros (c' & Hin & H). exists c'. auto.
        -- intros (c' & [<-|Hin] & Hm & Hsim & Hgt).
           ++ rewrite Hs in Hsim. injection Hsim as ->.
              apply Qltb_true_iff in Hgt. congruence.
           ++ now exists c'.
    + rewrite IH. split.
      * intros (c' & Hin & H). exists c'. auto.
      * intros (c' & [<-|Hin] & Hm & Hsim & Hgt); [congruence|now exists c'].
Qed.

Lemma collectCandidates_in docs metadatas0 distances0 i candidates c :
  RAGService.collectCandidates docs metadatas0 distances0 i = Ok candidates ->
  In c candidates ->
  exists ms ds j,
    metadatas0 = Some ms /\ distances0 = Some ds /\ i <= j < i + length docs
    /\ nth_error ms j = Some (Some (Rag.meta c))
    /\ Rag.candidateSimilarity c
       = option_map (fun distance => 1 - distance)%Q (nth_error ds j).
Proof.
  revert i candidates. induction docs as [|doc docs IH]; intros i candidates; simpl.
  - intros [= <-] [].
  - destruct metadatas0 as [ms|]; [|discriminate].
    destruct distances0 as [ds|]; [|discriminate].
    destruct (nth_error ms i) as [[metadata|]|] eqn:Hm; try discriminate.
    destruct (RAGService.collectCandidates docs (Some ms) (Some ds) (S i))
      as [rest|e] eqn:Hrest; [|discriminate].
    intros [= <-] [<-|Hin].
    + exists ms, ds, i. simpl. repeat split; auto; lia.
    + destruct (IH _ _ Hrest Hin) as (ms' & ds' & j & [= <-] & [= <-] & Hj & H).
      exists ms, ds, j. repeat split; try tauto; lia.
Qed.

(** X7. Only close matches come back from the search: every returned
    response stems from an entry of the query result whose distance is
    below 0.5, its similarity is 1 minus that distance and exceeds 0.5. *)
Theorem searchSimilarResponses_threshold
    (query : text -> nat -> Exc Rag.QueryResult) (customerQuery : text)
    (numResults : nat) (r : Rag.SimilarResponse) :
  In r (RAGService.searchSimilarResponses query customerQuery numResults) ->
  exists results docs ms ds i distance,
    query customerQuery numResults = Ok results
    /\ option_map (fun d => nth_error d 0) (Rag.documents results) = Some (Some docs)
    /\ option_map (fun m => nth_error m 0) (Rag.metadatas results) = Some (Some ms)
    /\ option_map (fun d => nth_error d 0) (Rag.distances results) = Some (Some ds)
    /\ i < length docs
    /\ nth_error ms i = Some (Some (Rag.source r))
    /\ nth_error ds i = Some distance
    /\ (Rag.similarity r == 1 - distance)%Q
    /\ (distance < 0.5)%Q
    /\ (0.5 < Rag.similarity r)%Q.
Proof.
  unfold RAGService.searchSimilarResponses, RAGService.searchCandidates.
  destruct (query customerQuery numResults) as [results|e]; [|intros []].
  destruct (Rag.documents results) as [documents|] eqn:Hdocuments; [|intros []].
  destruct (Rag.metadatas results) as [metadatas|] eqn:Hmetadatas; [|intros []].
  destruct (Rag.distances results) as [distances|] eqn:Hdistances; [|intros []].
  destruct (nth_error documents 0) as [docs|] eqn:Hdocs; [|intros []].
  destruct (RAGService.collectCandidates docs _ _ 0) as [candidates|e] eqn:Hc; [|intros []].
  intros Hin. apply keepSimilar_in in Hin.
  destruct Hin as (c & Hin & Hmeta & Hsim & Hgt).
  destruct (collectCandidates_in _ _ _ _ _ _ Hc Hin)
    as (ms & ds & j & Hms & Hds & Hj & Hnth & Hcs).
  rewrite Hsim in Hcs.
  destruct (nth_error ds j) as [distance|] eqn:Hd; [|discriminate].
  injection Hcs as Hcs.
  exists results, docs, ms, ds, j, distance.
  rewrite Hdocuments, Hmetadatas, Hdistances. unfold option_map.
  rewrite Hdocs, Hms, Hds, <- Hmeta.
  repeat split; auto; try lia.
  - now rewrite Hcs.
  - rewrite Hcs in Hgt. apply Qlt_minus_iff in Hgt. apply Qlt_minus_iff.
    setoid_replace (0.5 + - distance)%Q with (1 - distance + - 0.5)%Q by ring.
    exact Hgt.
Qed.

Lemma collectCandidates_missing docs ms ds i j :
  i <= j < i + length docs ->
  match nth_error ms j with Some (Some _) => False | _ => True end ->
  exists e, RAGService.collectCandidates docs (Some ms) (Some ds) i = Throw e.
Proof.
  revert i. induction docs as [|doc docs IH]; intros i Hj Hmiss; simpl in *; [lia|].
  destruct (nth_error ms i) as [[metadata|]|] eqn:Hm; try (eexists; reflexivity).
  assert (Hne : i <> j) by (intros ->; now rewrite Hm in Hmiss).
  destruct (IH (S i)) as (e & ->); [lia|exact Hmiss|]. now exists e.
Qed.

(** X8. One incomplete entry loses the whole result: when the metadata of
    one returned document is missing, the search returns no response at all,
    however close the other matches are. *)
Theorem searchSimilarResponses_missing_metadata
    (query : text -> nat -> Exc Rag.QueryResult) (customerQuery : text)
    (numResults : nat) (results : Rag.QueryResult)
    (documents : list (list text)) (metadatas : list (list (option Rag.Metadata)))
    (distances : list (list Q)) (docs : list text) (i : nat) :
  query customerQuery numResults = Ok results ->
  Rag.documents results = Some documents ->
  Rag.metadatas results = Some metadatas ->
  Rag.distances results = Some distances ->
  nth_error documents 0 = Some docs ->
  i < length docs ->
  match nth_error metadatas 0 with
  | Some ms => match nth_error ms i with Some (Some _) => False | _ => True end
  | None => True
  end ->
  RAGService.searchSimilarResponses query customerQuery numResults = [].
Proof.
  intros Hq Hdoc Hmeta Hdist Hdocs Hi Hmiss.
  unfold RAGService.searchSimilarResponses, RAGService.searchCandidates.
  rewrite Hq, Hdoc, Hmeta, Hdist, Hdocs.
  destruct (nth_error metadatas 0) as [ms|].
  - destruct (nth_error distances 0) as [ds|].
    + destruct (collectCandidates_missing docs ms ds 0 i) as (e & ->);
        [lia|exact Hmiss|reflexivity].
    + destruct docs; [simpl in Hi; lia|reflexivity].
  - destruct docs; [simpl in Hi; lia|reflexivity].
Qed.

Lemma keepSimilar_all_close (candidates : list Rag.Candidate) :
  Forall (fun r => (0.5 < Rag.similarity r)%Q) (RAGService.keepSimilar candidates).
Proof.
  apply Forall_forall. intros r Hin. apply keepSimilar_in in Hin.
  now destruct Hin as (c & _ & _ & _ & H).
Qed.

Lemma search_all_close query customerQuery numResults :
  Forall (fun r => (0.5 < Rag.similarity r)%Q)
    (RAGService.searchSimilarResponses query customerQuery numResults).
Proof.
  unfold RAGService.searchSimilarResponses.
  destruct (query customerQuery numResults) as [results|e]; [|constructor].
  destruct (RAGService.searchCandidates results); [|constructor].
  apply keepSimilar_all_close.
Qed.

Lemma ofNat_S (n : nat) : (ofNat (S n) == ofNat n + 1)%Q.
Proof.
  unfold ofNat. rewrite Nat2Z.inj_succ, <- Z.add_1_r, inject_Z_plus. reflexivity.
Qed.

Lemma ofNat_nonneg (n : nat) : (0 <= ofNat n)%Q.
Proof.
  unfold ofNat. change 0%Q with (inject_Z 0). rewrite <- Zle_Qle. lia.
Qed.

Lemma Qsum_above (c : Q) (xs : list Q) :
  xs <> [] -> Forall (fun x => (c < x)%Q) xs -> (c * ofNat (length xs) < Qsum xs)%Q.
Proof.
  induction xs as [|x xs IH]; intros Hne Hall; [now elim Hne|].
  inversion Hall as [|? ? Hx Hxs]; subst.
  cbn [length Qsum]. rewrite ofNat_S.
  destruct xs as [|y xs].
  - cbn [length Qsum]. unfold ofNat. simpl Z.of_nat.
    setoid_replace (c * (inject_Z 0 + 1))%Q with c by (unfold inject_Z; ring).
    now rewrite Qplus_0_r.
  - assert (H := IH ltac:(discriminate) Hxs).
    setoid_replace (c * (ofNat (length (y :: xs)) + 1))%Q
      with (c + c * ofNat (length (y :: xs)))%Q by ring.
    apply Qplus_lt_le_compat; [exact Hx|now apply Qlt_le_weak].
Qed.

Lemma mean_above (c : Q) (xs : list Q) :
  xs <> [] -> Forall (fun x => (c < x)%Q) xs -> (c < mean xs)%Q.
Proof.
  intros Hne Hall. unfold mean. apply Qlt_shift_div_l.
  - destruct xs as [|x xs]; [now elim Hne|]. cbn [length]. rewrite ofNat_S.
    apply Qlt_le_trans with (0 + 1)%Q; [reflexivity|].
    apply Qplus_le_compat; [apply ofNat_nonneg|apply Qle_refl].
  - now apply Qsum_above.
Qed.

Lemma clamp01_above (c x : Q) : (c < 1)%Q -> (0 <= c)%Q -> (c < x)%Q -> (c < clamp01 x)%Q.
Proof.
  intros H1 H0 Hx. unfold clamp01.
  apply Qlt_le_trans with (Qmin 1 x); [|apply Q.le_max_r].
  apply Q.min_glb_lt; assumption.
Qed.

(** X9. Close matches and order data settle the score: when the search
    returned at least one response and the provider answered, a reply of at
    least 50 characters without a placeholder marker scores above 0.6, and
    with order data above 0.9, so that the generator does not ask for
    escalation. *)
Theorem retrieved_evidence_confidence (rt : Runtime) (params : GenerateParams)
    (completion : Completion) (query : text -> nat -> Exc Rag.QueryResult)
    (numResults : nat) :
  chatCompletion rt getSystemPrompt (buildPrompt rt params) = Ok completion ->
  similarResponses params
  = Some (map toSimilar
            (RAGService.searchSimilarResponses query (customerQuery params) numResults)) ->
  RAGService.searchSimilarResponses query (customerQuery params) numResults <> [] ->
  exists r,
    generateResponse rt params = Ok r
    /\ (50 <= length (response r) ->
        includes (response r) (T "[") = false ->
        includes (response r) (T "{{") = false ->
        includes (response r) (T "PLACEHOLDER") = false ->
        (0.6 < confidence r)%Q
        /\ (hasOrders (orderData params) = true ->
            (0.9 < confidence r)%Q /\ shouldEscalate r = false)).
Proof.
  intros Hc Hsim Hne.
  destruct (generateResponse_on_success rt params completion Hc) as (r & Hr & Hconf & Hesc).
  exists r. split; [exact Hr|]. intros Hlen H1 H2 H3.
  set (found := RAGService.searchSimilarResponses query (customerQuery params) numResults) in *.
  assert (Hmean : (0.5 < avgSimilarityOf (map toSimilar found))%Q).
  { rewrite avgSimilarityOf_mean. apply mean_above.
    - destruct found; [now elim Hne|discriminate].
    - rewrite map_map. apply Forall_map. apply (search_all_close query). }
  assert (Hhas : hasSimilar (Some (map toSimilar found)) = true).
  { destruct found; [now elim Hne|reflexivity]. }
  assert (Hshort : (length (response r) <? 50) = false) by (apply Nat.ltb_ge; lia).
  assert (Hscore : (0.6 < confidence r)%Q
                   /\ (hasOrders (orderData params) = true -> (0.9 < confidence r)%Q)).
  { rewrite Hconf. unfold calculateConfidence.
    rewrite Hsim, Hhas, Hshort, H1, H2, H3. cbn [orb listOf].
    set (avg := avgSimilarityOf (map toSimilar found)) in *.
    assert (H6 : (0.6 < 0.5 + avg * 0.2)%Q).
    { setoid_replace 0.6%Q with (0.5 + 0.5 * 0.2)%Q by reflexivity.
      apply Qplus_lt_r. apply Qmult_lt_r; [reflexivity|exact Hmean]. }
    assert (H9 : (0.9 < 0.5 + 0.3 + avg * 0.2)%Q).
    { setoid_replace 0.9%Q with (0.5 + 0.3 + 0.5 * 0.2)%Q by reflexivity.
      apply Qplus_lt_r. apply Qmult_lt_r; [reflexivity|exact Hmean]. }
    assert (Hup : forall x, (x < x + 0.1)%Q).
    { intros x. rewrite <- (Qplus_0_r x) at 1. apply Qplus_lt_r. reflexivity. }
    split.
    - apply clamp01_above; [reflexivity|discriminate|].
      destruct (hasOrders (orderData params)), (test reSpecificDetails (response r)).
      + eapply Qlt_trans; [|apply Hup]. eapply Qlt_trans; [|exact H9]. reflexivity.
      + eapply Qlt_trans; [|exact H9]. reflexivity.
      + eapply Qlt_trans; [exact H6|apply Hup].
      + exact H6.
    - intros ->. apply clamp01_above; [reflexivity|discriminate|].
      destruct (test reSpecificDetails (response r)).
      + eapply Qlt_trans; [exact H9|apply Hup].
      + exact H9. }
  split; [apply Hscore|]. intros Ho. split; [now apply Hscore|].
  rewrite Hesc. apply Qltb_false_iff. apply Qlt_le_weak.
  eapply Qlt_trans; [|apply Hscore, Ho]. reflexivity.
Qed.

(** ** What a run leaves in the store *)

Lemma nth_error_updateRows_last {A : Type} (key : A -> nat) (f : A -> A)
    (rows : list A) (r : A) :
  nth_error (updateRows key (key r) f (rows ++ [r])) (length rows) = Some (f r).
Proof.
  unfold updateRows. rewrite map_app, nth_error_app2 by (rewrite length_map; lia).
  rewrite length_map, Nat.sub_diag. simpl. now rewrite Nat.eqb_refl.
Qed.

Lemma nth_error_last {A : Type} (rows : list A) (r : A) :
  nth_error (rows ++ [r]) (length rows) = Some r.
Proof. rewrite nth_error_app2 by lia. now rewrite Nat.sub_diag. Qed.

(** X10. What [processEmail] reports is what it stored and sent: after a run
    on a message that is not yet in the store, one reply row and one message
    row are added; the reported response id, escalation flag and confidence
    are those of the new reply row; the text of that row is the body of the
    one reply handed to the mailbox; the row is marked as sent, with the
    time, exactly when the mailbox accepted the reply; and the new message
    row is marked as processed. *)
Theorem processEmail_result_matches_store (sv : Services) (email : GmailEmail.t)
    (w : World) :
  persisted (GmailEmail.id email) w = false ->
  exists res w' row saved,
    processEmail sv email w = (Ok res, w')
    /\ nth_error (aiResponses w') (length (aiResponses w)) = Some row
    /\ length (aiResponses w') = S (length (aiResponses w))
    /\ EmailProcessResult.success res = true
    /\ EmailProcessResult.responseId res = Some (Db.respId row)
    /\ EmailProcessResult.escalated res = Db.escalated row
    /\ EmailProcessResult.confidence res = Some (Db.confidence row)
    /\ (exists before,
          trace w' = before
                     ++ [EvSendReply (GmailEmail.fromEmail email)
                           (T "Re: " ++ GmailEmail.subject email)
                           (Db.responseText row) (GmailEmail.threadId email)])
    /\ Db.sentViaGmail row
       = sendReplyOutcome sv (GmailEmail.fromEmail email)
           (T "Re: " ++ GmailEmail.subject email) (Db.responseText row)
           (GmailEmail.threadId email)
    /\ Db.sentAt row = (if Db.sentViaGmail row then Some (now sv) else None)
    /\ nth_error (customerEmails w') (length (customerEmails w)) = Some saved
    /\ length (customerEmails w') = S (length (customerEmails w))
    /\ Db.gmailMessageId saved = GmailEmail.id email
    /\ Db.processed saved = true.
Proof.
  intros Hfresh.
  destruct (processEmail_fresh sv email w Hfresh) as (res & w' & Hrun & Hout).
  destruct Hout as (orderData & aiResponse & savedEmail & cid & rid & H).
  cbv zeta in H. destruct H as (Hgen & Ht & Hid & Hce & Har & Hres).
  set (shouldEscalate :=
         escalationDecision aiResponse (validateResponse (response aiResponse))) in *.
  set (finalResponse :=
         fst (chooseFinalResponse sv email orderData aiResponse shouldEscalate)) in *.
  set (row := newAIResponse sv email orderData aiResponse shouldEscalate
                finalResponse cid rid) in *.
  set (sent := sendReplyOutcome sv (GmailEmail.fromEmail email)
                 (T "Re: " ++ GmailEmail.subject email) finalResponse
                 (GmailEmail.threadId email)) in *.
  exists res, w', (if sent then setSent (now sv) row else row), (setProcessed savedEmail).
  split; [exact Hrun|].
  assert (Htext : Db.responseText (if sent then setSent (now sv) row else row)
                  = finalResponse) by now destruct sent.
  rewrite Htext. fold sent.
  rewrite Har, Hce, Hres, Ht.
  repeat split.
  - destruct sent; [|apply nth_error_last].
    apply (nth_error_updateRows_last Db.respId (setSent (now sv)) (aiResponses w) row).
  - destruct sent; rewrite ?length_updateRows, length_app; simpl; lia.
  - now destruct sent.
  - now destruct sent.
  - now destruct sent.
  - eexists (trace w ++ [_]). rewrite <- app_assoc. reflexivity.
  - now destruct sent.
  - now destruct sent.
  - apply (nth_error_updateRows_last Db.ceId setProcessed (customerEmails w) savedEmail).
  - rewrite length_updateRows, length_app. simpl. lia.
  - exact Hid.
Qed.

(** ** The conversation of the sender *)

Lemma conversation_update_inv id f w w' u :
  conversation_update id f w = (Ok u, w') ->
  conversations w' = updateRows Db.convId id f (conversations w)
  /\ nextId w' = nextId w.
Proof.
  unfold conversation_update. destruct (hasRow Db.convId id (conversations w));
    [|discriminate].
  intros [= _ <-]. now split.
Qed.

Lemma customerEmail_create_inv email cid w w' r :
  customerEmail_create email cid w = (Ok r, w') ->
  conversations w' = conversations w.
Proof.
  unfold customerEmail_create. destruct (find _ (customerEmails w)); [discriminate|].
  now intros [= _ <-].
Qed.

Lemma ai_generateResponse_inv sv params w w' a :
  ai_generateResponse sv params w = (Ok a, w') -> conversations w' = conversations w.
Proof.
  unfold ai_generateResponse, bind, emit, liftExc.
  destruct (generateResponse (runtime sv) params); [|discriminate].
  now intros [= _ <-].
Qed.

Lemma aIResponse_update_inv id f w w' u :
  aIResponse_update id f w = (Ok u, w') -> conversations w' = conversations w.
Proof.
  unfold aIResponse_update. destruct (hasRow Db.respId id (aiResponses w)); [|discriminate].
  now intros [= _ <-].
Qed.

Lemma customerEmail_update_inv id f w w' u :
  customerEmail_update id f w = (Ok u, w') -> conversations w' = conversations w.
Proof.
  unfold customerEmail_update. destruct (hasRow Db.ceId id (customerEmails w)); [|discriminate].
  now intros [= _ <-].
Qed.

Lemma delivery_inv sv (shouldSendDirectly : bool) to subject body threadId rid w w' u :
  (if shouldSendDirectly then
     emailSent <- gmail_sendReply sv to subject body threadId ;;
     if emailSent then aIResponse_update rid (setSent (now sv)) else ret tt
   else
     draftId <- gmail_createDraft sv to subject body threadId ;;
     ret tt) w = (Ok u, w') ->
  conversations w' = conversations w.
Proof.
  destruct shouldSendDirectly; intros H.
  - apply bind_inv in H. destruct H as (sent & w1 & H1 & H2).
    unfold gmail_sendReply, bind, emit, ret in H1. injection H1 as <- <-.
    destruct (sendReplyOutcome sv to subject body threadId).
    + apply aIResponse_update_inv in H2. exact H2.
    + unfold ret in H2. now injection H2 as _ <-.
  - unfold gmail_createDraft, bind, emit, ret in H. now injection H as _ <-.
Qed.

(** The conversations after a run on a message that is not in the store. *)
Lemma processEmailTry_conversations (sv : Services) (email : GmailEmail.t)
    (w w' : World) (res : EmailProcessResult.t) :
  persisted (GmailEmail.id email) w = false ->
  processEmailTry sv email w = (Ok res, w') ->
  let body := GmailEmail.body email in
  let found :=
    find (fun c => eqText (Db.customerEmail c) (GmailEmail.fromEmail email))
      (conversations w) in
  let conversation :=
    match found with
    | Some c => c
    | None => Db.mkConversation (nextId w) (GmailEmail.fromEmail email)
                (GmailEmail.fromName email) None (T "ACTIVE") (T "NORMAL") (now sv)
    end in
  let rows :=
    match found with
    | Some _ => conversations w
    | None => conversations w ++ [conversation]
    end in
  let rows :=
    if truthy (extractOrderNumber body) && negb (truthy (Db.shopifyOrderId conversation))
    then updateRows Db.convId (Db.convId conversation)
           (setShopifyOrderId (extractOrderNumber body) (now sv)) rows
    else rows in
  conversations w'
  = updateRows Db.convId (Db.convId conversation)
      (setStatusPriority
         (if EmailProcessResult.escalated res then T "ESCALATED" else T "ACTIVE")
         (determinePriority (classifyQuery sv body) body) (now sv))
      rows.
Proof.
  unfold persisted. intros Hfresh Hrun.
  destruct (find _ (customerEmails w)) eqn:Hfind; [discriminate|]. clear Hfresh.
  unfold processEmailTry in Hrun.
  apply bind_inv in Hrun. destruct Hrun as (existing & w1 & H1 & Hrun).
  unfold customerEmail_findUnique in H1. injection H1 as <- <-. rewrite Hfind in Hrun.
  apply bind_inv in Hrun. destruct Hrun as (found & w1 & H1 & Hrun).
  unfold conversation_findFirst in H1. injection H1 as <- <-.
  apply bind_inv in Hrun. destruct Hrun as (conversation & w2 & H2 & Hrun).
  apply bind_inv in Hrun. destruct Hrun as (savedEmail & w3 & H3 & Hrun).
  apply customerEmail_create_inv in H3.
  apply bind_inv in Hrun. destruct Hrun as (u4 & w4 & H4 & Hrun).
  apply bind_inv in Hrun. destruct Hrun as (orderData & w5 & H5 & Hrun).
  apply fetchOrderData_inv in H5. subst w5.
  apply bind_inv in Hrun. destruct Hrun as (aiResponse & w6 & H6 & Hrun).
  apply ai_generateResponse_inv in H6.
  destruct (chooseFinalResponse sv email orderData aiResponse _)
    as [finalResponse isIntelligentFallback].
  apply bind_inv in Hrun. destruct Hrun as (savedResponse & w7 & H7 & Hrun).
  unfold aIResponse_create in H7. injection H7 as _ <-.
  apply bind_inv in Hrun. destruct Hrun as (u8 & w8 & H8 & Hrun).
  apply delivery_inv in H8.
  apply bind_inv in Hrun. destruct Hrun as (u9 & w9 & H9 & Hrun).
  apply conversation_update_inv in H9. destruct H9 as [H9 _].
  apply bind_inv in Hrun. destruct Hrun as (u10 & w10 & H10 & Hrun).
  apply customerEmail_update_inv in H10.
  unfold ret in Hrun. injection Hrun as <- <-.
  cbv zeta. cbn [EmailProcessResult.escalated processedResult].
  rewrite H10, H9, H8. cbn [conversations]. rewrite H6.
  assert (Hc : conversation
               = match find (fun c => eqText (Db.customerEmail c) (GmailEmail.fromEmail email))
                         (conversations w) with
                 | Some c => c
                 | None => Db.mkConversation (nextId w) (GmailEmail.fromEmail email)
                             (GmailEmail.fromName email) None (T "ACTIVE") (T "NORMAL")
                             (now sv)
                 end
               /\ conversations w2
                  = match find (fun c => eqText (Db.customerEmail c)
                                           (GmailEmail.fromEmail email))
                            (conversations w) with
                    | Some _ => conversations w
                    | None => conversations w ++ [conversation]
                    end).
  { destruct (find _ (conversations w)).
    - unfold ret in H2. injection H2 as <- <-. now split.
    - unfold conversation_create in H2. injection H2 as <- <-. now split. }
  destruct Hc as [Hc Hw2]. rewrite <- Hc.
  f_equal.
  destruct (truthy (extractOrderNumber (GmailEmail.body email))
            && negb (truthy (Db.shopifyOrderId conversation))).
  - apply conversation_update_inv in H4. destruct H4 as [H4 _].
    rewrite H4, H3, Hw2. now destruct (find _ (conversations w)).
  - unfold ret in H4. injection H4 as _ <-.
    rewrite H3, Hw2. now destruct (find _ (conversations w)).
Qed.

Lemma find_updateRows_first {A : Type} (p : A -> bool) (key : A -> nat) (f : A -> A)
    (rows : list A) (r : A) :
  (forall x, p (f x) = p x) ->
  find p rows = Some r ->
  find p (updateRows key (key r) f rows) = Some (f r).
Proof.
  intros Hp. induction rows as [|x rows IH]; simpl; [discriminate|].
  destruct (key x =? key r) eqn:Hk.
  - rewrite Hp. destruct (p x) eqn:Hx.
    + intros [= ->]. reflexivity.
    + exact IH.
  - destruct (p x) eqn:Hx.
    + intros [= ->]. now rewrite Nat.eqb_refl in Hk.
    + exact IH.
Qed.

(** The row of the sender after a run on a message that is not in the
    store: the conversation found or created, after the two updates. *)
Lemma processEmail_sender_row (sv : Services) (email : GmailEmail.t) (w : World) :
  persisted (GmailEmail.id email) w = false ->
  let sender := fun c => eqText (Db.customerEmail c) (GmailEmail.fromEmail email) in
  let body := GmailEmail.body email in
  let c0 :=
    match find sender (conversations w) with
    | Some c => c
    | None => Db.mkConversation (nextId w) (GmailEmail.fromEmail email)
                (GmailEmail.fromName email) None (T "ACTIVE") (T "NORMAL") (now sv)
    end in
  exists res w',
    processEmail sv email w = (Ok res, w')
    /\ find sender (conversations w')
       = Some (setStatusPriority
                 (if EmailProcessResult.escalated res then T "ESCALATED" else T "ACTIVE")
                 (determinePriority (classifyQuery sv body) body) (now sv)
                 (if truthy (extractOrderNumber body)
                     && negb (truthy (Db.shopifyOrderId c0))
                  then setShopifyOrderId (extractOrderNumber body) (now sv) c0
                  else c0))
    /\ length (conversations w')
       = match find sender (conversations w) with
         | Some _ => length (conversations w)
         | None => S (length (conversations w))
         end.
Proof.
  intros Hfresh sender body c0.
  destruct (processEmailTry_fresh sv email w Hfresh w eq_refl) as (res & w' & Hrun & _).
  pose proof (processEmailTry_conversations sv email w w' res Hfresh Hrun) as Hcs.
  cbv zeta in Hcs. fold sender body in Hcs. fold c0 in Hcs.
  exists res, w'. split; [unfold processEmail, tryCatch; now rewrite Hrun|].
  set (rows0 := match find sender (conversations w) with
                | Some _ => conversations w
                | None => conversations w ++ [c0]
                end) in *.
  assert (Hfind0 : find sender rows0 = Some c0).
  { unfold rows0, c0. destruct (find sender (conversations w)) as [c|] eqn:Hf.
    - exact Hf.
    - rewrite find_app, Hf. simpl. unfold sender at 1. simpl.
      now rewrite eqText_refl. }
  assert (Hlen0 : length rows0
                  = match find sender (conversations w) with
                    | Some _ => length (conversations w)
                    | None => S (length (conversations w))
                    end).
  { unfold rows0. destruct (find sender (conversations w)); [reflexivity|].
    rewrite length_app. simpl. lia. }
  rewrite Hcs.
  destruct (truthy (extractOrderNumber body) && negb (truthy (Db.shopifyOrderId c0))).
  - rewrite !length_updateRows. split; [|exact Hlen0].
    apply (find_updateRows_first sender Db.convId _ _
             (setShopifyOrderId (extractOrderNumber body) (now sv) c0));
      [reflexivity|].
    apply (find_updateRows_first sender Db.convId
             (setShopifyOrderId (extractOrderNumber body) (now sv)) rows0 c0);
      [reflexivity|exact Hfind0].
  - rewrite !length_updateRows. split; [|exact Hlen0].
    apply (find_updateRows_first sender Db.convId _ rows0 c0);
      [reflexivity|exact Hfind0].
Qed.

(** X11. The conversation of the sender after a run: a message that is not
    yet in the store is filed under the first conversation of its sender, or
    under a new one when the sender has none; afterwards that conversation
    is ESCALATED exactly when the run reports an escalation and ACTIVE
    otherwise, its priority is the one computed from the category and the
    body, and it holds the order number found in the body unless it held one
    before, which is kept. *)
Theorem processEmail_conversation (sv : Services) (email : GmailEmail.t) (w : World) :
  persisted (GmailEmail.id email) w = false ->
  let sender := fun c => eqText (Db.customerEmail c) (GmailEmail.fromEmail email) in
  let body := GmailEmail.body email in
  exists res w' c',
    processEmail sv email w = (Ok res, w')
    /\ find sender (conversations w') = Some c'
    /\ Db.convId c'
       = match find sender (conversations w) with
         | Some c => Db.convId c
         | None => nextId w
         end
    /\ length (conversations w')
       = match find sender (conversations w) with
         | Some _ => length (conversations w)
         | None => S (length (conversations w))
         end
    /\ Db.status c'
       = (if EmailProcessResult.escalated res then T "ESCALATED" else T "ACTIVE")
    /\ Db.priority c' = determinePriority (classifyQuery sv body) body
    /\ Db.shopifyOrderId c'
       = match find sender (conversations w) with
         | Some c =>
             if truthy (Db.shopifyOrderId c) then Db.shopifyOrderId c
             else if truthy (extractOrderNumber body) then extractOrderNumber body
             else Db.shopifyOrderId c
         | None =>
             if truthy (extractOrderNumber body) then extractOrderNumber body else None
         end.
Proof.
  intros Hfresh sender body.
  destruct (processEmail_sender_row sv email w Hfresh) as (res & w' & Hrun & Hfind & Hlen).
  fold sender body in Hfind, Hlen.
  eexists res, w', _. split; [exact Hrun|]. split; [exact Hfind|].
  destruct (find sender (conversations w)) as [c|];
    destruct (truthy (extractOrderNumber body)) eqn:Hn; cbn [andb];
    try destruct (truthy (Db.shopifyOrderId c)) eqn:Hc; cbn [negb];
    cbn [setStatusPriority setShopifyOrderId Db.convId Db.status Db.priority
         Db.shopifyOrderId truthy negb];
    rewrite ?Hc; repeat split; assumption.
Qed.

(** ** The outgoing message *)

Lemma startsWith_blank (c : ascii) (s : text) :
  startsWith (nl ++ nl) (c :: s)
  = (code c =? 10) && match s with [] => false | b :: _ => code b =? 10 end.
Proof.
  unfold nl. cbn [app startsWith]. unfold eqChar. rewrite code_of_nat by lia.
  rewrite (Nat.eqb_sym 10). destruct s as [|b s]; [reflexivity|].
  now rewrite (Nat.eqb_sym 10), andb_true_r.
Qed.

Lemma afterBlankLine_cons (c : ascii) (s : text) :
  afterBlankLine (c :: s)
  = if startsWith (nl ++ nl) (c :: s) then Some (skipn 2 (c :: s)) else afterBlankLine s.
Proof. reflexivity. Qed.

Lemma afterBlankLine_line (h s : text) :
  oneLine h = true -> afterBlankLine (h ++ s) = afterBlankLine s.
Proof.
  intros Hh. induction h as [|c h IH]; [reflexivity|].
  simpl in Hh. apply andb_true_iff in Hh. destruct Hh as [Hc Hh].
  cbn [app]. rewrite afterBlankLine_cons, startsWith_blank, (IH Hh).
  apply negb_true_iff in Hc. now rewrite Hc.
Qed.

Lemma afterBlankLine_break (c : ascii) (s : text) :
  (code c =? 10) = false ->
  afterBlankLine (nl ++ c :: s) = afterBlankLine (c :: s).
Proof.
  intros Hc. unfold nl at 1. cbn [app].
  rewrite afterBlankLine_cons, startsWith_blank, Hc. now rewrite andb_false_r.
Qed.

Lemma afterBlankLine_found (body : text) : afterBlankLine (nl ++ nl ++ body) = Some body.
Proof.
  unfold nl at 1 2. cbn [app]. rewrite afterBlankLine_cons, startsWith_blank.
  now rewrite !code_of_nat by lia.
Qed.

Lemma oneLine_app (a b : text) : oneLine (a ++ b) = oneLine a && oneLine b.
Proof. apply forallb_app. Qed.

Lemma join_cons (sep x y : text) (rest : list text) :
  join sep (x :: y :: rest) = x ++ sep ++ join sep (y :: rest).
Proof. reflexivity. Qed.

(** Header lines, an empty line, the body. *)
Lemma afterBlankLine_join (header : text) (headers : list text) (body : text) :
  Forall (fun h => oneLine h = true /\ h <> []) (header :: headers) ->
  afterBlankLine (join nl ((header :: headers) ++ [[]; body])) = Some body.
Proof.
  revert header. induction headers as [|h' headers IH]; intros header Hall;
    inversion Hall as [|? ? [Hh _] Hrest]; subst.
  - cbn [app]. rewrite !join_cons. cbn [join app].
    rewrite afterBlankLine_line by exact Hh. apply afterBlankLine_found.
  - cbn [app]. rewrite join_cons, afterBlankLine_line by exact Hh.
    rewrite <- (IH h' Hrest). cbn [app].
    inversion Hrest as [|? ? [Hh' Hne] _]; subst.
    destruct h' as [|c h']; [now elim Hne|].
    match goal with
    | |- afterBlankLine (nl ++ ?j) = _ => assert (Hj : exists s, j = c :: s)
    end.
    { destruct headers; cbn [app]; rewrite join_cons; eexists; reflexivity. }
    destruct Hj as (s & ->). apply afterBlankLine_break.
    simpl in Hh'. apply andb_true_iff in Hh'. now apply negb_true_iff.
Qed.

(** X12. The body of the outgoing message is the text after the first empty
    line: when the recipient, the subject and the thread id hold no line
    feed, the headers end at the first empty line of the encoded text and
    what follows is the body, unchanged, with or without a thread id. *)
Theorem emailText_body (to subject body : text) (threadId : option text) :
  oneLine to = true -> oneLine subject = true ->
  match threadId with Some id => oneLine id = true | None => True end ->
  afterBlankLine (emailText to subject body threadId) = Some body.
Proof.
  intros Hto Hsubject Hthread.
  assert (Hline : forall name value,
             oneLine name = true -> name <> [] -> oneLine value = true ->
             oneLine (name ++ value) = true /\ name ++ value <> []).
  { intros name value Hn Hne Hv. split.
    - now rewrite oneLine_app, Hn, Hv.
    - destruct name; [now elim Hne|discriminate]. }
  unfold emailText, emailLines.
  destruct (truthy threadId) eqn:Ht.
  - destruct threadId as [tid|]; [|discriminate].
    unfold splice0. cbn [firstn skipn app render].
    apply (afterBlankLine_join _
             [T "Subject: " ++ subject; T "Content-Type: text/html; charset=UTF-8";
              T "In-Reply-To: " ++ tid; T "References: " ++ tid; T "MIME-Version: 1.0"]).
    repeat constructor; try (apply Hline; (assumption || reflexivity || discriminate));
      try reflexivity; discriminate.
  - apply (afterBlankLine_join _
             [T "Subject: " ++ subject; T "Content-Type: text/html; charset=UTF-8";
              T "MIME-Version: 1.0"]).
    repeat constructor; try (apply Hline; (assumption || reflexivity || discriminate));
      try reflexivity; discriminate.
Qed.

Lemma base64urlChar_safe (n : nat) : isUrlSafe (base64urlChar n) = true.
Proof.
  unfold base64urlChar, isUrlSafe, isUpperAZ, isLowerAZ, isDigit, inRange.
  destruct (n <? 26) eqn:H26.
  - apply Nat.ltb_lt in H26. rewrite code_of_nat by lia.
    replace (65 <=? 65 + n) with true by (symmetry; apply Nat.leb_le; lia).
    replace (65 + n <=? 90) with true by (symmetry; apply Nat.leb_le; lia).
    reflexivity.
  - apply Nat.ltb_ge in H26. destruct (n <? 52) eqn:H52.
    + apply Nat.ltb_lt in H52. rewrite code_of_nat by lia.
      replace (97 <=? 97 + (n - 26)) with true by (symmetry; apply Nat.leb_le; lia).
      replace (97 + (n - 26) <=? 122) with true by (symmetry; apply Nat.leb_le; lia).
      now rewrite orb_true_r.
    + apply Nat.ltb_ge in H52. destruct (n <? 62) eqn:H62.
      * apply Nat.ltb_lt in H62. rewrite code_of_nat by lia.
        replace (48 <=? 48 + (n - 52)) with true by (symmetry; apply Nat.leb_le; lia).
        replace (48 + (n - 52) <=? 57) with true by (symmetry; apply Nat.leb_le; lia).
        now rewrite !orb_true_r.
      * destruct (n =? 62); reflexivity.
Qed.

(** X13. The raw message is URL-safe: whatever the recipient, the subject,
    the body and the thread id, the encoded message consists of the letters,
    the digits, [-] and [_] only, without padding. *)
Theorem createEmailRaw_url_safe (to subject body : text) (threadId : option text) :
  forallb isUrlSafe (createEmailRaw to subject body threadId) = true.
Proof.
  unfold createEmailRaw.
  generalize (utf8 (emailText to subject body threadId)). intros bytes.
  assert (H : forall n bs, length bs <= n -> forallb isUrlSafe (base64url bs) = true).
  { induction n as [|n IH]; intros bs Hlen.
    - destruct bs; [reflexivity|simpl in Hlen; lia].
    - destruct bs as [|a [|b [|c rest]]]; cbn [base64url forallb];
        rewrite ?base64urlChar_safe; try reflexivity.
      apply IH. simpl in Hlen. lia. }
  apply (H (length bytes)). lia.
Qed.

(** ** The text of a reply *)

Ltac literal_lengths :=
  repeat match goal with
         | |- context [length (T ?s)] =>
             let n := eval vm_compute in (length (T s)) in
             change (length (T s)) with n
         end.

Lemma fallbackBody_length rt params a : 100 <= length (fst (fallbackBody rt params a)).
Proof.
  unfold fallbackBody, generateOrderStatusResponse, generateShippingResponse,
    generateReturnRefundResponse, generateProductInquiryResponse,
    generateComplaintResponse, generateGeneralResponse.
  destruct (intent a); cbn [fst];
    repeat match goal with
           | |- context [match ?o with Some _ => _ | None => _ end] => destruct o
           | |- context [match ?l with [] => _ | _ :: _ => _ end] => destruct l
           | |- context [if ?c then _ else _] => destruct c
           end;
    rewrite ?length_app; literal_lengths; lia.
Qed.

(** X14. No reply that is handed to the mailbox is short: whatever the
    services do and whatever is in the store, what a run of [processEmail]
    adds to the calls of the provider and the mailbox holds no reply of
    fewer than 30 characters, and an escalated run sends at least 100. *)
Theorem processEmail_reply_length (sv : Services) (email : GmailEmail.t) (w : World) :
  exists res w' evs,
    processEmail sv email w = (Ok res, w')
    /\ trace w' = trace w ++ evs
    /\ forall to subject body threadId,
         In (EvSendReply to subject body threadId) evs ->
         30 <= length body
         /\ (EmailProcessResult.escalated res = true -> 100 <= length body).
Proof.
  destruct (persisted (GmailEmail.id email) w) eqn:Hw.
  - exists alreadyProcessed, w, []. split; [now apply processEmail_already|].
    split; [now rewrite app_nil_r|]. intros to subject body threadId [].
  - destruct (processEmail_fresh sv email w Hw) as (res & w' & Hrun & Hout).
    destruct Hout as (orderData & aiResponse & savedEmail & cid & rid & H).
    cbv zeta in H. destruct H as (_ & Ht & _ & _ & _ & Hres).
    eexists res, w', _. split; [exact Hrun|]. split; [exact Ht|].
    intros to subject body threadId [Hin|[Hin|[]]]; [discriminate|].
    injection Hin as _ _ <- _. subst res. cbn [EmailProcessResult.escalated processedResult].
    unfold chooseFinalResponse.
    destruct (escalationDecision aiResponse (validateResponse (response aiResponse)))
      eqn:Hesc; cbn [fst].
    + destruct (generateFallbackResponse_fields (runtime sv)
                  (generationParams sv email orderData None) (T "escalation"))
        as (-> & _).
      pose proof (fallbackBody_length (runtime sv)
                    (generationParams sv email orderData None)
                    (analyzeCustomerQuery
                       (customerQuery (generationParams sv email orderData None)))).
      split; [lia|intros _; assumption].
    + split; [|discriminate].
      apply escalationDecision_false in Hesc. destruct Hesc as (_ & Hvalid & _).
      destruct (validateResponse_shape (response aiResponse)) as (_ & _ & Hv & _).
      rewrite Hv in Hvalid. apply negb_true_iff, orb_false_iff in Hvalid.
      destruct Hvalid as [Hshort _]. unfold tooShort in Hshort.
      now apply Nat.ltb_ge in Hshort.
Qed.

(** ** The priority of a conversation *)

Lemma lowerChar_eqCharCI (y : ascii) :
  isLowerAZ (lowerChar y) = true -> eqCharCI (lowerChar y) y = true.
Proof.
  unfold lowerChar, eqCharCI, foldAZ, isLowerAZ, isUpperAZ.
  destruct (inRange 65 90 y) eqn:Hu.
  - intros Hl. apply inRange_iff in Hu.
    destruct (inRange 65 90 (ascii_of_nat (code y + 32))) eqn:Hu'.
    + apply inRange_iff in Hu'. rewrite code_of_nat in Hu' by lia. lia.
    + apply eqChar_refl.
  - destruct (inRange 192 222 y && negb (code y =? 215)) eqn:Hr.
    + intros Hl. apply andb_true_iff in Hr. destruct Hr as [Hr _].
      apply inRange_iff in Hr. apply inRange_iff in Hl.
      rewrite code_of_nat in Hl by lia. lia.
    + intros _. rewrite Hu. apply eqChar_refl.
Qed.

Lemma lower_sameLetters (w u : text) :
  forallb isLowerAZ w = true -> toLowerCase u = w -> sameLetters w u.
Proof.
  intros Hw <-. induction u as [|y u IH]; [constructor|].
  simpl in Hw. apply andb_true_iff in Hw. destruct Hw as [Hy Hu].
  constructor; [now apply lowerChar_eqCharCI|now apply IH].
Qed.

Lemma includes_lower_iff (w s : text) :
  forallb isLowerAZ w = true ->
  includes (toLowerCase s) w = true <-> occursCI w s.
Proof.
  intros Hw. split.
  - intros H. apply includes_iff in H. destruct H as (pre & post & H).
    unfold toLowerCase in H.
    apply map_eq_app in H. destruct H as (pre' & rest & -> & _ & H).
    apply map_eq_app in H. destruct H as (u & post' & -> & Hu & _).
    exists pre', u, post'. split; [reflexivity|]. now apply lower_sameLetters.
  - apply occursCI_includes_lower.
    apply Forall_forall. intros x Hx.
    assert (Hl : isLowerAZ x = true).
    { revert Hw Hx. rewrite forallb_forall. auto. }
    unfold isLowerAZ in Hl. apply inRange_iff in Hl. split; [lia|].
    unfold isUpperAZ. apply inRange_false_iff. lia.
Qed.

Lemma existsb_occursCI (ws : list text) (s : text) :
  forallb (forallb isLowerAZ) ws = true ->
  existsb (fun keyword => includes (toLowerCase s) keyword) ws = true
  <-> exists keyword, In keyword ws /\ occursCI keyword s.
Proof.
  intros Hws. rewrite existsb_exists. rewrite forallb_forall in Hws.
  split; intros (kw & Hin & H); exists kw; (split; [exact Hin|]);
    now apply (includes_lower_iff kw s (Hws kw Hin)).
Qed.

(** X15. The three priorities: the priority is URGENT exactly when the
    content holds one of urgent, asap, immediately, broken, damaged, wrong,
    missing, in any letter case and also inside a longer word; otherwise it
    is HIGH exactly when the category is PRODUCT_ISSUE or RETURN_REFUND or
    the content holds, in the same sense, one of return, refund, complaint,
    problem, issue; and NORMAL in every other case. *)
Theorem determinePriority_spec (category : QueryCategory) (content : text) :
  let urgent :=
    exists keyword,
      In keyword [T "urgent"; T "asap"; T "immediately"; T "broken"; T "damaged";
                  T "wrong"; T "missing"]
      /\ occursCI keyword content in
  let high :=
    category = PRODUCT_ISSUE \/ category = RETURN_REFUND
    \/ exists keyword,
         In keyword [T "return"; T "refund"; T "complaint"; T "problem"; T "issue"]
         /\ occursCI keyword content in
  (determinePriority category content = T "URGENT" <-> urgent)
  /\ (determinePriority category content = T "HIGH" <-> ~ urgent /\ high)
  /\ (determinePriority category content = T "NORMAL" <-> ~ urgent /\ ~ high).
Proof.
  cbv zeta. unfold determinePriority.
  pose proof (existsb_occursCI
                [T "urgent"; T "asap"; T "immediately"; T "broken"; T "damaged";
                 T "wrong"; T "missing"] content eq_refl) as Hu.
  pose proof (existsb_occursCI
                [T "return"; T "refund"; T "complaint"; T "problem"; T "issue"]
                content eq_refl) as Hh.
  destruct (existsb _ [T "urgent"; T "asap"; T "immediately"; T "broken"; T "damaged";
                       T "wrong"; T "missing"]).
  - assert (U := proj1 Hu eq_refl).
    repeat split; try (intros; exact U); try discriminate; tauto.
  - assert (NU : ~ (exists keyword,
                       In keyword [T "urgent"; T "asap"; T "immediately"; T "broken";
                                   T "damaged"; T "wrong"; T "missing"]
                       /\ occursCI keyword content)).
    { intros H. apply Hu in H. discriminate. }
    destruct (existsb _ [T "return"; T "refund"; T "complaint"; T "problem"; T "issue"]).
    + assert (H := proj1 Hh eq_refl). rewrite orb_true_r.
      repeat split; try discriminate; try tauto.
    + assert (NH : ~ (exists keyword,
                         In keyword [T "return"; T "refund"; T "complaint"; T "problem";
                                     T "issue"]
                         /\ occursCI keyword content)).
      { intros H. apply Hh in H. discriminate. }
      rewrite orb_false_r.
      destruct category; cbn [orb]; repeat split; try discriminate; try tauto;
        try (intros [_ [H|[H|H]]]; (discriminate || tauto));
        try (intros [_ H]; exfalso; apply H; tauto);
        try (intros _ [H|[H|H]]; (discriminate || tauto));
        intros [H'|[H'|H']]; (discriminate || tauto).
Qed.

(** ** Invariants of the store *)

Lemma map_updateRows {A B : Type} (key : A -> nat) (id : nat) (f : A -> A)
    (g : A -> B) (rows : list A) :
  (forall r, g (f r) = g r) -> map g (updateRows key id f rows) = map g rows.
Proof.
  intros Hg. unfold updateRows. rewrite map_map. apply map_ext.
  intros r. now destruct (key r =? id).
Qed.

Lemma not_persisted_not_in (gmailMessageId : text) (w : World) :
  persisted gmailMessageId w = false ->
  ~ In gmailMessageId (map Db.gmailMessageId (customerEmails w)).
Proof.
  unfold persisted. intros H Hin.
  destruct (find _ (customerEmails w)) eqn:Hfind; [discriminate|].
  apply in_map_iff in Hin. destruct Hin as (r & <- & Hr).
  pose proof (find_none _ _ Hfind r Hr) as Hn. simpl in Hn.
  now rewrite eqText_refl in Hn.
Qed.

(** One run: the three counts rise together, by one or not at all. *)
Lemma processEmail_counts (sv : Services) (email : GmailEmail.t) (w : World) :
  let w' := snd (processEmail sv email w) in
  (NoDup (map Db.gmailMessageId (customerEmails w)) ->
   NoDup (map Db.gmailMessageId (customerEmails w')))
  /\ exists n,
       n <= 1
       /\ length (customerEmails w') = length (customerEmails w) + n
       /\ length (aiResponses w') = length (aiResponses w) + n
       /\ length (filter isReply (trace w')) = length (filter isReply (trace w)) + n.
Proof.
  cbv zeta. destruct (persisted (GmailEmail.id email) w) eqn:Hw.
  - rewrite (processEmail_already sv email w Hw). simpl.
    split; [auto|]. exists 0. repeat split; lia.
  - destruct (processEmail_fresh sv email w Hw) as (res & w' & Hrun & Hout).
    rewrite Hrun. simpl.
    pose proof (Outcome_one_reply _ _ _ _ _ Hout) as Hreply.
    destruct Hout as (orderData & aiResponse & savedEmail & cid & rid & H).
    cbv zeta in H. destruct H as (_ & Ht & Hid & Hce & _ & _).
    split.
    + intros Hnd. rewrite Hce, map_updateRows by reflexivity.
      rewrite map_app. simpl. rewrite Hid.
      apply NoDup_app; [exact Hnd|repeat constructor; intros []|].
      intros x Hx [<-|[]]. now apply (not_persisted_not_in _ _ Hw).
    + exists 1. split; [lia|]. split; [|split].
      * rewrite Hce, length_updateRows, length_app. reflexivity.
      * lia.
      * rewrite Ht, filter_app, length_app. reflexivity.
Qed.

(** X16. One reply per message: over any series of runs, each with its own
    services, the message ids in the store stay pairwise distinct, and the
    number of stored messages, of stored replies and of replies handed to
    the mailbox rise by the same amount, at most one per run. *)
Theorem processAll_one_reply_per_message (runs : list (Services * GmailEmail.t))
    (w : World) :
  NoDup (map Db.gmailMessageId (customerEmails w)) ->
  let w' := processAll runs w in
  NoDup (map Db.gmailMessageId (customerEmails w'))
  /\ exists n,
       n <= length runs
       /\ length (customerEmails w') = length (customerEmails w) + n
       /\ length (aiResponses w') = length (aiResponses w) + n
       /\ length (filter isReply (trace w')) = length (filter isReply (trace w)) + n.
Proof.
  cbv zeta. revert w. induction runs as [|[sv email] runs IH]; intros w Hnd.
  - simpl. split; [exact Hnd|]. exists 0. repeat split; lia.
  - unfold processAll in *. cbn [fold_left fst snd].
    destruct (processEmail_counts sv email w) as (Hstep & n1 & Hn1 & Hce1 & Har1 & Ht1).
    cbv zeta in *.
    destruct (IH _ (Hstep Hnd)) as (Hnd' & n & Hn & Hce & Har & Ht).
    split; [exact Hnd'|]. exists (n1 + n). simpl. repeat split; lia.
Qed.

(** ** The dashboard *)

Lemma insertByUpdatedAt_perm (c : Db.Conversation) (rows : list Db.Conversation) :
  Permutation (insertByUpdatedAt c rows) (c :: rows).
Proof.
  induction rows as [|x rows IH]; simpl; [reflexivity|].
  destruct (Db.updatedAt x <=? Db.updatedAt c); [reflexivity|].
  rewrite IH. apply perm_swap.
Qed.

Lemma orderByUpdatedAtDesc_perm (rows : list Db.Conversation) :
  Permutation (orderByUpdatedAtDesc rows) rows.
Proof.
  induction rows as [|c rows IH]; simpl; [reflexivity|].
  rewrite insertByUpdatedAt_perm. now constructor.
Qed.

Lemma filter_perm_length {A : Type} (p : A -> bool) (l l' : list A) :
  Permutation l l' -> length (filter p l) = length (filter p l').
Proof.
  induction 1; simpl.
  - reflexivity.
  - destruct (p x); simpl; congruence.
  - destruct (p x), (p y); reflexivity.
  - congruence.
Qed.

Lemma filter_two_length {A : Type} (p q : A -> bool) (l : list A) :
  (forall x, p x = true -> q x = false) ->
  length (filter p l) + length (filter q l) <= length l.
Proof.
  intros Hpq. induction l as [|x l IH]; simpl; [lia|].
  destruct (p x) eqn:Hp.
  - rewrite (Hpq x Hp). simpl. lia.
  - destruct (q x); simpl; lia.
Qed.

Lemma filter_three_length {A : Type} (p q r : A -> bool) (l : list A) :
  (forall x, p x = true -> q x = false /\ r x = false) ->
  (forall x, q x = true -> r x = false) ->
  length (filter p l) + length (filter q l) + length (filter r l) <= length l.
Proof.
  intros Hp Hq. induction l as [|x l IH]; simpl; [lia|].
  destruct (p x) eqn:Ep.
  - destruct (Hp x Ep) as [-> ->]. simpl. lia.
  - destruct (q x) eqn:Eq.
    + rewrite (Hq x Eq). simpl. lia.
    + destruct (r x); simpl; lia.
Qed.

Lemma status_exclusive (a b : text) (c : Db.Conversation) :
  eqText a b = false ->
  eqText (Db.status c) a = true -> eqText (Db.status c) b = false.
Proof.
  intros Hab Ha. apply eqText_true_iff in Ha. now rewrite Ha.
Qed.

(** X17. The statistics of the dashboard: the total is the number of
    conversations, capped at 50; the escalated count is the number of all
    escalated conversations, not capped; active and resolved conversations
    are counted among the 50 shown, so that their sum stays within the
    total; with at most 50 conversations the three counts together stay
    within the total; with more than 50 escalated conversations the
    escalated count exceeds the total. *)
Theorem loaderStats_spec (w : World) :
  let stats := loaderStats w in
  let isEscalated := fun c => eqText (Db.status c) (T "ESCALATED") in
  totalConversations stats = Nat.min 50 (length (conversations w))
  /\ escalatedCount stats = length (filter isEscalated (conversations w))
  /\ activeCount stats + resolvedCount stats <= totalConversations stats
  /\ (length (conversations w) <= 50 ->
      escalatedCount stats + activeCount stats + resolvedCount stats
      <= totalConversations stats)
  /\ (50 < length (filter isEscalated (conversations w)) ->
      totalConversations stats < escalatedCount stats).
Proof.
  cbv zeta. unfold loaderStats, getConversationHistory, getEscalatedConversations,
    conversation_findMany. cbn [totalConversations escalatedCount activeCount resolvedCount].
  pose proof (orderByUpdatedAtDesc_perm (conversations w)) as Hperm.
  assert (Hlen : length (orderByUpdatedAtDesc (conversations w)) = length (conversations w))
    by now apply Permutation_length.
  assert (Hesc : length (orderByUpdatedAtDesc
                           (filter (fun c => eqText (Db.status c) (T "ESCALATED"))
                              (conversations w)))
                 = length (filter (fun c => eqText (Db.status c) (T "ESCALATED"))
                             (conversations w)))
    by apply Permutation_length, orderByUpdatedAtDesc_perm.
  rewrite Hesc, length_firstn, Hlen.
  split; [reflexivity|]. split; [reflexivity|]. split; [|split].
  - rewrite <- Hlen, <- length_firstn.
    apply filter_two_length. intros c. now apply status_exclusive.
  - intros Hsmall.
    rewrite firstn_all2 by lia.
    rewrite (filter_perm_length _ _ _ Hperm), (filter_perm_length _ _ _ Hperm).
    rewrite Nat.min_r by lia.
    apply filter_three_length.
    + intros c Hc. split; now apply (status_exclusive (T "ESCALATED")).
    + intros c. now apply status_exclusive.
  - intros Hmany. apply Nat.le_lt_trans with 50; [apply Nat.le_min_l|exact Hmany].
Qed.

Lemma In_orderByUpdatedAtDesc (c : Db.Conversation) (rows : list Db.Conversation) :
  In c (orderByUpdatedAtDesc rows) <-> In c rows.
Proof.
  split; apply Permutation_in;
    [apply orderByUpdatedAtDesc_perm|symmetry; apply orderByUpdatedAtDesc_perm].
Qed.

(** X18. An escalation shows on the dashboard: after a run on a message that
    is not yet in the store, the conversation of the sender is among the
    escalated conversations exactly when the run reports an escalation. *)
Theorem processEmail_escalation_listed (sv : Services) (email : GmailEmail.t)
    (w : World) :
  persisted (GmailEmail.id email) w = false ->
  exists res w' c',
    processEmail sv email w = (Ok res, w')
    /\ find (fun c => eqText (Db.customerEmail c) (GmailEmail.fromEmail email))
         (conversations w') = Some c'
    /\ (In c' (getEscalatedConversations w')
        <-> EmailProcessResult.escalated res = true).
Proof.
  intros Hfresh.
  destruct (processEmail_sender_row sv email w Hfresh) as (res & w' & Hrun & Hfind & _).
  eexists res, w', _. split; [exact Hrun|]. split; [exact Hfind|].
  unfold getEscalatedConversations, conversation_findMany.
  rewrite In_orderByUpdatedAtDesc, filter_In.
  apply find_some in Hfind. destruct Hfind as [Hin _].
  cbn [setStatusPriority Db.status].
  destruct (EmailProcessResult.escalated res).
  - split; [reflexivity|]. intros _. split; [exact Hin|reflexivity].
  - split; [|discriminate]. intros [_ H]. discriminate H.
Qed.

(** ** The theorems at concrete inputs, continued *)

Lemma processUnreadEmails_again_witness :
  getUnreadEmails sampleMailbox 10 = Ok [sampleEmail; complaintEmail]
  /\ let ib1 :=
       snd (processUnreadEmails (servicesWith workingRuntime) sampleMailbox sampleInbox) in
     processUnreadEmails (servicesWith failingRuntime) sampleMailbox ib1
     = (Ok (ProcessedEmailResults.mk 2 2 0 0 []),
        mkInbox (store ib1)
          (markAsReadCalls ib1 ++ [T "msg-1"; T "msg-2"])).
Proof.
  split; [reflexivity|].
  apply (processUnreadEmails_again (servicesWith workingRuntime)
           (servicesWith failingRuntime) sampleMailbox sampleInbox
           [sampleEmail; complaintEmail]).
  reflexivity.
Defined.

Lemma load_keeps_ids_distinct_witness :
  NoDup (map History.rowId sampleTable)
  /\ map History.rowId (loadHistoricalResponsesSimple (fun _ => 0) sampleBatch sampleTable)
     = [T "h-2"; T "h-1"]
  /\ NoDup (map History.rowId
              (loadHistoricalResponsesSimple (fun _ => 0) sampleBatch sampleTable)).
Proof.
  assert (H : NoDup (map History.rowId sampleTable)).
  { simpl. constructor; [intros []|constructor]. }
  split; [exact H|]. split; [reflexivity|].
  apply (proj1 (load_keeps_ids_distinct (fun _ => 0) sampleBatch sampleTable H)).
Defined.

Lemma searchSimilarResponses_threshold_witness :
  In sampleClose
    (RAGService.searchSimilarResponses (fun _ _ => Ok sampleQueryResult) (T "order") 3)
  /\ (0.5 < Rag.similarity sampleClose)%Q.
Proof.
  assert (H : In sampleClose
                (RAGService.searchSimilarResponses (fun _ _ => Ok sampleQueryResult)
                   (T "order") 3)).
  { left. reflexivity. }
  split; [exact H|].
  destruct (searchSimilarResponses_threshold (fun _ _ => Ok sampleQueryResult)
              (T "order") 3 sampleClose H)
    as (results & docs & ms & ds & i & distance & _ & _ & _ & _ & _ & _ & _ & _ & _ & Hgt).
  exact Hgt.
Defined.

Lemma searchSimilarResponses_missing_metadata_witness :
  Rag.metadatas brokenQueryResult = Some [[Some (sampleMetadata "h-1"); None]]
  /\ RAGService.searchSimilarResponses (fun _ _ => Ok brokenQueryResult) (T "order") 3 = [].
Proof.
  split; [reflexivity|].
  apply (searchSimilarResponses_missing_metadata (fun _ _ => Ok brokenQueryResult)
           (T "order") 3 brokenQueryResult
           [[T "doc-1"; T "doc-2"]] [[Some (sampleMetadata "h-1"); None]]
           [[0.2%Q; 0.3%Q]] [T "doc-1"; T "doc-2"] 1);
    try reflexivity; simpl; try lia; exact I.
Defined.

Lemma retrieved_evidence_confidence_witness :
  exists r,
    generateResponse workingRuntime evidenceParams = Ok r
    /\ (0.9 < confidence r)%Q /\ shouldEscalate r = false.
Proof.
  destruct (retrieved_evidence_confidence workingRuntime evidenceParams
              (mkCompletion
                 (Some (T "Thank you for reaching out! Your order #1001 has shipped and the tracking number is 123 with FedEx."))
                 (Some 120))
              (fun _ _ => Ok sampleQueryResult) 3)
    as (r & Hr & H); [reflexivity|reflexivity|discriminate|].
  exists r. split; [exact Hr|].
  assert (Hresp : response r = politeText).
  { unfold generateResponse, generateResponseTry in Hr. simpl in Hr.
    injection Hr as <-. reflexivity. }
  rewrite Hresp in H.
  destruct H as [_ H]; try reflexivity.
  - vm_compute. lia.
  - now apply H.
Defined.

Lemma processEmail_result_matches_store_witness :
  persisted (GmailEmail.id sampleEmail) emptyWorld = false
  /\ exists res w',
       processEmail (servicesWith workingRuntime) sampleEmail emptyWorld = (Ok res, w')
       /\ EmailProcessResult.success res = true
       /\ length (aiResponses w') = 1.
Proof.
  split; [reflexivity|].
  destruct (processEmail_result_matches_store (servicesWith workingRuntime) sampleEmail
              emptyWorld eq_refl)
    as (res & w' & row & saved & Hrun & _ & Hlen & Hok & _).
  exists res, w'. split; [exact Hrun|]. split; [exact Hok|exact Hlen].
Defined.

Lemma processEmail_conversation_witness :
  persisted (GmailEmail.id complaintEmail) sampleStore = false
  /\ exists res w' c',
       processEmail (servicesWith failingRuntime) complaintEmail sampleStore = (Ok res, w')
       /\ find (fun c => eqText (Db.customerEmail c) (GmailEmail.fromEmail complaintEmail))
            (conversations w') = Some c'
       /\ Db.priority c' = T "URGENT".
Proof.
  split; [reflexivity|].
  destruct (processEmail_conversation (servicesWith failingRuntime) complaintEmail
              sampleStore eq_refl)
    as (res & w' & c' & Hrun & Hfind & _ & _ & _ & Hp & _).
  exists res, w', c'. split; [exact Hrun|]. split; [exact Hfind|].
  rewrite Hp. reflexivity.
Defined.

Lemma emailText_body_witness :
  oneLine (T "john@example.com") = true
  /\ oneLine (T "Re: Where is my order?") = true
  /\ oneLine (T "thread-1") = true
  /\ afterBlankLine
       (emailText (T "john@example.com") (T "Re: Where is my order?")
          (T "Hi John," ++ nl ++ nl ++ T "your order has shipped.") (Some (T "thread-1")))
     = Some (T "Hi John," ++ nl ++ nl ++ T "your order has shipped.").
Proof.
  split; [reflexivity|]. split; [reflexivity|]. split; [reflexivity|].
  apply (emailText_body (T "john@example.com") (T "Re: Where is my order?")
           (T "Hi John," ++ nl ++ nl ++ T "your order has shipped.")
           (Some (T "thread-1")));
    reflexivity.
Defined.

Lemma processAll_one_reply_per_message_witness :
  NoDup (map Db.gmailMessageId (customerEmails emptyWorld))
  /\ NoDup (map Db.gmailMessageId
              (customerEmails
                 (processAll [(servicesWith workingRuntime, sampleEmail);
                              (servicesWith failingRuntime, sampleEmail);
                              (servicesWith failingRuntime, complaintEmail)]
                    emptyWorld))).
Proof.
  assert (H : NoDup (map Db.gmailMessageId (customerEmails emptyWorld))) by constructor.
  split; [exact H|].
  apply (proj1 (processAll_one_reply_per_message
                  [(servicesWith workingRuntime, sampleEmail);
                   (servicesWith failingRuntime, sampleEmail);
                   (servicesWith failingRuntime, complaintEmail)]
                  emptyWorld H)).
Defined.

Lemma processEmail_escalation_listed_witness :
  persisted (GmailEmail.id complaintEmail) sampleStore = false
  /\ exists res w' c',
       processEmail (servicesWith failingRuntime) complaintEmail sampleStore = (Ok res, w')
       /\ EmailProcessResult.escalated res = true
       /\ In c' (getEscalatedConversations w').
Proof.
  split; [reflexivity|].
  destruct (processEmail_escalation_listed (servicesWith failingRuntime) complaintEmail
              sampleStore eq_refl)
    as (res & w' & c' & Hrun & _ & Hlisted).
  assert (Hesc : EmailProcessResult.escalated res = true).
  { assert (Hres : fst (processEmail (servicesWith failingRuntime) complaintEmail sampleStore)
                   = Ok res) by now rewrite Hrun.
    vm_compute in Hres. injection Hres as <-. reflexivity. }
  exists res, w', c'. split; [exact Hrun|]. split; [exact Hesc|]. now apply Hlisted.
Defined.
